(** * The infinite canvas: scene manipulation, selection and persistence

    A shallow embedding of [src/components/InfiniteCanvas.tsx] (the two
    Pixi node classes and the React component that owns them) and of the
    persistence route [src/app/api/canvas/route.ts].  Covered: the drag and
    resize handlers of both node classes, the scale constraints, the click
    listeners that select, the wheel handler, panning, creation and deletion
    of objects, [saveToAPI], [loadCanvasData], [importFromJSON],
    [loadFromAPI], and [debouncedAutoSave] with its timer; further the frame
    of an image node, the typing mode with the keyboard handler,
    [cleanupInvalidImages], [handleGeminiImageUpdated] and, of
    [src/components/GeminiImagePrompt.tsx], [analyzePromptIntent] and
    [handleSubmit].

    Numbers.  A JavaScript [number] is modelled by a rational [Q]: every
    finite double is a rational, and the arithmetic used here ([+], [-],
    [*], [/], [Math.min], [Math.max], [Math.round]) is taken exactly, without
    the rounding of IEEE arithmetic; a bound on the size at which an image
    is drawn, a product that the code rounds, is stated with a relative
    tolerance ([sizeSlack]).  Division by zero leaves the finite
    numbers in JavaScript ([Infinity], [NaN]); statements that divide carry
    the hypothesis that the divisor is positive.  [Math.hypot], [Math.sqrt]
    and [Math.pow] are not rational functions: the handlers take them from a
    [Js.Math] record, and the statements hold for every such record.

    Objects.  Pixi nodes are mutable objects that the image list, the
    selection and the listener closures all point to.  They live in a heap
    (a list indexed by reference); records hold references.

    Closures.  A listener or a callback sees the React state of the render
    that created it.  Where the code reads such a captured value
    ([selectedImage] and [selectedText] in the click listeners,
    [images.length] and [texts.length] in the callback of the save timer),
    the model stores the captured value with the listener or the timer.
    Where the code goes through a ref that an effect keeps in sync
    ([saveToAPIRef], [debouncedAutoSaveRef], [selectedImageRef], ...), the
    model reads the current state.

    Asynchrony.  Each handler, and each asynchronous function from start to
    end, is one step of the model; [containerRef.current] is set, which it
    is once the Pixi application has been initialised. *)

From Stdlib Require Import ZArith NArith QArith Qround Qminmax Qabs.
From Stdlib Require Import List String Ascii Bool Lia Lqa.
From stdpp Require Import base list.
Import ListNotations.

Local Open Scope Q_scope.

(** ** JavaScript numbers and the [Math] object *)

Module Js.

(** [Math.round]: the nearest integer, halves towards plus infinity. *)
Definition round (v : Q) : Q := inject_Z (Qfloor (v + (1 # 2))).

(** A finite number is falsy exactly when it is zero. *)
Definition truthy (v : Q) : bool := negb (Qeq_bool v 0).

(** [v || d] on numbers. *)
Definition or_else (v d : Q) : Q := if truthy v then v else d.

(** A string is falsy exactly when it is empty. *)
Definition nonempty (s : string) : bool := negb (String.eqb s EmptyString).

(** [s || d] on strings. *)
Definition str_or (s d : string) : string := if nonempty s then s else d.

(** The transcendental part of the global [Math] object. *)
Record Math := {
  hypot : Q -> Q -> Q;
  sqrt : Q -> Q;
  pow : Q -> Q -> Q
}.

(** An executable [Math] for worked examples: the square root through the
    integer square root (exact on squares of rationals), the power through
    the integer power (exact on integer exponents). *)
Definition sqrt_q (v : Q) : Q :=
  Z.sqrt (Qnum v * Z.pos (Qden v)) # Qden v.

Definition pow_q (b e : Q) : Q := Qpower b (Qfloor e).

Definition QMath : Math := {|
  hypot := fun a b => sqrt_q (a * a + b * b);
  sqrt := sqrt_q;
  pow := pow_q
|}.

End Js.

(** ** The part of Pixi the component relies on *)

Record Point := { px : Q; py : Q }.

Record Texture := { width : Q; height : Q }.

Record FederatedPointerEvent := { pointerId : Z; global : Point }.

(** What a node emits to its listeners. *)
Inductive Emitted :=
| Moved (x y : Q)
| Resized (scale : Q)
| Scaled (scale : Q).

(** The main container is only ever translated (panning) and its parent,
    the stage, is never transformed: [toGlobal] and [toLocal] of the
    container add and subtract its position. *)
Definition toGlobal (container p : Point) : Point :=
  {| px := px p + px container; py := py p + py container |}.

Definition toLocal (container g : Point) : Point :=
  {| px := px g - px container; py := py g - py container |}.

(** [a === b] between a pointer identifier and a [number | null] field. *)
Definition same_pointer (a : Z) (b : option Z) : bool :=
  match b with
  | Some b' => Z.eqb a b'
  | None => false
  end.

(** ** [class DraggableResizable]: the image node *)

Module DraggableResizable.

(** [x], [y]: the position of the node in its parent.  [scale] is
    [sprite.scale], always set uniformly.  The cursor and the alpha of the
    handle are rendering details and are left out. *)
Record t := {
  id : string;
  x : Q;
  y : Q;
  texture : Texture;
  scale : Q;
  frame_visible : bool;
  handle_visible : bool;
  dragging : bool;
  dragPointerId : option Z;
  dragOffset : Point;
  resizing : bool;
  resizePointerId : option Z;
  startProj : Q;
  startScale : Q
}.

Definition with_position (n : t) (x' y' : Q) : t :=
  {| id := id n; x := x'; y := y'; texture := texture n; scale := scale n;
     frame_visible := frame_visible n; handle_visible := handle_visible n;
     dragging := dragging n; dragPointerId := dragPointerId n;
     dragOffset := dragOffset n; resizing := resizing n;
     resizePointerId := resizePointerId n; startProj := startProj n;
     startScale := startScale n |}.

Definition with_selection (n : t) (v : bool) : t :=
  {| id := id n; x := x n; y := y n; texture := texture n; scale := scale n;
     frame_visible := v; handle_visible := v;
     dragging := dragging n; dragPointerId := dragPointerId n;
     dragOffset := dragOffset n; resizing := resizing n;
     resizePointerId := resizePointerId n; startProj := startProj n;
     startScale := startScale n |}.

Definition with_drag (n : t) (d : bool) (p : option Z) (o : Point) : t :=
  {| id := id n; x := x n; y := y n; texture := texture n; scale := scale n;
     frame_visible := frame_visible n; handle_visible := handle_visible n;
     dragging := d; dragPointerId := p; dragOffset := o;
     resizing := resizing n; resizePointerId := resizePointerId n;
     startProj := startProj n; startScale := startScale n |}.

Definition with_resize (n : t) (r : bool) (p : option Z) (sp ss : Q) : t :=
  {| id := id n; x := x n; y := y n; texture := texture n; scale := scale n;
     frame_visible := frame_visible n; handle_visible := handle_visible n;
     dragging := dragging n; dragPointerId := dragPointerId n;
     dragOffset := dragOffset n;
     resizing := r; resizePointerId := p; startProj := sp; startScale := ss |}.

(** [setScale]: [sprite.scale.set(scale)] and a redraw of the frame, which
    for the image node touches no state. *)
Definition setScale (s : Q) (n : t) : t :=
  {| id := id n; x := x n; y := y n; texture := texture n; scale := s;
     frame_visible := frame_visible n; handle_visible := handle_visible n;
     dragging := dragging n; dragPointerId := dragPointerId n;
     dragOffset := dragOffset n; resizing := resizing n;
     resizePointerId := resizePointerId n; startProj := startProj n;
     startScale := startScale n |}.

Definition getScale (n : t) : Q := scale n.

Definition showSelection (n : t) : t := with_selection n true.
Definition hideSelection (n : t) : t := with_selection n false.

(** The constructor: "initial scale down if huge". *)
Definition new (tex : Texture) (id0 : string) : t :=
  let maxDim := 200 in
  let s := Qmin 1 (maxDim / Qmax (width tex) (height tex)) in
  {| id := id0; x := 0; y := 0; texture := tex; scale := s;
     frame_visible := true; handle_visible := true;
     dragging := false; dragPointerId := None;
     dragOffset := {| px := 0; py := 0 |};
     resizing := false; resizePointerId := None;
     startProj := 0; startScale := s |}.

Record Constraints := { min : Q; max : Q }.

(** [getScaleConstraints], "used by both resize handle and wheel handler". *)
Definition getScaleConstraints (n : t) : Constraints :=
  let minPx := 20 in
  let minTexDim := Qmin (width (texture n)) (height (texture n)) in
  let minScale := Qmax 0.05 (minPx / minTexDim) in
  let maxScale := 8 in
  {| min := minScale; max := maxScale |}.

(** *** Dragging *)

Definition onDragStart (e : FederatedPointerEvent) (n : t) : t :=
  let gp := global e in
  with_drag n true (Some (pointerId e))
    {| px := px gp - x n; py := py gp - y n |}.

Definition onDragMove (e : FederatedPointerEvent) (n : t) : t :=
  if negb (dragging n) || negb (same_pointer (pointerId e) (dragPointerId n))
  then n
  else
    let gp := global e in
    with_position n (px gp - px (dragOffset n)) (py gp - py (dragOffset n)).

Definition onDragEnd (e : FederatedPointerEvent) (n : t) : t * list Emitted :=
  if negb (same_pointer (pointerId e) (dragPointerId n)) then (n, [])
  else (with_drag n false None (dragOffset n), [Moved (x n) (y n)]).

(** *** Resizing (aspect ratio preserved)

    [parent] is the position of the main container when the node has been
    added to it, [None] when [this.parent] is null. *)

Definition onResizeStart (M : Js.Math) (parent : option Point)
    (e : FederatedPointerEvent) (n : t) : t :=
  let n1 := with_resize n true (Some (pointerId e)) (startProj n) (startScale n) in
  match parent with
  | None => n1
  | Some c =>
      let globalPoint := global e in
      let thisGlobal := toGlobal c {| px := x n; py := y n |} in
      let sp := Js.hypot M (px globalPoint - px thisGlobal)
                           (py globalPoint - py thisGlobal) in
      with_resize n1 true (Some (pointerId e)) sp (scale n)
  end.

(** [currentProj / this.startProj] is the quotient of the code when the
    start distance is positive.  With [startProj = 0] (the handle grabbed
    on the centre of the node) the code computes [Infinity] or [NaN], which
    [Q] does not have: every statement about the scale that a move sets
    assumes [0 < startProj]. *)
Definition onResizeMove (M : Js.Math) (parent : option Point)
    (e : FederatedPointerEvent) (n : t) : t :=
  match parent with
  | None => n
  | Some c =>
      if negb (resizing n)
         || negb (same_pointer (pointerId e) (resizePointerId n))
      then n
      else
        let globalPoint := global e in
        let thisGlobal := toGlobal c {| px := x n; py := y n |} in
        let currentProj := Js.hypot M (px globalPoint - px thisGlobal)
                                      (py globalPoint - py thisGlobal) in
        let factor := currentProj / startProj n in
        let newScale := startScale n * factor in
        let c' := getScaleConstraints n in
        let finalScale := Qmin (max c') (Qmax (min c') newScale) in
        setScale finalScale n
  end.

Definition onResizeEnd (e : FederatedPointerEvent) (n : t) : t * list Emitted :=
  if negb (same_pointer (pointerId e) (resizePointerId n)) then (n, [])
  else (with_resize n false None (startProj n) (startScale n),
        [Resized (scale n)]).

End DraggableResizable.

(** ** [class DraggableResizableText]: the text node *)

Module DraggableResizableText.

(** [text] is [this.text], the [PIXI.Text] sprite, kept as its uniform scale.
    The constructor starts loading the font and creates the sprite in the
    continuation of that promise, so [text] is [None] (undefined) from
    construction until [fontLoaded].  The listeners of the sprite and of the
    handle are attached in the same continuation. *)
Record t := {
  id : string;
  x : Q;
  y : Q;
  text : option Q;
  frame_visible : bool;
  handle_visible : bool;
  dragging : bool;
  dragPointerId : option Z;
  dragOffset : Point;
  resizing : bool;
  resizePointerId : option Z;
  startProj : Q;
  startScale : Q
}.

Definition with_position (n : t) (x' y' : Q) : t :=
  {| id := id n; x := x'; y := y'; text := text n;
     frame_visible := frame_visible n; handle_visible := handle_visible n;
     dragging := dragging n; dragPointerId := dragPointerId n;
     dragOffset := dragOffset n; resizing := resizing n;
     resizePointerId := resizePointerId n; startProj := startProj n;
     startScale := startScale n |}.

Definition with_text (n : t) (s : option Q) : t :=
  {| id := id n; x := x n; y := y n; text := s;
     frame_visible := frame_visible n; handle_visible := handle_visible n;
     dragging := dragging n; dragPointerId := dragPointerId n;
     dragOffset := dragOffset n; resizing := resizing n;
     resizePointerId := resizePointerId n; startProj := startProj n;
     startScale := startScale n |}.

Definition with_selection (n : t) (v : bool) : t :=
  {| id := id n; x := x n; y := y n; text := text n;
     frame_visible := v; handle_visible := v;
     dragging := dragging n; dragPointerId := dragPointerId n;
     dragOffset := dragOffset n; resizing := resizing n;
     resizePointerId := resizePointerId n; startProj := startProj n;
     startScale := startScale n |}.

Definition with_drag (n : t) (d : bool) (p : option Z) (o : Point) : t :=
  {| id := id n; x := x n; y := y n; text := text n;
     frame_visible := frame_visible n; handle_visible := handle_visible n;
     dragging := d; dragPointerId := p; dragOffset := o;
     resizing := resizing n; resizePointerId := resizePointerId n;
     startProj := startProj n; startScale := startScale n |}.

Definition with_resize (n : t) (r : bool) (p : option Z) (sp ss : Q) : t :=
  {| id := id n; x := x n; y := y n; text := text n;
     frame_visible := frame_visible n; handle_visible := handle_visible n;
     dragging := dragging n; dragPointerId := dragPointerId n;
     dragOffset := dragOffset n;
     resizing := r; resizePointerId := p; startProj := sp; startScale := ss |}.

Definition showSelection (n : t) : t := with_selection n true.
Definition hideSelection (n : t) : t := with_selection n false.

(** [_redrawFrame]: returns at once while the sprite is missing; otherwise
    it redraws and ends with "Hide by default". *)
Definition _redrawFrame (n : t) : t :=
  match text n with
  | None => n
  | Some _ => with_selection n false
  end.

(** The constructor, up to the point where it returns. *)
Definition new (id0 : string) : t :=
  {| id := id0; x := 0; y := 0; text := None;
     frame_visible := true; handle_visible := true;
     dragging := false; dragPointerId := None;
     dragOffset := {| px := 0; py := 0 |};
     resizing := false; resizePointerId := None;
     startProj := 0; startScale := 1 |}.

(** The continuation of [loadFontForPixi] (both its [then] and its [catch]
    branch): the sprite is created at scale 1 and the frame is redrawn. *)
Definition fontLoaded (n : t) : t := _redrawFrame (with_text n (Some 1)).

(** [getScale] and [setScale] read [this.text.scale]: a [TypeError] while the
    sprite is missing, rendered as [None]. *)
Definition getScale (n : t) : option Q := text n.

Definition setScale (s : Q) (n : t) : option t :=
  match text n with
  | None => None
  | Some _ => Some (_redrawFrame (with_text n (Some s)))
  end.

(** *** Dragging

    [onDragStart] takes the pointer in the frame of the sprite
    ([this.text.toLocal]): the sprite sits at the origin of the node and
    carries the scale, so that frame is the parent frame shifted by the
    position of the node and divided by the scale.  [onDragMove] works in the
    frame of the parent. *)

Definition parent_origin (parent : option Point) : Point :=
  match parent with
  | Some c => c
  | None => {| px := 0; py := 0 |}
  end.

Definition onDragStart (parent : option Point) (e : FederatedPointerEvent)
    (n : t) : t :=
  match text n with
  | None => n
  | Some s =>
      let c := parent_origin parent in
      let localPos :=
        {| px := (px (global e) - px c - x n) / s;
           py := (py (global e) - py c - y n) / s |} in
      with_drag n true (Some (pointerId e)) localPos
  end.

Definition onDragEnd (e : FederatedPointerEvent) (n : t) : t * list Emitted :=
  if dragging n && same_pointer (pointerId e) (dragPointerId n)
  then (with_drag n false None (dragOffset n), [Moved (x n) (y n)])
  else (n, []).

Definition onDragMove (parent : option Point) (e : FederatedPointerEvent)
    (n : t) : t :=
  if dragging n && same_pointer (pointerId e) (dragPointerId n)
  then
    match parent with
    | None => n
    | Some c =>
        let localPos := toLocal c (global e) in
        with_position n (px localPos - px (dragOffset n))
                        (py localPos - py (dragOffset n))
    end
  else n.

(** *** Resizing *)

Definition onResizeStart (M : Js.Math) (parent : option Point)
    (e : FederatedPointerEvent) (n : t) : t :=
  let n1 := with_resize n true (Some (pointerId e)) (startProj n) (startScale n) in
  match parent, text n with
  | Some c, Some s =>
      let localPos := toLocal c (global e) in
      let dx := px localPos - x n in
      let dy := py localPos - y n in
      with_resize n1 true (Some (pointerId e)) (Js.sqrt M (dx * dx + dy * dy)) s
  | _, _ => n1
  end.

(** As for the image node, [currentProj / this.startProj] is the quotient of
    the code when the start distance is positive, and the statements about
    the scale that a move sets assume [0 < startProj]. *)
Definition onResizeMove (M : Js.Math) (parent : option Point)
    (e : FederatedPointerEvent) (n : t) : t :=
  if resizing n && same_pointer (pointerId e) (resizePointerId n)
  then
    match parent, text n with
    | Some c, Some _ =>
        let localPos := toLocal c (global e) in
        let dx := px localPos - x n in
        let dy := py localPos - y n in
        let currentProj := Js.sqrt M (dx * dx + dy * dy) in
        let scaleFactor := currentProj / startProj n in
        let newScale := Qmax 0.1 (Qmin 5 (startScale n * scaleFactor)) in
        _redrawFrame (with_text n (Some newScale))
    | _, _ => n
    end
  else n.

Definition onResizeEnd (e : FederatedPointerEvent) (n : t) : t * list Emitted :=
  if resizing n && same_pointer (pointerId e) (resizePointerId n)
  then
    (with_resize n false None (startProj n) (startScale n),
     match text n with Some s => [Scaled s] | None => [] end)
  else (n, []).

End DraggableResizableText.

(** ** The interfaces of the component *)

Module DraggableImage.
(** [node] is a reference into the heap of image nodes. *)
Record t := {
  id : string;
  node : nat;
  x : Q;
  y : Q;
  scale : Q;
  imageUrl : string
}.
End DraggableImage.

Module DraggableText.
(** [node] is a reference into the heap of text nodes. *)
Record t := {
  id : string;
  node : nat;
  x : Q;
  y : Q;
  text : string;
  color : string;
  fontFamily : string
}.
End DraggableText.

Module StoredImageData.
Record t := {
  id : string;
  imageUrl : string;
  x : Q;
  y : Q;
  scale : Q
}.
End StoredImageData.

Module StoredTextData.
(** A [scale] of zero also stands for a missing [scale] field: both are
    falsy for the only test the code makes of it. *)
Record t := {
  id : string;
  text : string;
  x : Q;
  y : Q;
  color : string;
  fontFamily : string;
  scale : Q
}.
End StoredTextData.

Module CanvasData.
(** A parsed document.  The code guards against a missing [images],
    [texts] and [canvasPosition], so each may be absent. *)
Record t := {
  images : option (list StoredImageData.t);
  texts : option (list StoredTextData.t);
  canvasPosition : option Point
}.
End CanvasData.

Module EditorState.
Record t := { fontFamily : string; color : string }.
End EditorState.

(** The textures that can be obtained, by URL.  A URL that is not listed
    fails: [Assets.load] rejects, or the texture made by [PIXI.Texture.from]
    is missing or never gets ready.  The two ways of obtaining a texture are
    Pixi's own; a statement about both loaders takes one such list for
    each. *)
Definition Assets := list (string * Texture).

Fixpoint resolve (assets : Assets) (url : string) : option Texture :=
  match assets with
  | [] => None
  | (u, tex) :: rest => if String.eqb u url then Some tex else resolve rest url
  end.

(** ** The state of the component *)

(** An image node on the heap together with what the component attached to
    it: the [selectedImage] and [imageUrl] its click listener closed over,
    and whether the listeners of ['resized'] and ['moved'] were attached. *)
Record ImageCell := {
  image_node : DraggableResizable.t;
  image_destroyed : bool;
  image_seen_selectedImage : option DraggableImage.t;
  image_seen_imageUrl : string;
  image_persists : bool
}.

(** A text node on the heap with the closure of its click listener; the
    listener itself is attached once the sprite exists. *)
Record TextCell := {
  text_node : DraggableResizableText.t;
  text_destroyed : bool;
  text_seen_selectedImage : option DraggableImage.t;
  text_seen_selectedText : option DraggableText.t;
  text_seen_text : string;
  text_seen_color : string;
  text_seen_fontFamily : string
}.

Definition map_image_node (f : DraggableResizable.t -> DraggableResizable.t)
    (c : ImageCell) : ImageCell :=
  {| image_node := f (image_node c); image_destroyed := image_destroyed c;
     image_seen_selectedImage := image_seen_selectedImage c;
     image_seen_imageUrl := image_seen_imageUrl c;
     image_persists := image_persists c |}.

Definition destroy_image (c : ImageCell) : ImageCell :=
  {| image_node := image_node c; image_destroyed := true;
     image_seen_selectedImage := image_seen_selectedImage c;
     image_seen_imageUrl := image_seen_imageUrl c;
     image_persists := image_persists c |}.

Definition map_text_node
    (f : DraggableResizableText.t -> DraggableResizableText.t)
    (c : TextCell) : TextCell :=
  {| text_node := f (text_node c); text_destroyed := text_destroyed c;
     text_seen_selectedImage := text_seen_selectedImage c;
     text_seen_selectedText := text_seen_selectedText c;
     text_seen_text := text_seen_text c; text_seen_color := text_seen_color c;
     text_seen_fontFamily := text_seen_fontFamily c |}.

Definition destroy_text (c : TextCell) : TextCell :=
  {| text_node := text_node c; text_destroyed := true;
     text_seen_selectedImage := text_seen_selectedImage c;
     text_seen_selectedText := text_seen_selectedText c;
     text_seen_text := text_seen_text c; text_seen_color := text_seen_color c;
     text_seen_fontFamily := text_seen_fontFamily c |}.

(** The React state ([images], [texts], [selectedImage], [selectedText]),
    the two heaps of Pixi nodes, the position of the main container
    ([containerRef.current]) and the two locals of the panning gesture. *)
Record State := {
  imageNodes : list ImageCell;
  textNodes : list TextCell;
  images : list DraggableImage.t;
  texts : list DraggableText.t;
  selectedImage : option DraggableImage.t;
  selectedText : option DraggableText.t;
  container : Point;
  isPanning : bool;
  lastPointerPosition : Point
}.

Definition initial : State :=
  {| imageNodes := []; textNodes := []; images := []; texts := [];
     selectedImage := None; selectedText := None;
     container := {| px := 0; py := 0 |};
     isPanning := false; lastPointerPosition := {| px := 0; py := 0 |} |}.

Definition set_imageNodes (v : list ImageCell) (s : State) : State :=
  {| imageNodes := v; textNodes := textNodes s; images := images s;
     texts := texts s; selectedImage := selectedImage s;
     selectedText := selectedText s; container := container s;
     isPanning := isPanning s; lastPointerPosition := lastPointerPosition s |}.

Definition set_textNodes (v : list TextCell) (s : State) : State :=
  {| imageNodes := imageNodes s; textNodes := v; images := images s;
     texts := texts s; selectedImage := selectedImage s;
     selectedText := selectedText s; container := container s;
     isPanning := isPanning s; lastPointerPosition := lastPointerPosition s |}.

Definition setImages (v : list DraggableImage.t) (s : State) : State :=
  {| imageNodes := imageNodes s; textNodes := textNodes s; images := v;
     texts := texts s; selectedImage := selectedImage s;
     selectedText := selectedText s; container := container s;
     isPanning := isPanning s; lastPointerPosition := lastPointerPosition s |}.

Definition setTexts (v : list DraggableText.t) (s : State) : State :=
  {| imageNodes := imageNodes s; textNodes := textNodes s; images := images s;
     texts := v; selectedImage := selectedImage s;
     selectedText := selectedText s; container := container s;
     isPanning := isPanning s; lastPointerPosition := lastPointerPosition s |}.

Definition setSelectedImage (v : option DraggableImage.t) (s : State) : State :=
  {| imageNodes := imageNodes s; textNodes := textNodes s; images := images s;
     texts := texts s; selectedImage := v;
     selectedText := selectedText s; container := container s;
     isPanning := isPanning s; lastPointerPosition := lastPointerPosition s |}.

Definition setSelectedText (v : option DraggableText.t) (s : State) : State :=
  {| imageNodes := imageNodes s; textNodes := textNodes s; images := images s;
     texts := texts s; selectedImage := selectedImage s;
     selectedText := v; container := container s;
     isPanning := isPanning s; lastPointerPosition := lastPointerPosition s |}.

Definition set_container (v : Point) (s : State) : State :=
  {| imageNodes := imageNodes s; textNodes := textNodes s; images := images s;
     texts := texts s; selectedImage := selectedImage s;
     selectedText := selectedText s; container := v;
     isPanning := isPanning s; lastPointerPosition := lastPointerPosition s |}.

Definition set_panning (b : bool) (p : Point) (s : State) : State :=
  {| imageNodes := imageNodes s; textNodes := textNodes s; images := images s;
     texts := texts s; selectedImage := selectedImage s;
     selectedText := selectedText s; container := container s;
     isPanning := b; lastPointerPosition := p |}.

(** ** Creating objects *)

Definition hide_image (ref : nat) (heap : list ImageCell) : list ImageCell :=
  alter (map_image_node DraggableResizable.hideSelection) ref heap.

Definition show_image (ref : nat) (heap : list ImageCell) : list ImageCell :=
  alter (map_image_node DraggableResizable.showSelection) ref heap.

Definition hide_text (ref : nat) (heap : list TextCell) : list TextCell :=
  alter (map_text_node DraggableResizableText.hideSelection) ref heap.

Definition show_text (ref : nat) (heap : list TextCell) : list TextCell :=
  alter (map_text_node DraggableResizableText.showSelection) ref heap.

(** [createSpriteFromTexture].  [seen] is the [selectedImage] of the render
    whose callback is running (the callback is memoised on
    [selectedImage]); [now] is [Date.now().toString()]. *)
Definition createSpriteFromTexture (seen : option DraggableImage.t)
    (texture : Texture) (x y : Q) (imageUrl : string) (now : string)
    (s : State) : State :=
  let id := now in
  let node :=
    DraggableResizable.hideSelection
      (DraggableResizable.with_position (DraggableResizable.new texture id)
         (Js.round x) (Js.round y)) in
  let ref := length (imageNodes s) in
  let cell :=
    {| image_node := node; image_destroyed := false;
       image_seen_selectedImage := seen; image_seen_imageUrl := imageUrl;
       image_persists := true |} in
  let newImage :=
    {| DraggableImage.id := id; DraggableImage.node := ref;
       DraggableImage.x := DraggableResizable.x node;
       DraggableImage.y := DraggableResizable.y node;
       DraggableImage.scale := DraggableResizable.getScale node;
       DraggableImage.imageUrl := imageUrl |} in
  setImages (images s ++ [newImage]) (set_imageNodes (imageNodes s ++ [cell]) s).

(** [addImageAtPosition]: nothing is created for a URL that does not
    resolve (the fallback keeps polling a texture that never gets ready). *)
Definition addImageAtPosition (assets : Assets) (seen : option DraggableImage.t)
    (imageUrl : string) (x y : Q) (now : string) (s : State) : State :=
  match resolve assets imageUrl with
  | Some texture => createSpriteFromTexture seen texture x y imageUrl now s
  | None => s
  end.

(** The drop handler is created once, in the effect that runs on mount: the
    [addImageAtPosition] it calls is the one of the first render, where
    [selectedImage] is null.  [canvas] is the drop point relative to the
    canvas element. *)
Definition handleDrop (assets : Assets) (imageUrl : string) (canvas : Point)
    (now : string) (s : State) : State :=
  let localPoint := toLocal (container s) canvas in
  addImageAtPosition assets None imageUrl (px localPoint) (py localPoint) now s.

Definition handleGeminiImageGenerated (assets : Assets) (imageUrl : string)
    (x y : Q) (now : string) (s : State) : State :=
  let localPoint := toLocal (container s) {| px := x; py := y |} in
  addImageAtPosition assets (selectedImage s) imageUrl
    (px localPoint) (py localPoint) now s.

(** [createTextElement], as far as the state goes (it also schedules a
    save, see [World]).  The click listener closes over the [selectedImage]
    and [selectedText] of the render whose callback is running, which is the
    current one: [createTextElementRef] is kept in sync. *)
Definition createTextElement_state (editorState : EditorState.t)
    (text : string) (x y : Q) (now : string) (s : State) : State :=
  let textId := now in
  let textNode :=
    DraggableResizableText.with_position (DraggableResizableText.new textId) x y in
  let ref := length (textNodes s) in
  let cell :=
    {| text_node := textNode; text_destroyed := false;
       text_seen_selectedImage := selectedImage s;
       text_seen_selectedText := selectedText s;
       text_seen_text := text;
       text_seen_color := EditorState.color editorState;
       text_seen_fontFamily := EditorState.fontFamily editorState |} in
  let newText :=
    {| DraggableText.id := textId; DraggableText.node := ref;
       DraggableText.x := DraggableResizableText.x textNode;
       DraggableText.y := DraggableResizableText.y textNode;
       DraggableText.text := text;
       DraggableText.color := EditorState.color editorState;
       DraggableText.fontFamily := EditorState.fontFamily editorState |} in
  setTexts (texts s ++ [newText]) (set_textNodes (textNodes s ++ [cell]) s).

(** The font of a text node finishes loading. *)
Definition textFontLoaded (ref : nat) (s : State) : State :=
  set_textNodes
    (alter (map_text_node DraggableResizableText.fontLoaded) ref (textNodes s)) s.

(** ** Selection *)

(** The body of the click listener of an image (for the images made by
    [createSpriteFromTexture] and [loadFromAPI] it runs 300 ms after a
    single click, for those made by [loadCanvasData] at once). *)
Definition imageClicked (ref : nat) (s : State) : State :=
  match imageNodes s !! ref with
  | None => s
  | Some cell =>
      let n := image_node cell in
      let id := DraggableResizable.id n in
      let heap1 :=
        match image_seen_selectedImage cell with
        | Some si =>
            if negb (String.eqb (DraggableImage.id si) id)
            then hide_image (DraggableImage.node si) (imageNodes s)
            else imageNodes s
        | None => imageNodes s
        end in
      let heap2 := show_image ref heap1 in
      setSelectedImage
        (Some {| DraggableImage.id := id; DraggableImage.node := ref;
                 DraggableImage.x := DraggableResizable.x n;
                 DraggableImage.y := DraggableResizable.y n;
                 DraggableImage.scale := DraggableResizable.getScale n;
                 DraggableImage.imageUrl := image_seen_imageUrl cell |})
        (set_imageNodes heap2 s)
  end.

(** The click listener of a text: "Clear previous selections", then select.
    It exists only once the sprite does. *)
Definition textClicked (ref : nat) (s : State) : State :=
  match textNodes s !! ref with
  | None => s
  | Some cell =>
      match DraggableResizableText.text (text_node cell) with
      | None => s
      | Some _ =>
          let n := text_node cell in
          let s1 :=
            match text_seen_selectedImage cell with
            | Some si =>
                setSelectedImage None
                  (set_imageNodes
                     (hide_image (DraggableImage.node si) (imageNodes s)) s)
            | None => s
            end in
          let s2 :=
            match text_seen_selectedText cell with
            | Some st =>
                setSelectedText None
                  (set_textNodes
                     (hide_text (DraggableText.node st) (textNodes s1)) s1)
            | None => s1
            end in
          let s3 := set_textNodes (show_text ref (textNodes s2)) s2 in
          setSelectedText
            (Some {| DraggableText.id := DraggableResizableText.id n;
                     DraggableText.node := ref;
                     DraggableText.x := DraggableResizableText.x n;
                     DraggableText.y := DraggableResizableText.y n;
                     DraggableText.text := text_seen_text cell;
                     DraggableText.color := text_seen_color cell;
                     DraggableText.fontFamily := text_seen_fontFamily cell |})
            s3
      end
  end.

(** Pointer down on the empty background with a tool other than the text
    tool: panning starts and the selection is dropped. *)
Definition backgroundPointerDown (e : FederatedPointerEvent) (s : State) : State :=
  let s1 := set_panning true (global e) s in
  let s2 :=
    match selectedImage s1 with
    | Some si =>
        set_imageNodes (hide_image (DraggableImage.node si) (imageNodes s1)) s1
    | None => s1
    end in
  setSelectedText None (setSelectedImage None s2).


(** The objects that are selected: the targets of [selectedImage] and of
    [selectedText]. *)
Definition selectedCount (s : State) : nat :=
  (match selectedImage s with Some _ => 1 | None => 0 end
   + match selectedText s with Some _ => 1 | None => 0 end)%nat.

(** The nodes on the canvas whose selection frame is showing. *)
Definition framesShown (s : State) : nat :=
  (length (List.filter
             (fun c => negb (image_destroyed c)
                       && DraggableResizable.frame_visible (image_node c))
             (imageNodes s))
   + length (List.filter
               (fun c => negb (text_destroyed c)
                         && DraggableResizableText.frame_visible (text_node c))
               (textNodes s)))%nat.

(** ** Saving *)

(** [saveToAPI], up to the request body.  Positions and scales are read
    from the live nodes.  An image without URL is filtered out.  Reading the
    scale of a text node whose sprite does not exist yet throws, and then no
    request is made: [None]. *)
Definition store_image (heap : list ImageCell) (img : DraggableImage.t)
    : option StoredImageData.t :=
  if negb (Js.nonempty (DraggableImage.imageUrl img)) then None
  else
    let n := image_node <$> (heap !! DraggableImage.node img) in
    Some {| StoredImageData.id := DraggableImage.id img;
            StoredImageData.imageUrl := DraggableImage.imageUrl img;
            StoredImageData.x :=
              match n with Some n => Js.or_else (DraggableResizable.x n) 0 | None => 0 end;
            StoredImageData.y :=
              match n with Some n => Js.or_else (DraggableResizable.y n) 0 | None => 0 end;
            StoredImageData.scale :=
              match n with
              | Some n => Js.or_else (DraggableResizable.getScale n) 1
              | None => 1
              end |}.

Definition store_text (heap : list TextCell) (t : DraggableText.t)
    : option StoredTextData.t :=
  match text_node <$> (heap !! DraggableText.node t) with
  | Some n =>
      match DraggableResizableText.getScale n with
      | None => None
      | Some sc =>
          Some {| StoredTextData.id := DraggableText.id t;
                  StoredTextData.text := DraggableText.text t;
                  StoredTextData.x := Js.or_else (DraggableResizableText.x n) 0;
                  StoredTextData.y := Js.or_else (DraggableResizableText.y n) 0;
                  StoredTextData.color := DraggableText.color t;
                  StoredTextData.fontFamily := DraggableText.fontFamily t;
                  StoredTextData.scale := Js.or_else sc 1 |}
      end
  | None =>
      Some {| StoredTextData.id := DraggableText.id t;
              StoredTextData.text := DraggableText.text t;
              StoredTextData.x := 0; StoredTextData.y := 0;
              StoredTextData.color := DraggableText.color t;
              StoredTextData.fontFamily := DraggableText.fontFamily t;
              StoredTextData.scale := 1 |}
  end.

(** [texts.map(...)]: the first entry that throws ends the whole call. *)
Fixpoint store_texts (heap : list TextCell) (l : list DraggableText.t)
    : option (list StoredTextData.t) :=
  match l with
  | [] => Some []
  | t :: rest =>
      match store_text heap t with
      | None => None
      | Some st =>
          match store_texts heap rest with
          | None => None
          | Some sts => Some (st :: sts)
          end
      end
  end.

Definition saveToAPI (s : State) : option CanvasData.t :=
  match store_texts (textNodes s) (texts s) with
  | None => None
  | Some sts =>
      Some {| CanvasData.images := Some (omap (store_image (imageNodes s)) (images s));
              CanvasData.texts := Some sts;
              CanvasData.canvasPosition := Some (container s) |}
  end.

(** ** The persistence route, [app/api/canvas/route.ts]

    [file] is the content of [public/canvas-data.json], if it exists. *)

Module Route.

Definition GET (file : option CanvasData.t) : CanvasData.t :=
  match file with
  | Some d => d
  | None =>
      {| CanvasData.images := Some [];
         CanvasData.texts := None;
         CanvasData.canvasPosition := Some {| px := 0; py := 0 |} |}
  end.

(** The new content of the file and whether the response is ok. *)
Definition POST (body : CanvasData.t) (file : option CanvasData.t)
    : option CanvasData.t * bool :=
  match CanvasData.images body with
  | None => (file, false)
  | Some _ => (Some body, true)
  end.

End Route.

(** ** Loading *)

(** How a call that may throw ends, with the state it leaves behind. *)
Inductive Completion :=
| Returned (s : State)
| Thrown (s : State).

Definition final (c : Completion) : State :=
  match c with
  | Returned s => s
  | Thrown s => s
  end.

(** The check both loaders make before they touch Pixi, and the texture
    they obtain: a stored image without URL, or whose URL does not resolve,
    is skipped (by [continue], or by the [catch] around the entry). *)
Definition loadable (assets : Assets) (stored : StoredImageData.t)
    : option Texture :=
  if Js.nonempty (StoredImageData.imageUrl stored)
  then resolve assets (StoredImageData.imageUrl stored)
  else None.

(** The node both loaders build for a stored image. *)
Definition restoreImageNode (texture : Texture) (stored : StoredImageData.t)
    : DraggableResizable.t :=
  DraggableResizable.hideSelection
    (DraggableResizable.setScale (StoredImageData.scale stored)
       (DraggableResizable.with_position
          (DraggableResizable.new texture (StoredImageData.id stored))
          (Js.round (StoredImageData.x stored))
          (Js.round (StoredImageData.y stored)))).

(** The loop over the stored images.  [loadCanvasData] and [loadFromAPI]
    each have their own copy of it; the copies differ in the [selectedImage]
    their click listeners see ([seen]) and in whether the listeners of
    ['resized'] and ['moved'] are attached ([persists]). *)
Fixpoint loadImages (assets : Assets) (seen : option DraggableImage.t)
    (persists : bool) (stored : list StoredImageData.t)
    (heap : list ImageCell) (loadedImages : list DraggableImage.t)
    : list ImageCell * list DraggableImage.t :=
  match stored with
  | [] => (heap, loadedImages)
  | storedImage :: rest =>
      match loadable assets storedImage with
      | None => loadImages assets seen persists rest heap loadedImages
      | Some texture =>
          let node := restoreImageNode texture storedImage in
          let ref := length heap in
          let cell :=
            {| image_node := node; image_destroyed := false;
               image_seen_selectedImage := seen;
               image_seen_imageUrl := StoredImageData.imageUrl storedImage;
               image_persists := persists |} in
          let newImage :=
            {| DraggableImage.id := StoredImageData.id storedImage;
               DraggableImage.node := ref;
               DraggableImage.x := DraggableResizable.x node;
               DraggableImage.y := DraggableResizable.y node;
               DraggableImage.scale := DraggableResizable.getScale node;
               DraggableImage.imageUrl := StoredImageData.imageUrl storedImage |} in
          loadImages assets seen persists rest (heap ++ [cell])
            (loadedImages ++ [newImage])
      end
  end.

(** The loop over the stored texts in [loadCanvasData].  The node is new, so
    its sprite does not exist yet when [setScale] is called on it: a stored
    text with a truthy scale throws there and the [catch] around the entry
    skips it. *)
Fixpoint loadTexts (seenImage : option DraggableImage.t)
    (seenText : option DraggableText.t) (stored : list StoredTextData.t)
    (heap : list TextCell) (loadedTexts : list DraggableText.t)
    : list TextCell * list DraggableText.t :=
  match stored with
  | [] => (heap, loadedTexts)
  | storedText :: rest =>
      if negb (Js.nonempty (StoredTextData.text storedText))
      then loadTexts seenImage seenText rest heap loadedTexts
      else
        let textNode :=
          DraggableResizableText.with_position
            (DraggableResizableText.new (StoredTextData.id storedText))
            (StoredTextData.x storedText) (StoredTextData.y storedText) in
        let scaled :=
          if Js.truthy (StoredTextData.scale storedText)
          then DraggableResizableText.setScale (StoredTextData.scale storedText) textNode
          else Some textNode in
        match scaled with
        | None => loadTexts seenImage seenText rest heap loadedTexts
        | Some textNode =>
            let ref := length heap in
            let cell :=
              {| text_node := textNode; text_destroyed := false;
                 text_seen_selectedImage := seenImage;
                 text_seen_selectedText := seenText;
                 text_seen_text := StoredTextData.text storedText;
                 text_seen_color := StoredTextData.color storedText;
                 text_seen_fontFamily := StoredTextData.fontFamily storedText |} in
            let newText :=
              {| DraggableText.id := StoredTextData.id storedText;
                 DraggableText.node := ref;
                 DraggableText.x := DraggableResizableText.x textNode;
                 DraggableText.y := DraggableResizableText.y textNode;
                 DraggableText.text := StoredTextData.text storedText;
                 DraggableText.color := StoredTextData.color storedText;
                 DraggableText.fontFamily := StoredTextData.fontFamily storedText |} in
            loadTexts seenImage seenText rest (heap ++ [cell])
              (loadedTexts ++ [newText])
        end
  end.

Definition destroyImages (l : list DraggableImage.t) (heap : list ImageCell)
    : list ImageCell :=
  fold_left (fun h img => alter destroy_image (DraggableImage.node img) h) l heap.

Definition destroyTexts (l : list DraggableText.t) (heap : list TextCell)
    : list TextCell :=
  fold_left (fun h t => alter destroy_text (DraggableText.node t) h) l heap.

Definition restorePosition (canvasData : CanvasData.t) (s : State) : State :=
  match CanvasData.canvasPosition canvasData with
  | Some p => set_container p s
  | None => s
  end.

(** [loadCanvasData].  It is re-created on every render, so it sees the
    current [images], [texts], [selectedImage] and [selectedText].  Iterating
    over a missing [images] throws after the state has been cleared.
    [textures] lists what [PIXI.Texture.from] obtains, after polling for up
    to five seconds. *)
Definition loadCanvasData (textures : Assets) (canvasData : CanvasData.t)
    (s : State) : Completion :=
  let s1 :=
    setSelectedImage None
      (setImages [] (set_imageNodes (destroyImages (images s) (imageNodes s)) s)) in
  let s2 :=
    setSelectedText None
      (setTexts [] (set_textNodes (destroyTexts (texts s) (textNodes s1)) s1)) in
  let s3 := restorePosition canvasData s2 in
  match CanvasData.images canvasData with
  | None => Thrown s3
  | Some stored =>
      let '(heap, loadedImages) :=
        loadImages textures (selectedImage s) false stored (imageNodes s3) [] in
      let s4 := setImages loadedImages (set_imageNodes heap s3) in
      let '(theap, loadedTexts) :=
        loadTexts (selectedImage s) (selectedText s)
          (default [] (CanvasData.texts canvasData)) (textNodes s4) [] in
      Returned (setTexts loadedTexts (set_textNodes theap s4))
  end.

(** [importFromJSON] on a file that parses: the new state and whether the
    alert "Invalid JSON file" was shown. *)
Definition importFromJSON (textures : Assets) (jsonData : CanvasData.t)
    (s : State) : State * bool :=
  match loadCanvasData textures jsonData s with
  | Returned s' => (s', false)
  | Thrown s' => (s', true)
  end.

(** [loadFromAPI].  The callback is memoised on [containerRef] alone: the
    [images] it destroys and the [selectedImage] its listeners see are those
    of the first render, empty and null.  It reads nothing but
    [canvasData.images] and [canvasData.canvasPosition], and every exception
    ends in [console.error].  [assets] lists what [Assets.load] resolves. *)
Definition loadFromAPI (assets : Assets) (file : option CanvasData.t)
    (s : State) : State :=
  let canvasData := Route.GET file in
  match CanvasData.images canvasData with
  | None => s
  | Some stored =>
      let s1 :=
        setSelectedImage None
          (setImages [] (set_imageNodes (destroyImages [] (imageNodes s)) s)) in
      let s2 := restorePosition canvasData s1 in
      let '(heap, loadedImages) :=
        loadImages assets None true stored (imageNodes s2) [] in
      setImages loadedImages (set_imageNodes heap s2)
  end.

(** The live objects: what the user sees on the canvas after a load. *)
Record LiveImage := {
  live_image_id : string;
  live_image_url : string;
  live_image_x : Q;
  live_image_y : Q;
  live_image_scale : Q
}.

Record LiveText := {
  live_text_id : string;
  live_text_content : string;
  live_text_x : Q;
  live_text_y : Q;
  live_text_color : string;
  live_text_fontFamily : string
}.

Definition liveImage (nodes : list ImageCell) (img : DraggableImage.t)
    : option LiveImage :=
  match nodes !! DraggableImage.node img with
  | Some c =>
      Some {| live_image_id := DraggableImage.id img;
              live_image_url := DraggableImage.imageUrl img;
              live_image_x := DraggableResizable.x (image_node c);
              live_image_y := DraggableResizable.y (image_node c);
              live_image_scale := DraggableResizable.scale (image_node c) |}
  | None => None
  end.

Definition liveImages (s : State) : list LiveImage :=
  omap (liveImage (imageNodes s)) (images s).

Definition liveText (nodes : list TextCell) (t : DraggableText.t)
    : option LiveText :=
  match nodes !! DraggableText.node t with
  | Some c =>
      Some {| live_text_id := DraggableText.id t;
              live_text_content := DraggableText.text t;
              live_text_x := DraggableResizableText.x (text_node c);
              live_text_y := DraggableResizableText.y (text_node c);
              live_text_color := DraggableText.color t;
              live_text_fontFamily := DraggableText.fontFamily t |}
  | None => None
  end.

Definition liveTexts (s : State) : list LiveText :=
  omap (liveText (textNodes s)) (texts s).

(** ** Timers and the debounced save *)

(** A pending timer made by [debouncedAutoSave].  Its callback tests
    [images.length] and [texts.length]: these are the lengths of the render
    in which the running [debouncedAutoSave] was made (it is memoised on
    them), not those at the time the timer fires. *)
Record Timer := {
  timer_id : nat;
  fire_at : N;
  seen_images : nat;
  seen_texts : nat
}.

(** A call of [saveToAPIRef.current]: when, and the body of the request it
    made, if it made one. *)
Record SaveCall := { called_at : N; body : option CanvasData.t }.

(** The component in its environment: the clock in milliseconds, the
    pending timers of the window, [saveDebounceRef.current], the calls of
    [saveToAPI] so far and the file on the server. *)
Record World := {
  state : State;
  clock : N;
  next_timer : nat;
  timers : list Timer;
  saveDebounceRef : option nat;
  saveCalls : list SaveCall;
  file : option CanvasData.t
}.

(** Timer identifiers of a window start at 1. *)
Definition start (s : State) (f : option CanvasData.t) : World :=
  {| state := s; clock := 0%N; next_timer := 1; timers := [];
     saveDebounceRef := None; saveCalls := []; file := f |}.

Definition set_state (s : State) (w : World) : World :=
  {| state := s; clock := clock w; next_timer := next_timer w;
     timers := timers w; saveDebounceRef := saveDebounceRef w;
     saveCalls := saveCalls w; file := file w |}.

Definition update (f : State -> State) (w : World) : World :=
  set_state (f (state w)) w.

Definition clearTimeout (id : nat) (l : list Timer) : list Timer :=
  List.filter (fun t => negb (Nat.eqb (timer_id t) id)) l.

(** [debouncedAutoSave].  The functions that call it through
    [debouncedAutoSaveRef] get the one of the last committed render: it sees
    the lengths of [state w]. *)
Definition debouncedAutoSave (w : World) : World :=
  let pending :=
    match saveDebounceRef w with
    | Some (S id) => clearTimeout (S id) (timers w)
    | _ => timers w
    end in
  let t :=
    {| timer_id := next_timer w; fire_at := (clock w + 2000)%N;
       seen_images := length (images (state w));
       seen_texts := length (texts (state w)) |} in
  {| state := state w; clock := clock w; next_timer := S (next_timer w);
     timers := pending ++ [t]; saveDebounceRef := Some (next_timer w);
     saveCalls := saveCalls w; file := file w |}.

(** The callback of a timer, run at the time the timer is due. *)
Definition fire (t : Timer) (w : World) : World :=
  if (0 <? seen_images t)%nat || (0 <? seen_texts t)%nat
  then
    let request := saveToAPI (state w) in
    {| state := state w; clock := clock w; next_timer := next_timer w;
       timers := timers w; saveDebounceRef := saveDebounceRef w;
       saveCalls := saveCalls w ++ [{| called_at := fire_at t; body := request |}];
       file := match request with
               | Some d => fst (Route.POST d (file w))
               | None => file w
               end |}
  else w.

Definition due (now : N) (t : Timer) : bool := (fire_at t <=? now)%N.

(** [dt] milliseconds pass without any event: the timers that become due
    run, oldest first. *)
Definition wait (dt : N) (w : World) : World :=
  let now := (clock w + dt)%N in
  let ready := List.filter (due now) (timers w) in
  let w1 :=
    {| state := state w; clock := now; next_timer := next_timer w;
       timers := List.filter (fun t => negb (due now t)) (timers w);
       saveDebounceRef := saveDebounceRef w;
       saveCalls := saveCalls w; file := file w |} in
  fold_left (fun w t => fire t w) ready w1.

(** The effect on [images.length]: after a commit that changed the length,
    a save is scheduled unless the list is empty. *)
Definition afterCommit (previous : nat) (w : World) : World :=
  if negb (Nat.eqb (length (images (state w))) previous)
     && (0 <? length (images (state w)))%nat
  then debouncedAutoSave w
  else w.

(** ** Handlers that schedule a save

    A handler runs to its end before React commits the state it has set:
    a call of [debouncedAutoSaveRef.current] inside a handler comes before
    the update in the model, whatever their order in the handler. *)

(** The listeners of ['resized'] and ['moved'] of an image. *)
Definition resizedListener (id : string) (scale : Q) (w : World) : World :=
  let rescale (img : DraggableImage.t) :=
    if String.eqb (DraggableImage.id img) id
    then {| DraggableImage.id := DraggableImage.id img;
            DraggableImage.node := DraggableImage.node img;
            DraggableImage.x := DraggableImage.x img;
            DraggableImage.y := DraggableImage.y img;
            DraggableImage.scale := scale;
            DraggableImage.imageUrl := DraggableImage.imageUrl img |}
    else img in
  update (fun s => setSelectedImage (rescale <$> selectedImage s)
                     (setImages (rescale <$> images s) s))
    (debouncedAutoSave w).

Definition movedListener (id : string) (x y : Q) (w : World) : World :=
  let move (img : DraggableImage.t) :=
    if String.eqb (DraggableImage.id img) id
    then {| DraggableImage.id := DraggableImage.id img;
            DraggableImage.node := DraggableImage.node img;
            DraggableImage.x := x;
            DraggableImage.y := y;
            DraggableImage.scale := DraggableImage.scale img;
            DraggableImage.imageUrl := DraggableImage.imageUrl img |}
    else img in
  update (fun s => setSelectedImage (move <$> selectedImage s)
                     (setImages (move <$> images s) s))
    (debouncedAutoSave w).

Definition notify (c : ImageCell) (ev : Emitted) (w : World) : World :=
  if image_persists c then
    match ev with
    | Resized scale => resizedListener (DraggableResizable.id (image_node c)) scale w
    | Moved x y => movedListener (DraggableResizable.id (image_node c)) x y w
    | Scaled _ => w
    end
  else w.

(** The pointer is released at the end of a resize gesture on an image. *)
Definition imageResizeEnd (ref : nat) (e : FederatedPointerEvent) (w : World)
    : World :=
  match imageNodes (state w) !! ref with
  | None => w
  | Some c =>
      let '(n, evs) := DraggableResizable.onResizeEnd e (image_node c) in
      let w1 :=
        update (fun s => set_imageNodes
                           (alter (map_image_node (fun _ => n)) ref (imageNodes s)) s) w in
      fold_left (fun w ev => notify c ev w) evs w1
  end.

Record WheelEvent := { deltaY : Q; ctrlKey : bool }.

(** The scale [handleWheel] computes for the node of the selection:
    "exponential mapping", stronger with [ctrlKey], then "the same scale
    constraints as resize handle". *)
Definition wheelFactor (M : Js.Math) (e : WheelEvent) : Q :=
  let base := 1.0015 in
  if ctrlKey e then Js.pow M base (- deltaY e * 2)
  else Js.pow M base (- deltaY e).

Definition wheelScale (M : Js.Math) (e : WheelEvent) (n : DraggableResizable.t) : Q :=
  let current := DraggableResizable.getScale n in
  let k := DraggableResizable.getScaleConstraints n in
  Qmax (DraggableResizable.min k)
    (Qmin (DraggableResizable.max k) (current * wheelFactor M e)).

(** [handleWheel] reads [selectedImageRef] only. *)
Definition handleWheel (M : Js.Math) (e : WheelEvent) (w : World) : World :=
  match selectedImage (state w) with
  | None => w
  | Some selected =>
      match imageNodes (state w) !! DraggableImage.node selected with
      | None => w
      | Some c =>
          let clamped := wheelScale M e (image_node c) in
          let rescale (img : DraggableImage.t) :=
            if String.eqb (DraggableImage.id img) (DraggableImage.id selected)
            then {| DraggableImage.id := DraggableImage.id img;
                    DraggableImage.node := DraggableImage.node img;
                    DraggableImage.x := DraggableImage.x img;
                    DraggableImage.y := DraggableImage.y img;
                    DraggableImage.scale := clamped;
                    DraggableImage.imageUrl := DraggableImage.imageUrl img |}
            else img in
          update
            (fun s =>
               setSelectedImage (rescale <$> selectedImage s)
                 (setImages (rescale <$> images s)
                    (set_imageNodes
                       (alter (map_image_node (DraggableResizable.setScale clamped))
                          (DraggableImage.node selected) (imageNodes s)) s)))
            (debouncedAutoSave w)
      end
  end.

(** Pointer move on the main container. *)
Definition containerPointerMove (e : FederatedPointerEvent) (w : World) : World :=
  if isPanning (state w) then
    let s := state w in
    let pointer := global e in
    let deltaX := px pointer - px (lastPointerPosition s) in
    let deltaY := py pointer - py (lastPointerPosition s) in
    update
      (fun s => set_panning true pointer
                  (set_container {| px := px (container s) + deltaX;
                                    py := py (container s) + deltaY |} s))
      (debouncedAutoSave w)
  else w.

Definition createTextElement (editorState : EditorState.t) (text : string)
    (x y : Q) (now : string) (w : World) : World :=
  update (createTextElement_state editorState text x y now) (debouncedAutoSave w).

(** An image is dropped on the canvas and its texture resolves. *)
Definition dropImage (assets : Assets) (imageUrl : string) (canvas : Point)
    (now : string) (w : World) : World :=
  afterCommit (length (images (state w)))
    (update (handleDrop assets imageUrl canvas now) w).

Definition handleDeleteImage (imageId : string) (w : World) : World :=
  let remove (s : State) :=
    let heap :=
      match find (fun img => String.eqb (DraggableImage.id img) imageId) (images s) with
      | Some imageToDelete =>
          alter destroy_image (DraggableImage.node imageToDelete) (imageNodes s)
      | None => imageNodes s
      end in
    let s1 :=
      setImages
        (List.filter (fun img => negb (String.eqb (DraggableImage.id img) imageId))
           (images s))
        (set_imageNodes heap s) in
    match selectedImage s with
    | Some si =>
        if String.eqb (DraggableImage.id si) imageId
        then setSelectedImage None s1 else s1
    | None => s1
    end in
  afterCommit (length (images (state w))) (update remove (debouncedAutoSave w)).

Definition handleDeleteText (textId : string) (w : World) : World :=
  let remove (s : State) :=
    let heap :=
      match find (fun t => String.eqb (DraggableText.id t) textId) (texts s) with
      | Some textToDelete =>
          alter destroy_text (DraggableText.node textToDelete) (textNodes s)
      | None => textNodes s
      end in
    let s1 :=
      setTexts
        (List.filter (fun t => negb (String.eqb (DraggableText.id t) textId)) (texts s))
        (set_textNodes heap s) in
    match selectedText s with
    | Some st =>
        if String.eqb (DraggableText.id st) textId
        then setSelectedText None s1 else s1
    | None => s1
    end in
  update remove (debouncedAutoSave w).

(** Pointer events of a drag gesture reaching the sprite of an image. *)
Definition on_image (ref : nat)
    (f : DraggableResizable.t -> DraggableResizable.t) (s : State) : State :=
  set_imageNodes (alter (map_image_node f) ref (imageNodes s)) s.

Definition imageDragStart (ref : nat) (e : FederatedPointerEvent) (s : State)
    : State :=
  on_image ref (DraggableResizable.onDragStart e) s.

Definition imageDragMove (ref : nat) (e : FederatedPointerEvent) (s : State)
    : State :=
  on_image ref (DraggableResizable.onDragMove e) s.

(** ** Vocabulary of the statements *)

(** A node after a run of pointer moves. *)
Definition dragMoves (es : list FederatedPointerEvent)
    (n : DraggableResizable.t) : DraggableResizable.t :=
  fold_left (fun n e => DraggableResizable.onDragMove e n) es n.

Definition resizeMoves (M : Js.Math) (parent : option Point)
    (es : list FederatedPointerEvent) (n : DraggableResizable.t)
    : DraggableResizable.t :=
  fold_left (fun n e => DraggableResizable.onResizeMove M parent e n) es n.

(** The distance of the pointer from the centre of a node, in global
    coordinates. *)
Definition globalDistance (M : Js.Math) (c : Point) (n : DraggableResizable.t)
    (e : FederatedPointerEvent) : Q :=
  Js.hypot M (px (global e) - (DraggableResizable.x n + px c))
             (py (global e) - (DraggableResizable.y n + py c)).


(** Equal up to the tolerance of the round trip. *)
Definition close (a b : Q) : Prop := Qabs (a - b) <= (1 # 1000000).

Definition same_image (a b : LiveImage) : Prop :=
  live_image_id b = live_image_id a
  /\ close (live_image_x b) (live_image_x a)
  /\ close (live_image_y b) (live_image_y a)
  /\ close (live_image_scale b) (live_image_scale a).

(** What a load gives back for an image that was saved: everything as it
    was, the position rounded to whole pixels. *)
Definition restored (a b : LiveImage) : Prop :=
  live_image_id b = live_image_id a
  /\ live_image_url b = live_image_url a
  /\ live_image_scale b = live_image_scale a
  /\ live_image_x b = Js.round (live_image_x a)
  /\ live_image_y b = Js.round (live_image_y a).

(** The heap cells and the image records the loop of a loader adds, in
    closed form; [base] is the first free reference. *)
Fixpoint loadedCells (assets : Assets) (seen : option DraggableImage.t)
    (persists : bool) (stored : list StoredImageData.t) : list ImageCell :=
  match stored with
  | [] => []
  | st :: rest =>
      match loadable assets st with
      | None => loadedCells assets seen persists rest
      | Some texture =>
          {| image_node := restoreImageNode texture st; image_destroyed := false;
             image_seen_selectedImage := seen;
             image_seen_imageUrl := StoredImageData.imageUrl st;
             image_persists := persists |}
          :: loadedCells assets seen persists rest
      end
  end.

Fixpoint loadedRecords (assets : Assets) (base : nat)
    (stored : list StoredImageData.t) : list DraggableImage.t :=
  match stored with
  | [] => []
  | st :: rest =>
      match loadable assets st with
      | None => loadedRecords assets base rest
      | Some texture =>
          let node := restoreImageNode texture st in
          {| DraggableImage.id := StoredImageData.id st;
             DraggableImage.node := base;
             DraggableImage.x := DraggableResizable.x node;
             DraggableImage.y := DraggableResizable.y node;
             DraggableImage.scale := DraggableResizable.getScale node;
             DraggableImage.imageUrl := StoredImageData.imageUrl st |}
          :: loadedRecords assets (S base) rest
      end
  end.

Definition resolves (assets : Assets) (st : StoredImageData.t) : bool :=
  match loadable assets st with
  | Some _ => true
  | None => false
  end.

(** The live images a loader makes of a list of stored images. *)
Fixpoint restoredLive (assets : Assets) (stored : list StoredImageData.t)
    : list LiveImage :=
  match stored with
  | [] => []
  | st :: rest =>
      match loadable assets st with
      | None => restoredLive assets rest
      | Some _ =>
          {| live_image_id := StoredImageData.id st;
             live_image_url := StoredImageData.imageUrl st;
             live_image_x := Js.round (StoredImageData.x st);
             live_image_y := Js.round (StoredImageData.y st);
             live_image_scale := StoredImageData.scale st |}
          :: restoredLive assets rest
      end
  end.

(** An image of the canvas with a valid resource: it has a URL that
    resolves, its node exists and its scale is positive. *)
Definition valid_image (assets : Assets) (nodes : list ImageCell)
    (img : DraggableImage.t) : Prop :=
  Js.nonempty (DraggableImage.imageUrl img) = true
  /\ (exists texture, resolve assets (DraggableImage.imageUrl img) = Some texture)
  /\ (exists c, nodes !! DraggableImage.node img = Some c
                /\ 0 < DraggableResizable.scale (image_node c)).

(** A quiet period: the state changes and time passes, but nothing
    schedules a save. *)
Inductive QuietStep :=
| Change (f : State -> State)
| Wait (dt : N).

Definition quietStep (w : World) (q : QuietStep) : World :=
  match q with
  | Change f => update f w
  | Wait dt => wait dt w
  end.

Definition quiet (l : list QuietStep) (w : World) : World :=
  fold_left quietStep l w.

Definition elapsed (l : list QuietStep) : N :=
  fold_right (fun q t => match q with Wait dt => (dt + t)%N | Change _ => t end)
    0%N l.

Definition changes (l : list QuietStep) (s : State) : State :=
  fold_left (fun s q => match q with Change f => f s | Wait _ => s end) l s.

(** A burst of triggers: each calls [debouncedAutoSave] and is followed by
    a quiet period. *)
Definition burst (periods : list (list QuietStep)) (w : World) : World :=
  fold_left (fun w p => quiet p (debouncedAutoSave w)) periods w.

Definition nonempty_canvas (s : State) : Prop :=
  images s <> [] \/ texts s <> [].

(** Exactly one timer is pending, it is the one [saveDebounceRef] holds,
    it is due at [T] and its callback sees the lengths [ci] and [ct]. *)
Definition armed (w : World) (T : N) (ci ct : nat) : Prop :=
  exists id,
    timers w = [{| timer_id := S id; fire_at := T;
                   seen_images := ci; seen_texts := ct |}]
    /\ saveDebounceRef w = Some (S id)
    /\ (0 < next_timer w)%nat.

(** No timer is pending, or the one of [saveDebounceRef] is. *)
Definition settled (w : World) : Prop :=
  (0 < next_timer w)%nat
  /\ (timers w = [] \/ exists T ci ct, armed w T ci ct).

(** ** Worked scenarios *)

Module Scenario.

Local Open Scope string_scope.

Definition photo : Texture := {| width := 800; height := 400 |}.
Definition icon : Texture := {| width := 10; height := 10 |}.
Definition square : Texture := {| width := 100; height := 100 |}.

Definition assets : Assets :=
  [("photo.png", photo); ("icon.png", icon); ("square.png", square)].

Definition editor : EditorState.t :=
  {| EditorState.fontFamily := "Arial"; EditorState.color := "#000000" |}.

Definition at_ (x y : Q) : Point := {| px := x; py := y |}.

Definition pointer (id : Z) (x y : Q) : FederatedPointerEvent :=
  {| pointerId := id; global := at_ x y |}.

(** A text is typed, its font loads, and a photo is dropped: text node 0
    and image node 0. *)
Definition textAndImage : State :=
  handleDrop assets "photo.png" (at_ 100 100) "2"
    (textFontLoaded 0 (createTextElement_state editor "Hi" 10 20 "1" initial)).

(** One photo on the canvas, dropped at (100, 100). *)
Definition onePhoto : State :=
  handleDrop assets "photo.png" (at_ 100 100) "1" initial.

(** The photo is dragged half a pixel to the right. *)
Definition draggedPhoto : State :=
  imageDragMove 0 (pointer 1 (301 # 2) 160)
    (imageDragStart 0 (pointer 1 150 160) onePhoto).

(** The photo is selected. *)
Definition selectedPhoto : State := imageClicked 0 onePhoto.

(** Only the text is selected. *)
Definition selectedTextOnly : State := textClicked 0 textAndImage.

Definition storedPhoto (id : string) (url : string) : StoredImageData.t :=
  {| StoredImageData.id := id; StoredImageData.imageUrl := url;
     StoredImageData.x := 10; StoredImageData.y := 20;
     StoredImageData.scale := 1 |}.

(** Three image entries, the second with a reference that does not
    resolve. *)
Definition threeImages : CanvasData.t :=
  {| CanvasData.images :=
       Some [storedPhoto "a" "photo.png"; storedPhoto "b" "missing.png";
             storedPhoto "c" "square.png"];
     CanvasData.texts := Some [];
     CanvasData.canvasPosition := Some (at_ 5 7) |}.

(** A document with one text entry whose scale is zero. *)
Definition oneText : CanvasData.t :=
  {| CanvasData.images := Some [];
     CanvasData.texts :=
       Some [{| StoredTextData.id := "t1"; StoredTextData.text := "Hi";
                StoredTextData.x := 10; StoredTextData.y := 20;
                StoredTextData.color := "#000000";
                StoredTextData.fontFamily := "Arial";
                StoredTextData.scale := 0 |}];
     CanvasData.canvasPosition := Some (at_ 0 0) |}.

(** A document with one image entry, as [saveToAPI] writes it. *)
Definition oneImage : CanvasData.t :=
  {| CanvasData.images := Some [storedPhoto "a" "photo.png"];
     CanvasData.texts := Some [];
     CanvasData.canvasPosition := Some (at_ 0 0) |}.

(** The background of an empty canvas is grabbed and the pointer moves. *)
Definition panEmptyCanvas : World :=
  containerPointerMove (pointer 1 30 40)
    (update (backgroundPointerDown (pointer 1 10 10)) (start initial None)).

(** A photo is dropped, two seconds pass, the photo is selected and
    deleted, two more seconds pass. *)
Definition photoSaved : World :=
  wait 2000 (dropImage assets "photo.png" (at_ 100 100) "1" (start initial None)).

Definition photoDeleted : World :=
  wait 2000 (handleDeleteImage "1" (update (imageClicked 0) photoSaved)).

Definition wheelUp : WheelEvent := {| deltaY := -100; ctrlKey := false |}.

(** A pan of the canvas by one pixel, as a change of the state. *)
Definition nudge (s : State) : State :=
  set_container {| px := px (container s) + 1; py := py (container s) |} s.

End Scenario.

(** Nodes in the middle of a gesture, for the worked examples. *)
Module Gesture.

Local Open Scope string_scope.

(** A 100 x 100 image at scale 1, at the origin of an unpanned canvas. *)
Definition squareNode : DraggableResizable.t :=
  DraggableResizable.new Scenario.square "1".

(** The same image placed at world (100, 100). *)
Definition squareAt100 : DraggableResizable.t :=
  DraggableResizable.with_position squareNode 100 100.

Definition origin : Point := Scenario.at_ 0 0.



(** A text at world (100, 100) whose sprite has scale 2. *)
Definition bigTextAt100 : DraggableResizableText.t :=
  DraggableResizableText.with_text
    (DraggableResizableText.with_position
       (DraggableResizableText.fontLoaded (DraggableResizableText.new "t"))
       100 100)
    (Some 2).

End Gesture.

(** ** JavaScript strings *)

Module JsString.

(** Strings are sequences of code units, here below 256.  Of these,
    [String.prototype.trim] removes the white space and line terminators
    TAB, LF, VT, FF, CR, SP and NBSP. *)
Definition isWhiteSpace (c : ascii) : bool :=
  let n := nat_of_ascii c in
  Nat.eqb n 9 || Nat.eqb n 10 || Nat.eqb n 11 || Nat.eqb n 12
  || Nat.eqb n 13 || Nat.eqb n 32 || Nat.eqb n 160.

Fixpoint trimStart (s : string) : string :=
  match s with
  | EmptyString => EmptyString
  | String c rest => if isWhiteSpace c then trimStart rest else s
  end.

Fixpoint trimEnd (s : string) : string :=
  match s with
  | EmptyString => EmptyString
  | String c rest =>
      match trimEnd rest with
      | EmptyString => if isWhiteSpace c then EmptyString else String c EmptyString
      | r => String c r
      end
  end.

Definition trim (s : string) : string := trimEnd (trimStart s).

(** [s.slice(0, -1)]. *)
Fixpoint dropLast (s : string) : string :=
  match s with
  | EmptyString => EmptyString
  | String c rest =>
      match rest with
      | EmptyString => EmptyString
      | String _ _ => String c (dropLast rest)
      end
  end.

(** [String.prototype.toLowerCase] on a code unit below 256: the letters A
    to Z and the capital letters of Latin-1 (all of 192 to 222 but the
    multiplication sign, 215) move up by 32. *)
Definition toLowerCase_unit (c : ascii) : ascii :=
  let n := nat_of_ascii c in
  if (Nat.leb 65 n && Nat.leb n 90)
     || (Nat.leb 192 n && Nat.leb n 222 && negb (Nat.eqb n 215))
  then ascii_of_nat (n + 32)
  else c.

Fixpoint toLowerCase (s : string) : string :=
  match s with
  | EmptyString => EmptyString
  | String c rest => String (toLowerCase_unit c) (toLowerCase rest)
  end.

Fixpoint startsWith (searchString s : string) : bool :=
  match searchString, s with
  | EmptyString, _ => true
  | String a rest, String b rest' => Ascii.eqb a b && startsWith rest rest'
  | String _ _, EmptyString => false
  end.

(** [s.includes(searchString)]. *)
Fixpoint includes (searchString s : string) : bool :=
  startsWith searchString s
  || match s with
     | EmptyString => false
     | String _ rest => includes searchString rest
     end.

End JsString.

(** ** The selection frame of an image node *)

(** A rectangle as Pixi takes it: top-left corner, width and height. *)
Record Rectangle := {
  rect_x : Q;
  rect_y : Q;
  rect_width : Q;
  rect_height : Q
}.

(** [inner] lies within [outer]. *)
Definition inside (inner outer : Rectangle) : Prop :=
  rect_x outer <= rect_x inner
  /\ rect_y outer <= rect_y inner
  /\ rect_x inner + rect_width inner <= rect_x outer + rect_width outer
  /\ rect_y inner + rect_height inner <= rect_y outer + rect_height outer.

(** The sizes that [_redrawFrame] draws are products of the size of the
    texture and the scale.  The code rounds such a product to a double, and
    so it does the quotients in [getScaleConstraints] and in the constructor;
    the model keeps them exact.  One rounding moves a value by less than one
    part in 2^53, so that a 77 pixel side at the scale 20 / 77 is drawn at
    19.999999999999996 pixels.  A statement that bounds a drawn size takes
    the scale up to [scaleSlack] and gives the size up to [sizeSlack], both
    relative and both far above the rounding. *)
Definition scaleSlack : Q := 1 # 1000000000.
Definition sizeSlack : Q := 1 # 1000000.

Module ImageFrame.

(** What [DraggableResizable._redrawFrame] draws, in the frame of the node:
    the selection frame, the square of the handle and the hit area of the
    handle.  The sprite is only ever scaled uniformly, so [scale.y] is
    [scale.x].  The two products are exact here. *)
Record t := {
  frame : Rectangle;
  handle : Rectangle;
  hitArea : Rectangle
}.

Definition _redrawFrame (n : DraggableResizable.t) : t :=
  let w := width (DraggableResizable.texture n) * DraggableResizable.scale n in
  let h := height (DraggableResizable.texture n) * DraggableResizable.scale n in
  let hs := 16 in
  {| frame := {| rect_x := - w / 2; rect_y := - h / 2;
                 rect_width := w; rect_height := h |};
     handle := {| rect_x := w / 2 - hs; rect_y := h / 2 - hs;
                  rect_width := hs; rect_height := hs |};
     hitArea := {| rect_x := w / 2 - 24; rect_y := h / 2 - 24;
                   rect_width := 48; rect_height := 48 |} |}.

End ImageFrame.

(** ** Gestures seen from the component *)

(** The pointer is released at the end of a drag gesture on an image. *)
Definition imageDragEnd (ref : nat) (e : FederatedPointerEvent) (w : World)
    : World :=
  match imageNodes (state w) !! ref with
  | None => w
  | Some c =>
      let '(n, evs) := DraggableResizable.onDragEnd e (image_node c) in
      let w1 :=
        update (fun s => set_imageNodes
                           (alter (map_image_node (fun _ => n)) ref (imageNodes s)) s) w in
      fold_left (fun w ev => notify c ev w) evs w1
  end.


(** ** The generation panel hands back an image *)

Definition with_texture (n : DraggableResizable.t) (tex : Texture)
    : DraggableResizable.t :=
  {| DraggableResizable.id := DraggableResizable.id n;
     DraggableResizable.x := DraggableResizable.x n;
     DraggableResizable.y := DraggableResizable.y n;
     DraggableResizable.texture := tex;
     DraggableResizable.scale := DraggableResizable.scale n;
     DraggableResizable.frame_visible := DraggableResizable.frame_visible n;
     DraggableResizable.handle_visible := DraggableResizable.handle_visible n;
     DraggableResizable.dragging := DraggableResizable.dragging n;
     DraggableResizable.dragPointerId := DraggableResizable.dragPointerId n;
     DraggableResizable.dragOffset := DraggableResizable.dragOffset n;
     DraggableResizable.resizing := DraggableResizable.resizing n;
     DraggableResizable.resizePointerId := DraggableResizable.resizePointerId n;
     DraggableResizable.startProj := DraggableResizable.startProj n;
     DraggableResizable.startScale := DraggableResizable.startScale n |}.

Definition with_imageUrl (img : DraggableImage.t) (url : string)
    : DraggableImage.t :=
  {| DraggableImage.id := DraggableImage.id img;
     DraggableImage.node := DraggableImage.node img;
     DraggableImage.x := DraggableImage.x img;
     DraggableImage.y := DraggableImage.y img;
     DraggableImage.scale := DraggableImage.scale img;
     DraggableImage.imageUrl := url |}.

(** [handleGeminiImageUpdated].  It is made anew on every render, so it sees
    the current [images] and [selectedImage] and calls the current
    [debouncedAutoSave].  [texture] is what [PIXI.Texture.from(newImageUrl)]
    gave the sprite, [None] when it threw.  The click listener of the node
    is not touched: it keeps the URL it closed over. *)
Definition handleGeminiImageUpdated (texture : option Texture)
    (imageId newImageUrl : string) (w : World) : World :=
  let retarget (img : DraggableImage.t) :=
    if String.eqb (DraggableImage.id img) imageId
    then with_imageUrl img newImageUrl else img in
  let change (s : State) :=
    let heap :=
      match find (fun img => String.eqb (DraggableImage.id img) imageId) (images s),
            texture with
      | Some imageToUpdate, Some tex =>
          alter (map_image_node (fun n => with_texture n tex))
            (DraggableImage.node imageToUpdate) (imageNodes s)
      | _, _ => imageNodes s
      end in
    let s1 := setImages (retarget <$> images s) (set_imageNodes heap s) in
    match selectedImage s with
    | Some si =>
        if String.eqb (DraggableImage.id si) imageId
        then setSelectedImage (Some (with_imageUrl si newImageUrl)) s1
        else s1
    | None => s1
    end in
  update change (debouncedAutoSave w).

(** [cleanupInvalidImages]: the records without a usable URL are dropped
    from [images]; their nodes are left alone. *)
Definition cleanupInvalidImages (s : State) : State :=
  let validImages :=
    List.filter
      (fun img => Js.nonempty (DraggableImage.imageUrl img)
                  && negb (String.eqb (JsString.trim (DraggableImage.imageUrl img))
                             EmptyString))
      (images s) in
  if negb (Nat.eqb (length validImages) (length (images s)))
  then setImages validImages s
  else s.

(** ** Typing mode and the keyboard *)

Module KeyboardEvent.
Record t := { key : string; ctrlKey : bool; metaKey : bool }.
End KeyboardEvent.

Module Window.
Record t := { innerWidth : Q; innerHeight : Q }.
End Window.

(** The component with the rest of its React state: the typing mode and
    whether the generation panel is shown. *)
Record Ui := {
  world : World;
  isTyping : bool;
  typingPosition : Point;
  currentText : string;
  showGeminiPrompt : bool
}.

Definition startUi (w : World) : Ui :=
  {| world := w; isTyping := false; typingPosition := {| px := 0; py := 0 |};
     currentText := EmptyString; showGeminiPrompt := false |}.

Definition set_world (w : World) (ui : Ui) : Ui :=
  {| world := w; isTyping := isTyping ui; typingPosition := typingPosition ui;
     currentText := currentText ui; showGeminiPrompt := showGeminiPrompt ui |}.

Definition setIsTyping (b : bool) (ui : Ui) : Ui :=
  {| world := world ui; isTyping := b; typingPosition := typingPosition ui;
     currentText := currentText ui; showGeminiPrompt := showGeminiPrompt ui |}.

Definition setTypingPosition (p : Point) (ui : Ui) : Ui :=
  {| world := world ui; isTyping := isTyping ui; typingPosition := p;
     currentText := currentText ui; showGeminiPrompt := showGeminiPrompt ui |}.

Definition setCurrentText (t : string) (ui : Ui) : Ui :=
  {| world := world ui; isTyping := isTyping ui;
     typingPosition := typingPosition ui;
     currentText := t; showGeminiPrompt := showGeminiPrompt ui |}.

Definition setShowGeminiPrompt (b : bool) (ui : Ui) : Ui :=
  {| world := world ui; isTyping := isTyping ui;
     typingPosition := typingPosition ui;
     currentText := currentText ui; showGeminiPrompt := b |}.

(** [handleKeyDown].  The effect that installs it depends on
    [showGeminiPrompt], [selectedImage], [selectedText], [isTyping] and
    [currentText]: the listener sees the current values of these, read here
    from [ui], the state before the event.  [typingPosition] is not among
    the dependencies; [seen] is the one the listener closed over.  The
    handlers behind the refs are those of the last render.  State set by
    value overrides, state set by a function of the previous value
    ([setCurrentText(prev => ...)]) follows on what has been set before. *)
Definition handleKeyDown (editorState : EditorState.t) (window : Window.t)
    (now : string) (seen : Point) (event : KeyboardEvent.t) (ui : Ui) : Ui :=
  let key := KeyboardEvent.key event in
  if String.eqb key "Escape" && showGeminiPrompt ui
  then setShowGeminiPrompt false ui
  else
    let ui1 :=
      if (String.eqb key "Delete" || String.eqb key "Backspace")
         && negb (showGeminiPrompt ui)
      then
        match selectedImage (state (world ui)) with
        | Some si => set_world (handleDeleteImage (DraggableImage.id si) (world ui)) ui
        | None =>
            match selectedText (state (world ui)) with
            | Some st =>
                set_world (handleDeleteText (DraggableText.id st) (world ui)) ui
            | None => ui
            end
        end
      else ui in
    let ui2 :=
      if (String.eqb key "t" || String.eqb key "T")
         && (negb (showGeminiPrompt ui) && negb (isTyping ui))
      then
        let c := container (state (world ui)) in
        let centerX := - px c + Window.innerWidth window / 2 in
        let centerY := - py c + Window.innerHeight window / 2 in
        setIsTyping true
          (setCurrentText EmptyString
             (setTypingPosition {| px := centerX; py := centerY |} ui1))
      else ui1 in
    if isTyping ui then
      if String.eqb key "Enter" then
        let ui3 :=
          if Js.nonempty (JsString.trim (currentText ui))
          then set_world
                 (createTextElement editorState (JsString.trim (currentText ui))
                    (px seen) (py seen) now (world ui2)) ui2
          else ui2 in
        setCurrentText EmptyString (setIsTyping false ui3)
      else if String.eqb key "Escape" then
        setCurrentText EmptyString (setIsTyping false ui2)
      else if String.eqb key "Backspace" then
        setCurrentText (JsString.dropLast (currentText ui2)) ui2
      else if Nat.eqb (String.length key) 1
              && (negb (KeyboardEvent.ctrlKey event)
                  && negb (KeyboardEvent.metaKey event))
      then setCurrentText (currentText ui2 ++ key) ui2
      else ui2
    else ui2.

(** A key goes down while the listener is the one of the last render.  It
    is whenever the text being typed is not empty: [typingPosition] changes
    together with [isTyping], or while [currentText] is set to the empty
    string, and any change of [currentText] renews the listener. *)
Definition keyDown (editorState : EditorState.t) (window : Window.t)
    (now : string) (event : KeyboardEvent.t) (ui : Ui) : Ui :=
  handleKeyDown editorState window now (typingPosition ui) event ui.

Definition keysDown (editorState : EditorState.t) (window : Window.t)
    (now : string) (events : list KeyboardEvent.t) (ui : Ui) : Ui :=
  fold_left (fun ui e => keyDown editorState window now e ui) events ui.



(** [handleImageDoubleClick]. *)
Definition handleImageDoubleClick (imageId : string) (ui : Ui) : Ui :=
  let foundImage :=
    find (fun img => String.eqb (DraggableImage.id img) imageId)
      (images (state (world ui))) in
  setShowGeminiPrompt true
    (set_world (update (setSelectedImage foundImage) (world ui)) ui).

(** ** Vocabulary of the further statements *)

(** An image record points at a node that is on the canvas: it exists and
    has not been destroyed. *)
Definition image_alive (heap : list ImageCell) (img : DraggableImage.t) : Prop :=
  exists c, heap !! DraggableImage.node img = Some c
            /\ image_destroyed c = false.

(** Every image record has a live node, and no two records share one. *)
Definition images_in_sync (s : State) : Prop :=
  Forall (image_alive (imageNodes s)) (images s)
  /\ NoDup (map DraggableImage.node (images s)).

(** A key that types a character. *)
Definition printable (e : KeyboardEvent.t) : Prop :=
  String.length (KeyboardEvent.key e) = 1%nat
  /\ KeyboardEvent.ctrlKey e = false
  /\ KeyboardEvent.metaKey e = false.

Definition typed (events : list KeyboardEvent.t) : string :=
  fold_right (fun e acc => (KeyboardEvent.key e ++ acc)%string) EmptyString events.

Definition pressed (k : string) : KeyboardEvent.t :=
  {| KeyboardEvent.key := k; KeyboardEvent.ctrlKey := false;
     KeyboardEvent.metaKey := false |}.

(** The text entries a document load keeps: those with content and without
    a scale. *)
Definition text_restorable (st : StoredTextData.t) : bool :=
  Js.nonempty (StoredTextData.text st) && negb (Js.truthy (StoredTextData.scale st)).

(** Every text record points into the heap of text nodes. *)
Definition texts_in_range (s : State) : Prop :=
  Forall (fun t => (DraggableText.node t < length (textNodes s))%nat) (texts s).

(** The heap cells and the text records the loop over the stored texts
    adds, in closed form; [base] is the first free reference. *)
Fixpoint loadedTextCells (seenImage : option DraggableImage.t)
    (seenText : option DraggableText.t) (stored : list StoredTextData.t)
    : list TextCell :=
  match stored with
  | [] => []
  | st :: rest =>
      if text_restorable st
      then
        {| text_node :=
             DraggableResizableText.with_position
               (DraggableResizableText.new (StoredTextData.id st))
               (StoredTextData.x st) (StoredTextData.y st);
           text_destroyed := false;
           text_seen_selectedImage := seenImage;
           text_seen_selectedText := seenText;
           text_seen_text := StoredTextData.text st;
           text_seen_color := StoredTextData.color st;
           text_seen_fontFamily := StoredTextData.fontFamily st |}
        :: loadedTextCells seenImage seenText rest
      else loadedTextCells seenImage seenText rest
  end.

Fixpoint loadedTextRecords (base : nat) (stored : list StoredTextData.t)
    : list DraggableText.t :=
  match stored with
  | [] => []
  | st :: rest =>
      if text_restorable st
      then
        {| DraggableText.id := StoredTextData.id st;
           DraggableText.node := base;
           DraggableText.x := StoredTextData.x st;
           DraggableText.y := StoredTextData.y st;
           DraggableText.text := StoredTextData.text st;
           DraggableText.color := StoredTextData.color st;
           DraggableText.fontFamily := StoredTextData.fontFamily st |}
        :: loadedTextRecords (S base) rest
      else loadedTextRecords base rest
  end.

(** The live text a load makes of a stored text it keeps. *)
Definition restoredText (st : StoredTextData.t) : LiveText :=
  {| live_text_id := StoredTextData.id st;
     live_text_content := StoredTextData.text st;
     live_text_x := StoredTextData.x st;
     live_text_y := StoredTextData.y st;
     live_text_color := StoredTextData.color st;
     live_text_fontFamily := StoredTextData.fontFamily st |}.

(** ** The generation panel, [components/GeminiImagePrompt.tsx] *)

Module GeminiImagePrompt.

Inductive Intent := create | update.

Definition createKeywords : list string :=
  ["create"; "generate"; "make"; "new"; "version of this"; "copies"; "copy";
   "variations"; "variation"; "different"; "another"; "more"; "additional"]%string.

Definition analyzePromptIntent (text : string) : Intent :=
  let lowerText := JsString.toLowerCase text in
  if existsb (fun keyword => JsString.includes keyword lowerText) createKeywords
  then create else update.

(** The answer of the route [/api/gemini]: a response that is ok, with the
    [success] and [imageUrl] of its body, or one that is not, with the
    [error] of its body (empty when it has none). *)
Inductive Reply :=
| Ok (success : bool) (imageUrl : string)
| NotOk (error : string).

(** What [handleSubmit] does with the canvas and the panel.  [Refused]: no
    request is made.  [Failed]: the error is shown and the panel stays.
    [Generated] and [Updated]: [onImageGenerated] or [onImageUpdated] is
    called, then [onClose].  [Closed]: [onClose] alone. *)
Inductive Outcome :=
| Refused (error : string)
| Failed (error : string)
| Generated (imageUrl : string) (x y : Q)
| Updated (imageId newImageUrl : string)
| Closed.

(** [handleSubmit]; [random1] and [random2] are the two values of
    [Math.random()]. *)
Definition handleSubmit (prompt : string) (selectedImageId : option string)
    (reply : Reply) (random1 random2 : Q) : Outcome :=
  if negb (Js.nonempty (JsString.trim prompt))
  then Refused "Please enter a prompt"
  else
    let intent := analyzePromptIntent prompt in
    match reply with
    | NotOk error => Failed (Js.str_or error "Failed to generate image")
    | Ok success imageUrl =>
        if success && Js.nonempty imageUrl then
          match intent with
          | create =>
              let x := random1 * 400 + 100 in
              let y := random2 * 400 + 100 in
              Generated imageUrl x y
          | update =>
              match selectedImageId with
              | Some imageId =>
                  if Js.nonempty imageId then Updated imageId imageUrl else Closed
              | None => Closed
              end
          end
        else Failed "No image generated"
    end.

End GeminiImagePrompt.

(** ** Further worked scenarios *)

Module Tour.

Local Open Scope string_scope.



(** A texture of 77 by 77 pixels, and an image of it at the lower bound of
    its scale as the code computes it: the double nearest to 20 / 77, which
    is 0.2597402597402597 and lies below 20 / 77. *)
Definition smallSquare : Texture := {| width := 77; height := 77 |}.

Definition atLowerBound : DraggableResizable.t :=
  DraggableResizable.setScale (2339532273958699 # 9007199254740992)
    (DraggableResizable.new smallSquare "1").

(** A document without an image list. *)
Definition noImages : CanvasData.t :=
  {| CanvasData.images := None; CanvasData.texts := None;
     CanvasData.canvasPosition := Some (Scenario.at_ 3 4) |}.

Definition window : Window.t :=
  {| Window.innerWidth := 800; Window.innerHeight := 600 |}.

(** The photo of [Scenario.onePhoto] in the middle of a drag. *)
Definition draggingPhoto : World :=
  start (imageDragStart 0 (Scenario.pointer 1 150 160) Scenario.onePhoto) None.

(** Typing mode at (10, 20) with [t] typed so far. *)
Definition typing (w : World) (t : string) : Ui :=
  {| world := w; isTyping := true; typingPosition := Scenario.at_ 10 20;
     currentText := t; showGeminiPrompt := false |}.


(** A canvas whose only object is a text, its font loaded. *)
Definition oneTextOnly : World :=
  start (textFontLoaded 0
           (createTextElement_state Scenario.editor "Hi" 10 20 "1" initial))
    None.

End Tour.

(** * Properties *)

(** ** Arithmetic of the model *)

Lemma same_pointer_refl p : same_pointer p (Some p) = true.
Proof. simpl. apply Z.eqb_refl. Qed.



Lemma clamp_inside (lo hi v : Q) :
  lo <= v -> v <= hi -> Qmin hi (Qmax lo v) == v.
Proof.
  intros H1 H2. rewrite (Q.max_r lo v H1). apply Q.min_r. exact H2.
Qed.

Lemma clamp_at_floor (lo hi v : Q) :
  v <= lo -> lo <= hi -> Qmin hi (Qmax lo v) == lo.
Proof.
  intros H1 H2. rewrite (Q.max_l lo v H1). apply Q.min_r. exact H2.
Qed.

Lemma clamp_at_ceiling (lo hi v : Q) :
  hi <= v -> Qmin hi (Qmax lo v) == hi.
Proof.
  intros H. apply Q.min_l.
  apply Qle_trans with v; [exact H | apply Q.le_max_r].
Qed.

Lemma round_or_else v : Js.round (Js.or_else v 0) = Js.round v.
Proof.
  unfold Js.or_else, Js.truthy. destruct (Qeq_bool v 0) eqn:Hz; [|reflexivity].
  apply Qeq_bool_iff in Hz. unfold Js.round. simpl negb. cbv iota.
  f_equal. apply Qfloor_comp. rewrite Hz. reflexivity.
Qed.

Lemma or_else_positive v d : 0 < v -> Js.or_else v d = v.
Proof.
  intros Hpos. unfold Js.or_else, Js.truthy.
  destruct (Qeq_bool v 0) eqn:Hz; [|reflexivity].
  apply Qeq_bool_iff in Hz. lra.
Qed.

(** Rounding moves a coordinate by half a pixel at most. *)
Lemma round_near v : Qabs (Js.round v - v) <= (1 # 2).
Proof.
  unfold Js.round.
  pose proof (Qfloor_le (v + (1 # 2))) as Hlo.
  pose proof (Qlt_floor (v + (1 # 2))) as Hhi.
  rewrite inject_Z_plus in Hhi. change (inject_Z 1) with 1 in Hhi.
  apply Qabs_Qle_condition. split; lra.
Qed.

(** Rounding leaves a whole coordinate where it is. *)
Lemma round_integer z : Js.round (inject_Z z) = inject_Z z.
Proof.
  unfold Js.round. f_equal.
  pose proof (Qfloor_le (inject_Z z + (1 # 2))) as Hlo.
  pose proof (Qlt_floor (inject_Z z + (1 # 2))) as Hhi.
  set (k := Qfloor (inject_Z z + (1 # 2))) in *.
  rewrite inject_Z_plus in Hhi. change (inject_Z 1) with 1 in Hhi.
  assert (H1 : inject_Z k < inject_Z (z + 1)).
  { rewrite inject_Z_plus. change (inject_Z 1) with 1. lra. }
  assert (H2 : inject_Z z < inject_Z (k + 1)).
  { rewrite inject_Z_plus. change (inject_Z 1) with 1. lra. }
  rewrite <- Zlt_Qlt in H1, H2. lia.
Qed.

(** ** Gestures on an image node *)

Section ImageNode.
Import DraggableResizable.

Lemma onDragMove_keeps_grab e n :
  dragging (onDragMove e n) = dragging n
  /\ dragPointerId (onDragMove e n) = dragPointerId n
  /\ dragOffset (onDragMove e n) = dragOffset n.
Proof. unfold onDragMove. destruct (_ || _); auto. Qed.

Lemma dragMoves_keeps_grab es : forall n,
  dragging (dragMoves es n) = dragging n
  /\ dragPointerId (dragMoves es n) = dragPointerId n
  /\ dragOffset (dragMoves es n) = dragOffset n.
Proof.
  induction es as [|e es IH]; intros n; simpl; [auto|].
  destruct (IH (onDragMove e n)) as (H1 & H2 & H3).
  destruct (onDragMove_keeps_grab e n) as (K1 & K2 & K3).
  unfold dragMoves in *. simpl. rewrite H1, H2, H3. auto.
Qed.

(** C8.  During a drag of an image, the offset between the pointer and the
    position of the object is captured once, at grab time, and no later
    pointer move changes it; every later move of the grabbing pointer puts
    the object at the pointer minus that offset, which is the world position
    of the pointer minus the offset taken in world coordinates, wherever the
    canvas is panned to ([c]). *)
Theorem drag_follows_pointer (c : Point) (n0 : t)
    (e0 e : FederatedPointerEvent) (moves : list FederatedPointerEvent) :
  pointerId e = pointerId e0 ->
  let n1 := onDragStart e0 n0 in
  let n2 := onDragMove e (dragMoves moves n1) in
  dragOffset n1 = {| px := px (global e0) - x n0; py := py (global e0) - y n0 |}
  /\ dragOffset (dragMoves moves n1) = dragOffset n1
  /\ x n2 = px (global e) - (px (global e0) - x n0)
  /\ y n2 = py (global e) - (py (global e0) - y n0)
  /\ x n2 == px (toLocal c (global e)) - (px (toLocal c (global e0)) - x n0)
  /\ y n2 == py (toLocal c (global e)) - (py (toLocal c (global e0)) - y n0).
Proof.
  intros Hid n1 n2.
  destruct (dragMoves_keeps_grab moves n1) as (Hd & Hp & Ho).
  assert (Hx : x n2 = px (global e) - (px (global e0) - x n0)
               /\ y n2 = py (global e) - (py (global e0) - y n0)).
  { subst n2. unfold onDragMove. rewrite Hd, Hp, Ho. subst n1. simpl.
    rewrite Hid, Z.eqb_refl. simpl. auto. }
  destruct Hx as [Hx Hy].
  repeat split; try assumption.
  - rewrite Hx. simpl. ring.
  - rewrite Hy. simpl. ring.
Qed.

Lemma onResizeMove_keeps_gesture M parent e n :
  let n' := onResizeMove M parent e n in
  x n' = x n /\ y n' = y n /\ texture n' = texture n
  /\ resizing n' = resizing n /\ resizePointerId n' = resizePointerId n
  /\ startProj n' = startProj n /\ startScale n' = startScale n
  /\ dragging n' = dragging n.
Proof.
  unfold onResizeMove. destruct parent; [destruct (_ || _)|]; simpl; auto 10.
Qed.

Lemma resizeMoves_keeps_gesture M parent es : forall n,
  let n' := resizeMoves M parent es n in
  x n' = x n /\ y n' = y n /\ texture n' = texture n
  /\ resizing n' = resizing n /\ resizePointerId n' = resizePointerId n
  /\ startProj n' = startProj n /\ startScale n' = startScale n
  /\ dragging n' = dragging n.
Proof.
  induction es as [|e es IH]; intros n; simpl; [auto 10|].
  destruct (IH (onResizeMove M parent e n))
    as (H1 & H2 & H3 & H4 & H5 & H6 & H7 & H8).
  destruct (onResizeMove_keeps_gesture M parent e n)
    as (K1 & K2 & K3 & K4 & K5 & K6 & K7 & K8).
  unfold resizeMoves in *. simpl.
  rewrite H1, H2, H3, H4, H5, H6, H7, H8. auto 10.
Qed.

(** C7.  During a resize of an image, every move of the grabbing pointer
    sets the scale to the scale at the start of the gesture times the ratio
    of the current distance between pointer and centre to that distance at
    the start, both measured in global coordinates, clamped to the scale
    constraints of the node, which are max(0.05, 20 / min(width, height)) of
    the texture below and 8 above.  When the product lies within the
    constraints it is the new scale; at or below the lower bound the new
    scale is the lower bound, at or above 8 it is 8. *)
Theorem resize_scales_by_distance_ratio (M : Js.Math) (c : Point) (n0 : t)
    (e0 e : FederatedPointerEvent) (moves : list FederatedPointerEvent) :
  pointerId e = pointerId e0 ->
  0 < globalDistance M c n0 e0 ->
  0 < Qmin (width (texture n0)) (height (texture n0)) ->
  let n1 := onResizeStart M (Some c) e0 n0 in
  let n2 := onResizeMove M (Some c) e (resizeMoves M (Some c) moves n1) in
  let k := getScaleConstraints n0 in
  let minScale := Qmax 0.05 (20 / Qmin (width (texture n0)) (height (texture n0))) in
  let target := scale n0 * (globalDistance M c n0 e / globalDistance M c n0 e0) in
  startProj n1 = globalDistance M c n0 e0
  /\ startScale n1 = scale n0
  /\ scale n2 = Qmin (max k) (Qmax (min k) target)
  /\ (min k <= target -> target <= max k -> scale n2 == target)
  /\ min k = minScale
  /\ max k = 8
  /\ scale n2 = Qmin 8 (Qmax minScale target)
  /\ (minScale <= target -> target <= 8 -> scale n2 == target)
  /\ (target <= minScale -> minScale <= 8 -> scale n2 == minScale)
  /\ (8 <= target -> scale n2 == 8).
Proof.
  intros Hid Hstart Htex n1 n2 k minScale target.
  destruct (resizeMoves_keeps_gesture M (Some c) moves n1)
    as (Hx & Hy & Ht & Hr & Hp & Hsp & Hss & _).
  assert (Hscale : scale n2 = Qmin 8 (Qmax minScale target)).
  { subst n2. unfold onResizeMove. rewrite Hr, Hp.
    replace (resizing n1) with true by reflexivity.
    replace (resizePointerId n1) with (Some (pointerId e0)) by reflexivity.
    rewrite Hid, same_pointer_refl.
    cbn [negb orb setScale scale].
    unfold getScaleConstraints. rewrite Hx, Hy, Ht, Hsp, Hss.
    reflexivity. }
  split; [reflexivity|]. split; [reflexivity|].
  split; [exact Hscale|].
  split; [intros Hlo Hhi; rewrite Hscale; apply clamp_inside; assumption|].
  split; [reflexivity|]. split; [reflexivity|].
  split; [exact Hscale|].
  split; [intros Hlo Hhi; rewrite Hscale; apply clamp_inside; assumption|].
  split; [intros Hlo Hhi; rewrite Hscale; apply clamp_at_floor; assumption|].
  intros Hhi. rewrite Hscale. apply clamp_at_ceiling. exact Hhi.
Qed.





End ImageNode.

(** ** Gestures on a text node *)

Section TextNode.
Import DraggableResizableText.


(** The resize of a text follows the same ratio of distances, taken in the
    frame of the parent, with its own bounds. *)
Lemma text_resize_move_scale (M : Js.Math) (c : Point)
    (e : FederatedPointerEvent) (n : t) (s : Q) :
  text n = Some s ->
  resizing n = true ->
  same_pointer (pointerId e) (resizePointerId n) = true ->
  0 < startProj n ->
  let dx := px (toLocal c (global e)) - x n in
  let dy := py (toLocal c (global e)) - y n in
  text (onResizeMove M (Some c) e n)
  = Some (Qmax 0.1
            (Qmin 5 (startScale n
                     * (Js.sqrt M (dx * dx + dy * dy) / startProj n)))).
Proof.
  intros Ht Hr Hp _. unfold onResizeMove. rewrite Hr, Hp, Ht. reflexivity.
Qed.

(** The drag of a text takes the grab offset in the frame of the sprite
    and the pointer in the frame of the parent: grabbed at (150, 160) while
    at (100, 100) with scale 2, the text goes to (225, 230) when the pointer
    reaches (250, 260). *)
Lemma text_drag_uses_two_frames :
  let n1 := onDragStart (Some Gesture.origin)
              (Scenario.pointer 1 150 160) Gesture.bigTextAt100 in
  let n2 := onDragMove (Some Gesture.origin) (Scenario.pointer 1 250 260) n1 in
  px (dragOffset n1) == 25
  /\ py (dragOffset n1) == 30
  /\ x n2 == 225
  /\ y n2 == 230.
Proof. vm_compute. repeat split. Qed.

End TextNode.

(** ** The scale constraints *)



(** ** Selection *)

(** Clicking an image never touches [selectedText]. *)
Lemma imageClicked_selectedText ref s :
  selectedText (imageClicked ref s) = selectedText s.
Proof.
  unfold imageClicked. destruct (imageNodes s !! ref); reflexivity.
Qed.

(** With a text selected, clicking any image on the canvas makes two
    selected objects. *)
Lemma imageClicked_adds_to_text_selection ref s c t :
  imageNodes s !! ref = Some c ->
  selectedText s = Some t ->
  selectedCount (imageClicked ref s) = 2%nat.
Proof.
  intros Hc Ht. unfold selectedCount.
  rewrite imageClicked_selectedText, Ht.
  unfold imageClicked. rewrite Hc. reflexivity.
Qed.

(** C1 fails on the code.  With a text and an image on the canvas, clicking
    the text selects it; clicking the image then selects the image and
    leaves the text selected: two objects are selected and two selection
    frames show.  Clicking in the other order gives two selected objects as
    well, the click listener of the text having closed over the empty
    selection of the render that created it. *)
Theorem image_click_keeps_text_selected :
  selectedCount Scenario.selectedTextOnly = 1%nat
  /\ selectedCount (imageClicked 0 Scenario.selectedTextOnly) = 2%nat
  /\ framesShown (imageClicked 0 Scenario.selectedTextOnly) = 2%nat
  /\ selectedCount (textClicked 0 (imageClicked 0 Scenario.textAndImage)) = 2%nat.
Proof. vm_compute. repeat split. Qed.

(** ** Loading *)

Lemma loadImages_closed assets seen persists stored : forall heap loaded,
  loadImages assets seen persists stored heap loaded
  = (heap ++ loadedCells assets seen persists stored,
     loaded ++ loadedRecords assets (length heap) stored).
Proof.
  induction stored as [|st rest IH]; intros heap loaded; simpl.
  - rewrite !app_nil_r. reflexivity.
  - destruct (loadable assets st) as [texture|]; [|apply IH].
    rewrite IH, length_app. simpl.
    rewrite Nat.add_1_r, <- !app_assoc. reflexivity.
Qed.

Lemma liveImages_loaded assets seen persists stored : forall heap,
  omap (liveImage (heap ++ loadedCells assets seen persists stored))
       (loadedRecords assets (length heap) stored)
  = restoredLive assets stored.
Proof.
  induction stored as [|st rest IH]; intros heap; simpl; [reflexivity|].
  destruct (loadable assets st) as [texture|]; [|apply IH].
  simpl. unfold liveImage at 1. simpl.
  rewrite list_lookup_middle by reflexivity. simpl.
  f_equal.
  specialize (IH (heap ++ [{| image_node := restoreImageNode texture st;
                               image_destroyed := false;
                               image_seen_selectedImage := seen;
                               image_seen_imageUrl := StoredImageData.imageUrl st;
                               image_persists := persists |}])).
  rewrite length_app, Nat.add_1_r, <- app_assoc in IH. exact IH.
Qed.

Lemma loadedRecords_ids assets stored : forall base,
  map DraggableImage.id (loadedRecords assets base stored)
  = map StoredImageData.id (List.filter (resolves assets) stored).
Proof.
  induction stored as [|st rest IH]; intros base; simpl; [reflexivity|].
  unfold resolves at 1. destruct (loadable assets st); simpl; [f_equal|]; apply IH.
Qed.

Lemma restoredLive_length assets stored :
  length (restoredLive assets stored)
  = length (List.filter (resolves assets) stored).
Proof.
  induction stored as [|st rest IH]; simpl; [reflexivity|].
  unfold resolves at 1. destruct (loadable assets st); simpl; [f_equal|]; apply IH.
Qed.

Lemma destroyImages_length l : forall heap,
  length (destroyImages l heap) = length heap.
Proof.
  unfold destroyImages. induction l as [|img l IH]; intros heap; simpl; [reflexivity|].
  rewrite IH. apply length_alter.
Qed.

(** What [loadCanvasData] returns for a document that has [images]. *)
Lemma loadCanvasData_images assets d stored s :
  CanvasData.images d = Some stored ->
  exists s',
    loadCanvasData assets d s = Returned s'
    /\ images s' = loadedRecords assets (length (imageNodes s)) stored
    /\ liveImages s' = restoredLive assets stored
    /\ container s' = default (container s) (CanvasData.canvasPosition d)
    /\ selectedImage s' = None /\ selectedText s' = None.
Proof.
  intros Hd. unfold loadCanvasData. rewrite Hd.
  rewrite loadImages_closed.
  match goal with
  | |- context [loadTexts ?a ?b ?c ?h ?l] =>
      destruct (loadTexts a b c h l) as [theap loadedTexts]
  end.
  eexists. split; [reflexivity|].
  unfold liveImages, restorePosition.
  destruct (CanvasData.canvasPosition d); simpl;
    rewrite destroyImages_length;
    (split; [reflexivity|]);
    (split; [rewrite <- (destroyImages_length (images s) (imageNodes s));
             apply liveImages_loaded|]);
    auto.
Qed.

(** What [loadFromAPI] makes of a document that has [images]. *)
Lemma loadFromAPI_images assets d stored s :
  CanvasData.images d = Some stored ->
  let s' := loadFromAPI assets (Some d) s in
  images s' = loadedRecords assets (length (imageNodes s)) stored
  /\ liveImages s' = restoredLive assets stored
  /\ container s' = default (container s) (CanvasData.canvasPosition d)
  /\ texts s' = texts s.
Proof.
  intros Hd. unfold loadFromAPI. simpl Route.GET. rewrite Hd.
  rewrite loadImages_closed.
  unfold liveImages, restorePosition, destroyImages.
  destruct (CanvasData.canvasPosition d); simpl;
    (split; [reflexivity|]);
    (split; [apply liveImages_loaded|]);
    auto.
Qed.

(** On the images of a document the two loaders agree, when both ways of
    obtaining a texture resolve the same references. *)
Lemma loaders_agree_on_images assets d stored s :
  CanvasData.images d = Some stored ->
  liveImages (fst (importFromJSON assets d s))
  = liveImages (loadFromAPI assets (Some d) s).
Proof.
  intros Hd.
  destruct (loadCanvasData_images assets d stored s Hd) as (s' & Hret & _ & Hlive & _).
  destruct (loadFromAPI_images assets d stored s Hd) as (_ & Klive & _).
  unfold importFromJSON. rewrite Hret. simpl. rewrite Hlive, Klive. reflexivity.
Qed.

(** C6.  Loading a document that has an image list never throws and shows
    no alert, by file import or from the persistence route; the images that
    materialise are exactly the entries whose reference resolves, in order,
    the others being skipped.  Of three entries with one failing reference,
    two materialise.  [textures] is what [PIXI.Texture.from] can obtain,
    [assets] what [Assets.load] can. *)
Theorem load_skips_failing_images (textures assets : Assets)
    (d : CanvasData.t) (stored : list StoredImageData.t) (s : State) :
  CanvasData.images d = Some stored ->
  (exists s',
     loadCanvasData textures d s = Returned s'
     /\ importFromJSON textures d s = (s', false)
     /\ map DraggableImage.id (images s')
        = map StoredImageData.id (List.filter (resolves textures) stored)
     /\ liveImages s' = restoredLive textures stored)
  /\ (let s' := loadFromAPI assets (Some d) s in
      map DraggableImage.id (images s')
      = map StoredImageData.id (List.filter (resolves assets) stored)
      /\ liveImages s' = restoredLive assets stored)
  /\ (length stored = 3%nat ->
      length (List.filter (fun st => negb (resolves textures st)) stored) = 1%nat ->
      length (liveImages (final (loadCanvasData textures d s))) = 2%nat)
  /\ (length stored = 3%nat ->
      length (List.filter (fun st => negb (resolves assets st)) stored) = 1%nat ->
      length (liveImages (loadFromAPI assets (Some d) s)) = 2%nat).
Proof.
  intros Hd.
  destruct (loadCanvasData_images textures d stored s Hd)
    as (s' & Hret & Himgs & Hlive & _).
  destruct (loadFromAPI_images assets d stored s Hd) as (Kimgs & Klive & _).
  split; [|split; [|split]].
  - exists s'. split; [exact Hret|].
    split; [unfold importFromJSON; rewrite Hret; reflexivity|].
    split; [rewrite Himgs; apply loadedRecords_ids | exact Hlive].
  - cbv zeta. split; [rewrite Kimgs; apply loadedRecords_ids | exact Klive].
  - intros Hthree Hone. rewrite Hret. simpl final. rewrite Hlive.
    rewrite restoredLive_length.
    pose proof (List.filter_length (resolves textures) stored) as Hsum. lia.
  - intros Hthree Hone. rewrite Klive.
    rewrite restoredLive_length.
    pose proof (List.filter_length (resolves assets) stored) as Hsum. lia.
Qed.

(** ** Save, then load *)

Lemma saved_images_restore assets nodes imgs :
  Forall (valid_image assets nodes) imgs ->
  Forall2 restored (omap (liveImage nodes) imgs)
    (restoredLive assets (omap (store_image nodes) imgs)).
Proof.
  induction 1 as [|img imgs Hv _ IH]; simpl; [constructor|].
  destruct Hv as (Hurl & (texture & Hres) & (c & Hc & Hscale)).
  unfold liveImage at 1, store_image at 1. rewrite Hurl, Hc. simpl.
  unfold loadable. simpl. rewrite Hurl, Hres.
  constructor; [|exact IH].
  unfold restored. simpl.
  rewrite !round_or_else.
  unfold DraggableResizable.getScale. rewrite or_else_positive by exact Hscale.
  auto.
Qed.

(** C3, as stated, fails: a photo dragged to x = 100.5 is saved there and
    comes back at x = 101, by file import and from the persistence route
    alike. *)
Lemma roundtrip_moves_dragged_image :
  exists cd,
    saveToAPI Scenario.draggedPhoto = Some cd
    /\ ~ Forall2 same_image (liveImages Scenario.draggedPhoto)
           (liveImages (final (loadCanvasData Scenario.assets cd initial)))
    /\ ~ Forall2 same_image (liveImages Scenario.draggedPhoto)
           (liveImages (loadFromAPI Scenario.assets (Some cd) initial)).
Proof.
  eexists. split; [vm_compute; reflexivity|].
  split; intros H; vm_compute in H;
    inversion H as [|a b la lb Hsame _]; subst;
    destruct Hsame as (_ & Hx & _); apply Hx; reflexivity.
Qed.

(** C3, amended.  When a canvas whose images all have valid resources is
    saved and the result is loaded, into any state, by file import or from
    the persistence route, every image comes back with its id, its reference
    and its scale as they were and with each coordinate rounded to the
    nearest whole number, hence within half a pixel and exactly when the
    coordinate was whole; the pan offset comes back exactly.  [textures] is
    what [PIXI.Texture.from] can obtain, [assets] what [Assets.load] can. *)
Theorem save_then_load_restores_images (textures assets : Assets)
    (s s0 : State) (cd : CanvasData.t) (f : option CanvasData.t) :
  saveToAPI s = Some cd ->
  Forall (valid_image textures (imageNodes s)) (images s) ->
  Forall (valid_image assets (imageNodes s)) (images s) ->
  (exists s',
     loadCanvasData textures cd s0 = Returned s'
     /\ Forall2 restored (liveImages s) (liveImages s')
     /\ container s' = container s)
  /\ (let s' := loadFromAPI assets (fst (Route.POST cd f)) s0 in
      Forall2 restored (liveImages s) (liveImages s')
      /\ container s' = container s)
  /\ (forall v, Qabs (Js.round v - v) <= (1 # 2))
  /\ (forall z, Js.round (inject_Z z) = inject_Z z).
Proof.
  intros Hsave Hcache Hassets.
  unfold saveToAPI in Hsave.
  destruct (store_texts (textNodes s) (texts s)) as [sts|]; [|discriminate].
  injection Hsave as <-.
  split; [|split; [|split; [exact round_near | exact round_integer]]].
  - destruct (loadCanvasData_images textures
                {| CanvasData.images := Some (omap (store_image (imageNodes s)) (images s));
                   CanvasData.texts := Some sts;
                   CanvasData.canvasPosition := Some (container s) |}
                _ s0 eq_refl) as (s' & Hret & _ & Hlive & Hc & _).
    exists s'. split; [exact Hret|]. rewrite Hlive.
    split; [apply saved_images_restore, Hcache | exact Hc].
  - simpl Route.POST. simpl fst.
    destruct (loadFromAPI_images assets
                {| CanvasData.images := Some (omap (store_image (imageNodes s)) (images s));
                   CanvasData.texts := Some sts;
                   CanvasData.canvasPosition := Some (container s) |}
                _ s0 eq_refl) as (_ & Hlive & Hc & _).
    cbv zeta. rewrite Hlive.
    split; [apply saved_images_restore, Hassets | exact Hc].
Qed.

(** C4 fails on the code.  A document with one text entry of scale zero
    gives one text object when it is imported from a file and none when it
    comes from the persistence route, which never reads [texts]; and the
    image of a one-image document gets the listeners of ['resized'] and
    ['moved'] from the persistence route only. *)
Theorem import_and_api_load_differ :
  length (liveTexts (fst (importFromJSON Scenario.assets Scenario.oneText initial)))
  = 1%nat
  /\ liveTexts (loadFromAPI Scenario.assets (Some Scenario.oneText) initial) = []
  /\ map image_persists
       (imageNodes (fst (importFromJSON Scenario.assets Scenario.oneImage initial)))
     = [false]
  /\ map image_persists
       (imageNodes (loadFromAPI Scenario.assets (Some Scenario.oneImage) initial))
     = [true].
Proof. vm_compute. repeat split. Qed.

(** ** Wheel scaling *)

Lemma wheelFactor_exponent M e :
  wheelFactor M e
  = Js.pow M 1.0015 (if ctrlKey e then - deltaY e * 2 else - deltaY e).
Proof. unfold wheelFactor. destruct (ctrlKey e); reflexivity. Qed.

(** C9, as stated, fails: with a text as the only selection a wheel event
    changes nothing at all, no scale and no timer, although the factor
    1.0015^100 would take the scale 1 of the text to a value strictly
    between 1 and 8. *)
Lemma wheel_ignores_selected_text :
  selectedCount Scenario.selectedTextOnly = 1%nat
  /\ (exists t, selectedText Scenario.selectedTextOnly = Some t)
  /\ handleWheel Js.QMath Scenario.wheelUp (start Scenario.selectedTextOnly None)
     = start Scenario.selectedTextOnly None
  /\ 1 < 1 * wheelFactor Js.QMath Scenario.wheelUp
  /\ 1 * wheelFactor Js.QMath Scenario.wheelUp < 8.
Proof.
  split; [reflexivity|]. split; [eexists; reflexivity|].
  split; [reflexivity|]. split; vm_compute; reflexivity.
Qed.

(** C9, amended.  For every wheel event with delta D while an image is
    selected, the scale of its node becomes
    max(min, min(max, scale * 1.0015^(-D))), the exponent being -2 D when
    ctrl is held; the state changes exactly as if the node had been given
    that scale and had emitted ['resized'] with it, which schedules a save;
    the drag and resize flags of the node are untouched.  While no image is
    selected, a wheel event changes nothing. *)
Theorem wheel_scales_selected_image (M : Js.Math) (e : WheelEvent) (w : World)
    (selected : DraggableImage.t) (c : ImageCell) :
  selectedImage (state w) = Some selected ->
  imageNodes (state w) !! DraggableImage.node selected = Some c ->
  0 < Qmin (width (DraggableResizable.texture (image_node c)))
           (height (DraggableResizable.texture (image_node c))) ->
  let n := image_node c in
  let k := DraggableResizable.getScaleConstraints n in
  let exponent := if ctrlKey e then - deltaY e * 2 else - deltaY e in
  let clamped :=
    Qmax (DraggableResizable.min k)
      (Qmin (DraggableResizable.max k)
         (DraggableResizable.scale n * Js.pow M 1.0015 exponent)) in
  let w' := handleWheel M e w in
  imageNodes (state w') !! DraggableImage.node selected
    = Some (map_image_node (DraggableResizable.setScale clamped) c)
  /\ w' = resizedListener (DraggableImage.id selected) clamped
            (update (on_image (DraggableImage.node selected)
                       (DraggableResizable.setScale clamped)) w)
  /\ DraggableResizable.dragging
       (DraggableResizable.setScale clamped n) = DraggableResizable.dragging n
  /\ DraggableResizable.resizing
       (DraggableResizable.setScale clamped n) = DraggableResizable.resizing n
  /\ (forall w0, selectedImage (state w0) = None -> handleWheel M e w0 = w0).
Proof.
  intros Hsel Hnode _ n k exponent clamped w'.
  assert (Hclamped : wheelScale M e (image_node c) = clamped).
  { unfold wheelScale. rewrite wheelFactor_exponent. reflexivity. }
  subst w'. unfold handleWheel at 1 2. rewrite Hsel, Hnode, Hclamped.
  split; [|split; [reflexivity | split; [reflexivity | split; [reflexivity|]]]].
  - simpl. rewrite list_lookup_alter_eq, Hnode. reflexivity.
  - intros w0 Hnone. unfold handleWheel. rewrite Hnone. reflexivity.
Qed.

(** ** The debounced save *)

Lemma debouncedAutoSave_frame w :
  state (debouncedAutoSave w) = state w
  /\ clock (debouncedAutoSave w) = clock w
  /\ saveCalls (debouncedAutoSave w) = saveCalls w
  /\ file (debouncedAutoSave w) = file w.
Proof. unfold debouncedAutoSave. simpl. auto. Qed.

(** A trigger leaves one pending timer, due 2000 ms later: the timer that
    was pending, if any, is cleared. *)
Lemma debouncedAutoSave_arms w :
  settled w ->
  armed (debouncedAutoSave w) (clock w + 2000)%N
    (length (images (state w))) (length (texts (state w))).
Proof.
  intros [Hpos Hpending].
  destruct (next_timer w) as [|k] eqn:Hk; [lia|].
  assert (Hclear :
    match saveDebounceRef w with
    | Some (S id) => clearTimeout (S id) (timers w)
    | _ => timers w
    end = []).
  { destruct Hpending as [Hnone | (T & ci & ct & id & Ht & Href & _)].
    - rewrite Hnone. destruct (saveDebounceRef w) as [[|id]|]; reflexivity.
    - rewrite Href, Ht. unfold clearTimeout. simpl.
      rewrite Nat.eqb_refl. reflexivity. }
  exists k. unfold debouncedAutoSave. rewrite Hclear, Hk. simpl.
  repeat split. lia.
Qed.

Lemma update_armed f w T ci ct : armed w T ci ct -> armed (update f w) T ci ct.
Proof. intros (id & H1 & H2 & H3). exists id. simpl. auto. Qed.

Lemma wait_before_due dt w T ci ct :
  armed w T ci ct -> (clock w + dt < T)%N ->
  armed (wait dt w) T ci ct
  /\ saveCalls (wait dt w) = saveCalls w
  /\ state (wait dt w) = state w
  /\ clock (wait dt w) = (clock w + dt)%N.
Proof.
  intros (id & Ht & Href & Hpos) Hlt. unfold wait. rewrite Ht. simpl.
  unfold due. simpl.
  destruct (N.leb_spec T (clock w + dt)) as [Hle|_]; [lia|]. simpl.
  repeat split; try reflexivity.
  exists id. simpl. auto.
Qed.

Lemma wait_due dt w T ci ct :
  armed w T ci ct -> (T <= clock w + dt)%N ->
  timers (wait dt w) = []
  /\ (0 < next_timer (wait dt w))%nat
  /\ state (wait dt w) = state w
  /\ clock (wait dt w) = (clock w + dt)%N
  /\ saveCalls (wait dt w)
     = saveCalls w ++
       (if (0 <? ci)%nat || (0 <? ct)%nat
        then [{| called_at := T; body := saveToAPI (state w) |}]
        else []).
Proof.
  intros (id & Ht & Href & Hpos) Hle. unfold wait. rewrite Ht. simpl.
  unfold due. simpl.
  destruct (N.leb_spec T (clock w + dt)) as [_|Hlt]; [|lia]. simpl.
  unfold fire. simpl.
  destruct ((0 <? ci)%nat || (0 <? ct)%nat); simpl;
    repeat split; try reflexivity; try assumption.
  symmetry. apply app_nil_r.
Qed.

Lemma wait_idle dt w :
  timers w = [] ->
  timers (wait dt w) = [] /\ saveCalls (wait dt w) = saveCalls w
  /\ next_timer (wait dt w) = next_timer w.
Proof. intros Ht. unfold wait. rewrite Ht. simpl. auto. Qed.

Lemma quiet_idle l : forall w,
  timers w = [] ->
  timers (quiet l w) = [] /\ saveCalls (quiet l w) = saveCalls w
  /\ next_timer (quiet l w) = next_timer w.
Proof.
  induction l as [|q l IH]; intros w Ht; [simpl; auto|].
  unfold quiet in *. simpl.
  destruct q as [f|dt]; simpl.
  - destruct (IH (update f w) Ht) as (H1 & H2 & H3). auto.
  - destruct (wait_idle dt w Ht) as (K1 & K2 & K3).
    destruct (IH (wait dt w) K1) as (H1 & H2 & H3).
    rewrite H2, H3. auto.
Qed.

(** A quiet period that ends before the timer is due runs no callback. *)
Lemma quiet_before_due l : forall w T ci ct,
  armed w T ci ct -> (clock w + elapsed l < T)%N ->
  armed (quiet l w) T ci ct
  /\ saveCalls (quiet l w) = saveCalls w
  /\ state (quiet l w) = changes l (state w)
  /\ clock (quiet l w) = (clock w + elapsed l)%N.
Proof.
  induction l as [|q l IH]; intros w T ci ct Harm Hlt.
  - simpl. repeat split; auto. simpl. lia.
  - unfold quiet, changes in *. simpl in *.
    destruct q as [f|dt]; simpl.
    + destruct (IH (update f w) T ci ct (update_armed f w T ci ct Harm) Hlt)
        as (H1 & H2 & H3 & H4). auto.
    + destruct (wait_before_due dt w T ci ct Harm) as (K1 & K2 & K3 & K4); [lia|].
      destruct (IH (wait dt w) T ci ct K1) as (H1 & H2 & H3 & H4); [lia|].
      rewrite H2, H3, H4, K2, K3, K4. repeat split; auto. lia.
Qed.

(** Triggers that follow each other within the window make no save. *)
Lemma burst_settles periods : forall w,
  settled w ->
  Forall (fun p => (elapsed p < 2000)%N) periods ->
  settled (burst periods w) /\ saveCalls (burst periods w) = saveCalls w.
Proof.
  induction periods as [|p periods IH]; intros w Hs Hshort; [simpl; auto|].
  unfold burst in *. simpl.
  inversion Hshort as [|? ? Hp Hrest]; subst.
  pose proof (debouncedAutoSave_arms w Hs) as Harm.
  destruct (debouncedAutoSave_frame w) as (_ & Hclock & Hcalls & _).
  destruct (quiet_before_due p (debouncedAutoSave w) _ _ _ Harm)
    as (H1 & H2 & H3 & H4); [rewrite Hclock; lia|].
  destruct (IH (quiet p (debouncedAutoSave w))) as [K1 K2]; [|exact Hrest|].
  - split; [destruct H1 as (id & _ & _ & Hpos); exact Hpos|].
    right. eauto.
  - split; [exact K1|]. rewrite K2, H2, Hcalls. reflexivity.
Qed.

Lemma nonempty_lengths s :
  nonempty_canvas s ->
  (0 <? length (images s))%nat || (0 <? length (texts s))%nat = true.
Proof.
  intros [H|H].
  - destruct (images s); [congruence|reflexivity].
  - destruct (texts s); [congruence|]. apply orb_true_r.
Qed.

(** A timer whose callback saw an empty canvas never saves. *)
Lemma quiet_unseen l : forall w,
  timers w = [] \/ (exists T, armed w T 0 0) ->
  saveCalls (quiet l w) = saveCalls w.
Proof.
  induction l as [|q l IH]; intros w Hw; [reflexivity|].
  unfold quiet in *. simpl.
  destruct q as [f|dt]; simpl.
  - rewrite IH; [reflexivity|].
    destruct Hw as [Hnone | [T Harm]]; [left; exact Hnone|].
    right. exists T. apply update_armed, Harm.
  - destruct Hw as [Hnone | [T Harm]].
    + destruct (wait_idle dt w Hnone) as (K1 & K2 & _).
      rewrite IH; [exact K2 | left; exact K1].
    + destruct (N.lt_ge_cases (clock w + dt) T) as [Hlt|Hge].
      * destruct (wait_before_due dt w T 0 0 Harm Hlt) as (K1 & K2 & _).
        rewrite IH; [exact K2 | right; exists T; exact K1].
      * destruct (wait_due dt w T 0 0 Harm Hge) as (K1 & _ & _ & _ & K5).
        rewrite IH; [|left; exact K1].
        rewrite K5. simpl. apply app_nil_r.
Qed.

(** The guard of the callback: a burst whose last trigger saw an empty
    canvas calls no save, whatever follows. *)
Lemma burst_on_empty_canvas_saves_nothing (w0 : World)
    (periods : list (list QuietStep)) (rest : list QuietStep) :
  settled w0 ->
  Forall (fun p => (elapsed p < 2000)%N) periods ->
  images (state (burst periods w0)) = [] ->
  texts (state (burst periods w0)) = [] ->
  saveCalls (quiet rest (debouncedAutoSave (burst periods w0))) = saveCalls w0.
Proof.
  intros Hs Hshort Hi Ht.
  destruct (burst_settles periods w0 Hs Hshort) as [Hs1 Hcalls1].
  pose proof (debouncedAutoSave_arms _ Hs1) as Harm.
  rewrite Hi, Ht in Harm. simpl in Harm.
  destruct (debouncedAutoSave_frame (burst periods w0)) as (_ & _ & Hcalls & _).
  rewrite quiet_unseen; [|right; eexists; exact Harm].
  rewrite Hcalls. exact Hcalls1.
Qed.

(** C5, as stated, fails: panning an empty canvas schedules the timer, and
    when it fires two seconds later no save is called. *)
Lemma pan_of_empty_canvas_never_saves :
  length (timers Scenario.panEmptyCanvas) = 1%nat
  /\ saveCalls (wait 2000 Scenario.panEmptyCanvas) = []
  /\ saveCalls (quiet [Wait 2000] (debouncedAutoSave (burst [] (start initial None))))
     = [].
Proof. vm_compute. repeat split. Qed.

(** C5, amended.  Take n >= 1 triggers, each less than 2000 ms after the
    one before ([periods] holds what happens between them), the last one
    followed by 2000 ms or more without a trigger, on a canvas that holds an
    image or a text at the last trigger and when the timer fires.  Then
    exactly one save is called; it is called 2000 ms after the last trigger
    and its request is made from the state of the canvas at that moment. *)
Theorem burst_saves_once (w0 : World) (periods : list (list QuietStep))
    (pre post : list QuietStep) (dt : N) :
  settled w0 ->
  Forall (fun p => (elapsed p < 2000)%N) periods ->
  (elapsed pre < 2000)%N ->
  (2000 <= elapsed pre + dt)%N ->
  let w1 := burst periods w0 in
  let atFire := changes pre (state w1) in
  nonempty_canvas (state w1) ->
  nonempty_canvas atFire ->
  saveCalls (quiet (pre ++ Wait dt :: post) (debouncedAutoSave w1))
  = saveCalls w0
    ++ [{| called_at := (clock w1 + 2000)%N; body := saveToAPI atFire |}].
Proof.
  intros Hs Hshort Hpre Hdt w1 atFire Hne1 _.
  destruct (burst_settles periods w0 Hs Hshort) as [Hs1 Hcalls1].
  fold w1 in Hs1, Hcalls1.
  pose proof (debouncedAutoSave_arms w1 Hs1) as Harm.
  destruct (debouncedAutoSave_frame w1) as (Hst & Hclock & Hcalls & _).
  destruct (quiet_before_due pre (debouncedAutoSave w1) _ _ _ Harm)
    as (H1 & H2 & H3 & H4); [rewrite Hclock; lia|].
  unfold quiet. rewrite fold_left_app. fold (quiet pre (debouncedAutoSave w1)).
  simpl.
  destruct (wait_due dt (quiet pre (debouncedAutoSave w1)) _ _ _ H1)
    as (K1 & K2 & K3 & K4 & K5); [rewrite H4, Hclock; lia|].
  destruct (quiet_idle post (wait dt (quiet pre (debouncedAutoSave w1))) K1)
    as (_ & L2 & _).
  unfold quiet in L2 at 1. rewrite L2, K5, H2, Hcalls, Hcalls1, H3, Hst.
  rewrite (nonempty_lengths (state w1) Hne1). reflexivity.
Qed.

(** Deleting the only image of a canvas: two seconds later a save is
    called on the canvas without it, the callback of the timer having seen
    one image. *)
Lemma delete_last_image_then_save (w : World) (img : DraggableImage.t) :
  settled w ->
  images (state w) = [img] ->
  let w' := wait 2000 (handleDeleteImage (DraggableImage.id img) w) in
  images (state w') = []
  /\ saveCalls w'
     = saveCalls w
       ++ [{| called_at := (clock w + 2000)%N; body := saveToAPI (state w') |}].
Proof.
  intros Hs Himg w'.
  pose proof (debouncedAutoSave_arms w Hs) as Harm.
  destruct (debouncedAutoSave_frame w) as (Hst & Hclock & Hcalls & _).
  rewrite Himg in Harm. simpl length in Harm.
  subst w'. unfold handleDeleteImage. rewrite Himg. simpl length.
  match goal with
  | |- context [update ?f (debouncedAutoSave w)] => set (remove := f)
  end.
  assert (Hgone : images (remove (state w)) = []).
  { subst remove. cbv beta. rewrite Himg. simpl.
    rewrite String.eqb_refl. simpl.
    destruct (selectedImage (state w)) as [si|]; [|reflexivity].
    destruct (String.eqb (DraggableImage.id si) (DraggableImage.id img)); reflexivity. }
  pose proof (update_armed remove _ _ _ _ Harm) as Harm2.
  assert (Hstate2 : state (update remove (debouncedAutoSave w)) = remove (state w)).
  { reflexivity. }
  unfold afterCommit. rewrite Hstate2, Hgone. simpl.
  destruct (wait_due 2000 _ _ _ _ Harm2) as (_ & _ & K3 & _ & K5).
  { simpl. lia. }
  rewrite K3, K5, Hstate2, Hgone. simpl. auto.
Qed.

(** C10 fails on the code.  A photo is dropped and saved; it is then
    deleted, which leaves both collections empty; two seconds later the
    timer of the deletion fires, its callback still sees the one image of
    the render that made it, and the emptied document is sent and written to
    the file. *)
Theorem deleting_last_image_saves_empty_document :
  length (images (state Scenario.photoSaved)) = 1%nat
  /\ images (state Scenario.photoDeleted) = []
  /\ texts (state Scenario.photoDeleted) = []
  /\ length (saveCalls Scenario.photoDeleted) = 2%nat
  /\ (body <$> last (saveCalls Scenario.photoDeleted))
     = Some (Some {| CanvasData.images := Some [];
                     CanvasData.texts := Some [];
                     CanvasData.canvasPosition := Some (Scenario.at_ 0 0) |})
  /\ (CanvasData.images <$> file Scenario.photoDeleted) = Some (Some []).
Proof. vm_compute. repeat split. Qed.

(** ** The statements at concrete inputs *)

(** The drag of the specification: grabbed at (150, 160) while at
    (100, 100), the image is at (200, 200) when the pointer reaches
    (250, 260), whatever other pointer events came in between. *)
Lemma drag_scenario :
  pointerId (Scenario.pointer 1 250 260) = pointerId (Scenario.pointer 1 150 160)
  /\ (let n2 :=
        DraggableResizable.onDragMove (Scenario.pointer 1 250 260)
          (dragMoves [Scenario.pointer 2 0 0; Scenario.pointer 1 180 170]
             (DraggableResizable.onDragStart (Scenario.pointer 1 150 160)
                Gesture.squareAt100)) in
      DraggableResizable.x n2 == 200 /\ DraggableResizable.y n2 == 200).
Proof.
  split; [reflexivity|].
  pose proof (drag_follows_pointer Gesture.origin Gesture.squareAt100
                (Scenario.pointer 1 150 160) (Scenario.pointer 1 250 260)
                [Scenario.pointer 2 0 0; Scenario.pointer 1 180 170] eq_refl) as H.
  cbv zeta in *. destruct H as (_ & _ & Hx & Hy & _).
  rewrite Hx, Hy. split; reflexivity.
Defined.

(** The resize of the specification: from distance 50 at scale 1 to
    distance 100, the scale is 2.  The image is 100 x 100, so its lower
    bound is 20 / 100: a move to distance 5 asks for 0.1 and gives 0.2, a
    move to distance 1000 asks for 20 and gives 8. *)
Lemma resize_scenario :
  pointerId (Scenario.pointer 1 60 80) = pointerId (Scenario.pointer 1 30 40)
  /\ 0 < globalDistance Js.QMath Gesture.origin Gesture.squareNode
           (Scenario.pointer 1 30 40)
  /\ 0 < Qmin (width (DraggableResizable.texture Gesture.squareNode))
              (height (DraggableResizable.texture Gesture.squareNode))
  /\ globalDistance Js.QMath Gesture.origin Gesture.squareNode
       (Scenario.pointer 1 30 40) == 50
  /\ globalDistance Js.QMath Gesture.origin Gesture.squareNode
       (Scenario.pointer 1 60 80) == 100
  /\ DraggableResizable.scale Gesture.squareNode == 1
  /\ DraggableResizable.scale
       (DraggableResizable.onResizeMove Js.QMath (Some Gesture.origin)
          (Scenario.pointer 1 60 80)
          (resizeMoves Js.QMath (Some Gesture.origin) []
             (DraggableResizable.onResizeStart Js.QMath (Some Gesture.origin)
                (Scenario.pointer 1 30 40) Gesture.squareNode))) == 2
  /\ globalDistance Js.QMath Gesture.origin Gesture.squareNode
       (Scenario.pointer 1 3 4) == 5
  /\ DraggableResizable.scale
       (DraggableResizable.onResizeMove Js.QMath (Some Gesture.origin)
          (Scenario.pointer 1 3 4)
          (resizeMoves Js.QMath (Some Gesture.origin) []
             (DraggableResizable.onResizeStart Js.QMath (Some Gesture.origin)
                (Scenario.pointer 1 30 40) Gesture.squareNode))) == (1 # 5)
  /\ globalDistance Js.QMath Gesture.origin Gesture.squareNode
       (Scenario.pointer 1 600 800) == 1000
  /\ DraggableResizable.scale
       (DraggableResizable.onResizeMove Js.QMath (Some Gesture.origin)
          (Scenario.pointer 1 600 800)
          (resizeMoves Js.QMath (Some Gesture.origin) []
             (DraggableResizable.onResizeStart Js.QMath (Some Gesture.origin)
                (Scenario.pointer 1 30 40) Gesture.squareNode))) == 8.
Proof.
  assert (H1 : 0 < globalDistance Js.QMath Gesture.origin Gesture.squareNode
                     (Scenario.pointer 1 30 40)) by (vm_compute; reflexivity).
  assert (H2 : 0 < Qmin (width (DraggableResizable.texture Gesture.squareNode))
                        (height (DraggableResizable.texture Gesture.squareNode)))
    by (vm_compute; reflexivity).
  split; [reflexivity|]. split; [exact H1|]. split; [exact H2|].
  split; [vm_compute; reflexivity|]. split; [vm_compute; reflexivity|].
  split; [vm_compute; reflexivity|].
  pose proof (resize_scales_by_distance_ratio Js.QMath Gesture.origin
                Gesture.squareNode (Scenario.pointer 1 30 40)
                (Scenario.pointer 1 60 80) [] eq_refl H1 H2) as H.
  cbv zeta in H. destruct H as (_ & _ & _ & _ & _ & _ & _ & Hin & _ & _).
  split; [rewrite Hin; vm_compute; try reflexivity; discriminate|].
  split; [vm_compute; reflexivity|].
  pose proof (resize_scales_by_distance_ratio Js.QMath Gesture.origin
                Gesture.squareNode (Scenario.pointer 1 30 40)
                (Scenario.pointer 1 3 4) [] eq_refl H1 H2) as H.
  cbv zeta in H. destruct H as (_ & _ & _ & _ & _ & _ & _ & _ & Hfloor & _).
  split; [rewrite Hfloor; vm_compute; try reflexivity; discriminate|].
  split; [vm_compute; reflexivity|].
  pose proof (resize_scales_by_distance_ratio Js.QMath Gesture.origin
                Gesture.squareNode (Scenario.pointer 1 30 40)
                (Scenario.pointer 1 600 800) [] eq_refl H1 H2) as H.
  cbv zeta in H. destruct H as (_ & _ & _ & _ & _ & _ & _ & _ & _ & Hceil).
  rewrite Hceil; vm_compute; try reflexivity; discriminate.
Defined.


(** The dragged photo is saved and loaded again. *)
Lemma roundtrip_scenario :
  exists cd,
    saveToAPI Scenario.draggedPhoto = Some cd
    /\ Forall (valid_image Scenario.assets (imageNodes Scenario.draggedPhoto))
         (images Scenario.draggedPhoto)
    /\ exists s',
         loadCanvasData Scenario.assets cd initial = Returned s'
         /\ Forall2 restored (liveImages Scenario.draggedPhoto) (liveImages s')
         /\ container s' = container Scenario.draggedPhoto.
Proof.
  eexists.
  assert (Hsave : saveToAPI Scenario.draggedPhoto = Some _) by (vm_compute; reflexivity).
  assert (Hvalid : Forall (valid_image Scenario.assets (imageNodes Scenario.draggedPhoto))
                     (images Scenario.draggedPhoto)).
  { repeat constructor.
    - eexists. reflexivity.
    - eexists. split; [reflexivity|]. vm_compute. reflexivity. }
  split; [exact Hsave|]. split; [exact Hvalid|].
  exact (proj1 (save_then_load_restores_images Scenario.assets Scenario.assets
                  Scenario.draggedPhoto initial _ None Hsave Hvalid Hvalid)).
Defined.

(** Three triggers on a canvas with one photo, 500 ms and 1999 ms apart,
    then quiet: one save, 2000 ms after the last trigger. *)
Lemma burst_scenario :
  let w0 := start Scenario.onePhoto None in
  let periods := [[Wait 500]; [Change Scenario.nudge; Wait 1999]] in
  let pre := [Wait 1000; Change Scenario.nudge] in
  settled w0
  /\ Forall (fun p => (elapsed p < 2000)%N) periods
  /\ (elapsed pre < 2000)%N
  /\ (2000 <= elapsed pre + 1000)%N
  /\ nonempty_canvas (state (burst periods w0))
  /\ nonempty_canvas (changes pre (state (burst periods w0)))
  /\ (called_at <$>
        saveCalls (quiet (pre ++ Wait 1000 :: [Wait 5000])
                     (debouncedAutoSave (burst periods w0))))
     = [4499%N].
Proof.
  intros w0 periods pre.
  assert (H1 : settled w0) by (split; [simpl; lia | left; reflexivity]).
  assert (H2 : Forall (fun p => (elapsed p < 2000)%N) periods)
    by (repeat constructor).
  assert (H3 : (elapsed pre < 2000)%N) by reflexivity.
  assert (H4 : (2000 <= elapsed pre + 1000)%N) by (vm_compute; discriminate).
  assert (H5 : nonempty_canvas (state (burst periods w0)))
    by (left; vm_compute; discriminate).
  assert (H6 : nonempty_canvas (changes pre (state (burst periods w0))))
    by (left; vm_compute; discriminate).
  repeat (split; [assumption|]).
  rewrite (burst_saves_once w0 periods pre [Wait 5000] 1000 H1 H2 H3 H4 H5 H6).
  reflexivity.
Defined.

(** Three image entries, one with a reference that does not resolve. *)
Lemma three_images_scenario :
  CanvasData.images Scenario.threeImages
  = Some [Scenario.storedPhoto "a" "photo.png";
          Scenario.storedPhoto "b" "missing.png";
          Scenario.storedPhoto "c" "square.png"]
  /\ length (liveImages (final (loadCanvasData Scenario.assets Scenario.threeImages initial)))
     = 2%nat
  /\ length (liveImages (loadFromAPI Scenario.assets (Some Scenario.threeImages) initial))
     = 2%nat
  /\ snd (importFromJSON Scenario.assets Scenario.threeImages initial) = false.
Proof.
  pose proof (load_skips_failing_images Scenario.assets Scenario.assets
                Scenario.threeImages _ initial eq_refl)
    as (Himport & _ & Hfile & Hapi).
  split; [reflexivity|].
  split; [exact (Hfile eq_refl eq_refl)|]. split; [exact (Hapi eq_refl eq_refl)|].
  destruct Himport as (s' & _ & Himp & _). rewrite Himp. reflexivity.
Defined.

(** The wheel turned by -100 over a selected 800 x 400 photo at scale 1/4:
    the scale goes to 0.25 * 1.0015^100, a little over 0.29. *)
Lemma wheel_scenario :
  exists selected c,
    selectedImage (state (start Scenario.selectedPhoto None)) = Some selected
    /\ imageNodes (state (start Scenario.selectedPhoto None))
         !! DraggableImage.node selected = Some c
    /\ imageNodes
         (state (handleWheel Js.QMath Scenario.wheelUp
                   (start Scenario.selectedPhoto None)))
         !! DraggableImage.node selected
       = Some (map_image_node
                 (DraggableResizable.setScale
                    (wheelScale Js.QMath Scenario.wheelUp (image_node c))) c)
    /\ 0 < Qmin (width (DraggableResizable.texture (image_node c)))
                (height (DraggableResizable.texture (image_node c)))
    /\ DraggableResizable.scale (image_node c) == 1 # 4
    /\ (29 # 100) < wheelScale Js.QMath Scenario.wheelUp (image_node c)
    /\ wheelScale Js.QMath Scenario.wheelUp (image_node c) < 30 # 100.
Proof.
  eexists. eexists.
  split; [reflexivity|]. split; [reflexivity|].
  assert (Htex : 0 < Qmin (width Scenario.photo) (height Scenario.photo))
    by (vm_compute; reflexivity).
  split.
  - exact (proj1 (wheel_scales_selected_image Js.QMath Scenario.wheelUp
                    (start Scenario.selectedPhoto None) _ _ eq_refl eq_refl Htex)).
  - split; [exact Htex|]. repeat split; vm_compute; reflexivity.
Defined.

(** * Further properties *)

(** ** The end of a gesture on an image node *)

Section ImageGestureEnd.

Import DraggableResizable.

Lemma same_pointer_other (a b : Z) : a <> b -> same_pointer a (Some b) = false.
Proof. intros H. simpl. apply Z.eqb_neq. exact H. Qed.

(** X1.  A drag of an image belongs to the pointer that started it: while it
    lasts, neither a move nor a release of another pointer has any effect.
    The release of the dragging pointer emits exactly one ['moved'] with the
    position the node has reached and leaves the node there; after it no
    pointer move moves the node and no further release emits anything. *)
Theorem drag_end_reports_final_position (n0 : t)
    (e0 e other : FederatedPointerEvent) (moves : list FederatedPointerEvent) :
  pointerId e = pointerId e0 ->
  pointerId other <> pointerId e0 ->
  let n1 := dragMoves moves (onDragStart e0 n0) in
  let n2 := fst (onDragEnd e n1) in
  onDragMove other n1 = n1
  /\ onDragEnd other n1 = (n1, [])
  /\ snd (onDragEnd e n1) = [Moved (x n1) (y n1)]
  /\ x n2 = x n1 /\ y n2 = y n1 /\ scale n2 = scale n1
  /\ dragging n2 = false
  /\ (forall e', onDragMove e' n2 = n2)
  /\ (forall e', onDragEnd e' n2 = (n2, [])).
Proof.
  intros He Ho n1 n2.
  destruct (dragMoves_keeps_grab moves (onDragStart e0 n0)) as (Hd & Hp & _).
  fold n1 in Hd, Hp. simpl in Hd, Hp.
  assert (Hend : onDragEnd e n1
                 = (with_drag n1 false None (dragOffset n1), [Moved (x n1) (y n1)])).
  { unfold onDragEnd. rewrite Hp, He, same_pointer_refl. reflexivity. }
  split; [|split].
  - unfold onDragMove. rewrite Hp, (same_pointer_other _ _ Ho), orb_true_r.
    reflexivity.
  - unfold onDragEnd. rewrite Hp, (same_pointer_other _ _ Ho). reflexivity.
  - subst n2. rewrite Hend. simpl.
    repeat split; reflexivity.
Qed.

(** X2.  A resize of an image belongs to the pointer that grabbed the
    handle: moves and releases of another pointer are ignored.  The release
    of the resizing pointer emits exactly one ['resized'] with the scale the
    node has reached, leaves scale and position as they are, and ends the
    gesture: later moves no longer scale the node. *)
Theorem resize_end_reports_final_scale (M : Js.Math) (parent : option Point)
    (n0 : t) (e0 e other : FederatedPointerEvent)
    (moves : list FederatedPointerEvent) :
  pointerId e = pointerId e0 ->
  pointerId other <> pointerId e0 ->
  let n1 := resizeMoves M parent moves (onResizeStart M parent e0 n0) in
  let n2 := fst (onResizeEnd e n1) in
  onResizeMove M parent other n1 = n1
  /\ onResizeEnd other n1 = (n1, [])
  /\ snd (onResizeEnd e n1) = [Resized (scale n1)]
  /\ scale n2 = scale n1 /\ x n2 = x n1 /\ y n2 = y n1
  /\ resizing n2 = false
  /\ (forall e', onResizeMove M parent e' n2 = n2)
  /\ (forall e', onResizeEnd e' n2 = (n2, [])).
Proof.
  intros He Ho n1 n2.
  destruct (resizeMoves_keeps_gesture M parent moves (onResizeStart M parent e0 n0))
    as (_ & _ & _ & Hr & Hp & _).
  fold n1 in Hr, Hp.
  assert (Hr' : resizing n1 = true).
  { rewrite Hr. unfold onResizeStart. destruct parent; reflexivity. }
  assert (Hp' : resizePointerId n1 = Some (pointerId e0)).
  { rewrite Hp. unfold onResizeStart. destruct parent; reflexivity. }
  assert (Hend : onResizeEnd e n1
                 = (with_resize n1 false None (startProj n1) (startScale n1),
                    [Resized (scale n1)])).
  { unfold onResizeEnd. rewrite Hp', He, same_pointer_refl. reflexivity. }
  split; [|split].
  - unfold onResizeMove. destruct parent; [|reflexivity].
    rewrite Hp', (same_pointer_other _ _ Ho), orb_true_r. reflexivity.
  - unfold onResizeEnd. rewrite Hp', (same_pointer_other _ _ Ho). reflexivity.
  - subst n2. rewrite Hend. simpl.
    repeat split; try reflexivity.
    intros e'. unfold onResizeMove. destruct parent; reflexivity.
Qed.

End ImageGestureEnd.

(** ** Dragging a text node *)

Section TextDrag.

Import DraggableResizableText.


End TextDrag.

(** ** The frame and the size of an image on the screen *)

Lemma half_mult (v : Q) : v / 2 == v * (1 # 2).
Proof. field. Qed.

Section ImageOnScreen.

Import DraggableResizable.

(** X4.  An image whose scale is not below the lower bound of its
    constraints, up to one part in 10^9, is drawn at least 20 pixels wide
    and high, up to one part in 10^6.  That is more than the 16 pixels of
    the handle: the handle lies within the selection frame, and the hit area
    of the handle contains the handle. *)
Theorem handle_fits_inside_frame (n : t) :
  0 < width (texture n) ->
  0 < height (texture n) ->
  (1 - scaleSlack) * min (getScaleConstraints n) <= scale n ->
  let d := ImageFrame._redrawFrame n in
  20 * (1 - sizeSlack) <= rect_width (ImageFrame.frame d)
  /\ 20 * (1 - sizeSlack) <= rect_height (ImageFrame.frame d)
  /\ inside (ImageFrame.handle d) (ImageFrame.frame d)
  /\ inside (ImageFrame.handle d) (ImageFrame.hitArea d).
Proof.
  intros Hw Hh Hlo d.
  unfold getScaleConstraints in Hlo. cbn [min] in Hlo.
  unfold scaleSlack in Hlo. unfold sizeSlack.
  set (m := Qmin (width (texture n)) (height (texture n))) in *.
  assert (Hm : 0 < m).
  { unfold m. apply Q.min_glb_lt; assumption. }
  assert (Hq : 0 < 20 / m).
  { apply Qlt_shift_div_l; lra. }
  assert (Hs : 0 < scale n).
  { assert (20 / m <= Qmax 0.05 (20 / m)) by apply Q.le_max_r.
    generalize dependent (Qmax 0.05 (20 / m)). intros k Hk Hle.
    nra. }
  assert (H20 : 20 * (1 - (1 # 1000000000)) <= scale n * m).
  { assert (Hle : (1 - (1 # 1000000000)) * (20 / m) <= scale n).
    { assert (20 / m <= Qmax 0.05 (20 / m)) by apply Q.le_max_r.
      generalize dependent (Qmax 0.05 (20 / m)). intros k Hk Hle.
      nra. }
    assert (Hmm : 20 * (1 - (1 # 1000000000))
                  == (1 - (1 # 1000000000)) * (20 / m) * m) by (field; lra).
    rewrite Hmm. apply Qmult_le_compat_r; lra. }
  assert (HW : 20 * (1 - (1 # 1000000)) <= width (texture n) * scale n).
  { assert (m <= width (texture n)) by apply Q.le_min_l.
    assert (scale n * m <= scale n * width (texture n)).
    { rewrite !(Qmult_comm (scale n)). apply Qmult_le_compat_r; lra. }
    lra. }
  assert (HH : 20 * (1 - (1 # 1000000)) <= height (texture n) * scale n).
  { assert (m <= height (texture n)) by apply Q.le_min_r.
    assert (scale n * m <= scale n * height (texture n)).
    { rewrite !(Qmult_comm (scale n)). apply Qmult_le_compat_r; lra. }
    lra. }
  subst d. unfold ImageFrame._redrawFrame, inside. cbn.
  generalize dependent (width (texture n) * scale n). intros W HW.
  generalize dependent (height (texture n) * scale n). intros H HH.
  rewrite !half_mult.
  assert (HnW : - W / 2 == - (W * (1 # 2))) by field.
  assert (HnH : - H / 2 == - (H * (1 # 2))) by field.
  rewrite HnW, HnH.
  repeat split; lra.
Qed.

(** X5.  A new image is never enlarged: its scale is positive and at most
    1.  A texture that fits in 200 pixels is drawn at its own size.  A
    larger one gets the scale 200 / max(width, height), and is drawn with
    its longer side at 200 pixels up to one part in 10^6; neither side is
    drawn longer than that. *)
Theorem new_image_fits_200 (tex : Texture) (id0 : string) :
  0 < width tex ->
  0 < height tex ->
  let n := new tex id0 in
  let f := ImageFrame.frame (ImageFrame._redrawFrame n) in
  0 < scale n
  /\ scale n <= 1
  /\ rect_width f <= 200 * (1 + sizeSlack)
  /\ rect_height f <= 200 * (1 + sizeSlack)
  /\ (Qmax (width tex) (height tex) <= 200 ->
      scale n == 1
      /\ rect_width f == width tex
      /\ rect_height f == height tex)
  /\ (200 <= Qmax (width tex) (height tex) ->
      scale n == 200 / Qmax (width tex) (height tex)
      /\ 200 * (1 - sizeSlack) <= Qmax (rect_width f) (rect_height f)
      /\ Qmax (rect_width f) (rect_height f) <= 200 * (1 + sizeSlack)).
Proof.
  intros Hw Hh n f. unfold sizeSlack.
  assert (Hn : scale n = Qmin 1 (200 / Qmax (width tex) (height tex)))
    by reflexivity.
  assert (Hf : rect_width f = width tex * scale n
               /\ rect_height f = height tex * scale n) by (split; reflexivity).
  destruct Hf as [Hfw Hfh]. rewrite Hfw, Hfh. clear Hfw Hfh.
  set (M := Qmax (width tex) (height tex)) in *.
  assert (HM : 0 < M).
  { unfold M. eapply Qlt_le_trans; [exact Hw | apply Q.le_max_l]. }
  assert (HwM : width tex <= M) by apply Q.le_max_l.
  assert (HhM : height tex <= M) by apply Q.le_max_r.
  assert (Hq : 0 < 200 / M).
  { apply Qlt_shift_div_l; lra. }
  assert (Hpos : 0 < scale n).
  { rewrite Hn. apply Q.min_glb_lt; lra. }
  assert (Hle1 : scale n <= 1).
  { rewrite Hn. apply Q.le_min_l. }
  assert (HsM : scale n * M <= 200).
  { assert (scale n <= 200 / M) by (rewrite Hn; apply Q.le_min_r).
    assert (H200 : 200 == 200 / M * M) by (field; lra).
    rewrite H200. apply Qmult_le_compat_r; lra. }
  assert (Hsw : width tex * scale n <= scale n * M).
  { rewrite (Qmult_comm (scale n)). apply Qmult_le_compat_r; lra. }
  assert (Hsh : height tex * scale n <= scale n * M).
  { rewrite (Qmult_comm (scale n)). apply Qmult_le_compat_r; lra. }
  split; [exact Hpos|]. split; [exact Hle1|].
  split; [lra|]. split; [lra|]. split.
  - intros Hsmall.
    assert (Hs : scale n == 1).
    { rewrite Hn. apply Q.min_l. apply Qle_shift_div_l; lra. }
    split; [exact Hs|]. rewrite Hs. split; ring.
  - intros Hbig.
    assert (Hs : scale n == 200 / M).
    { rewrite Hn. apply Q.min_r. apply Qle_shift_div_r; lra. }
    assert (HMs : M * scale n == 200).
    { rewrite Hs. field. lra. }
    split; [exact Hs|].
    assert (Hlong : Qmax (width tex * scale n) (height tex * scale n) == 200).
    { destruct (Qlt_le_dec (width tex) (height tex)) as [Hlt|Hge].
      + assert (HMh : M == height tex) by (unfold M; apply Q.max_r; lra).
        rewrite Q.max_r.
        * rewrite <- HMh. exact HMs.
        * apply Qmult_le_compat_r; lra.
      + assert (HMw : M == width tex) by (unfold M; apply Q.max_l; lra).
        rewrite Q.max_l.
        * rewrite <- HMw. exact HMs.
        * apply Qmult_le_compat_r; lra. }
    rewrite Hlong. split; lra.
Qed.


End ImageOnScreen.

(** ** Dropping an image, panning, clicking the background *)





Lemma lookup_alter_is_Some {A} (f : A -> A) (l : list A) (i j : nat) (a : A) :
  l !! i = Some a -> exists b, alter f j l !! i = Some b.
Proof.
  intros H. destruct (decide (j = i)) as [->|Hne].
  - rewrite list_lookup_alter_eq, H. cbn. eauto.
  - rewrite list_lookup_alter_ne by exact Hne. eauto.
Qed.

(** X9.  A click on the background deselects everything, but hides the
    frame of the selected image only: after a click on a text (whose sprite
    exists) and then on the background nothing is selected and the frame of
    the text is still shown, whereas after a click on an image and then on
    the background the frame of the image is hidden. *)
Theorem background_click_leaves_text_frame (e : FederatedPointerEvent)
    (s : State) (tref iref : nat) (tc : TextCell) (ic : ImageCell) (sc : Q) :
  textNodes s !! tref = Some tc ->
  DraggableResizableText.text (text_node tc) = Some sc ->
  imageNodes s !! iref = Some ic ->
  (let s' := backgroundPointerDown e (textClicked tref s) in
   selectedCount s' = 0%nat
   /\ exists c, textNodes s' !! tref = Some c
                /\ DraggableResizableText.frame_visible (text_node c) = true)
  /\ (let s' := backgroundPointerDown e (imageClicked iref s) in
      selectedCount s' = 0%nat
      /\ exists c, imageNodes s' !! iref = Some c
                   /\ DraggableResizable.frame_visible (image_node c) = false).
Proof.
  intros Ht Hsc Hi. split.
  - cbn zeta. split.
    + unfold backgroundPointerDown, selectedCount. cbn.
      destruct (selectedImage (textClicked tref s)); reflexivity.
    + assert (Hshown : exists c,
                textNodes (textClicked tref s) !! tref = Some c
                /\ DraggableResizableText.frame_visible (text_node c) = true).
      { unfold textClicked. rewrite Ht, Hsc.
        cbn [textNodes setSelectedText set_textNodes].
        unfold show_text.
        match goal with
        | |- context [alter ?f tref ?h] =>
            assert (Hlk : exists c0, h !! tref = Some c0)
        end.
        { destruct (text_seen_selectedImage tc), (text_seen_selectedText tc); cbn;
            unfold hide_text; eauto using lookup_alter_is_Some. }
        destruct Hlk as (c0 & Hc0).
        rewrite list_lookup_alter_eq, Hc0. cbn. eexists. split; reflexivity. }
      destruct Hshown as (c & Hc & Hv).
      exists c. split; [|exact Hv].
      unfold backgroundPointerDown. cbn.
      destruct (selectedImage (textClicked tref s)); exact Hc.
  - cbn zeta. split.
    + unfold backgroundPointerDown, selectedCount. cbn.
      destruct (selectedImage (imageClicked iref s)); reflexivity.
    + unfold imageClicked. rewrite Hi.
      unfold backgroundPointerDown. cbn.
      unfold hide_image, show_image.
      rewrite list_lookup_alter_eq.
      match goal with
      | |- context [alter ?f iref ?h] =>
          assert (Hlk : exists c0, h !! iref = Some c0)
      end.
      { destruct (image_seen_selectedImage ic) as [si|]; [|eauto].
        destruct (negb _); eauto using lookup_alter_is_Some. }
      destruct Hlk as (c0 & Hc0).
      rewrite list_lookup_alter_eq, Hc0. cbn. eexists. split; reflexivity.
Qed.

(** ** Records and nodes stay in step *)

Lemma afterCommit_state (previous : nat) (w : World) :
  state (afterCommit previous w) = state w.
Proof.
  unfold afterCommit.
  destruct (_ && _); [apply debouncedAutoSave_frame | reflexivity].
Qed.

Lemma image_alive_in_range heap img :
  image_alive heap img -> (DraggableImage.node img < length heap)%nat.
Proof.
  intros (c & Hc & _). apply lookup_lt_Some in Hc. exact Hc.
Qed.

Lemma image_alive_app heap cells img :
  image_alive heap img -> image_alive (heap ++ cells) img.
Proof.
  intros (c & Hc & Hd). exists c. split; [|exact Hd].
  apply lookup_app_l_Some. exact Hc.
Qed.

Lemma NoDup_map_filter {A B} (f : A -> B) (p : A -> bool) (l : list A) :
  NoDup (map f l) -> NoDup (map f (List.filter p l)).
Proof.
  induction l as [|a l IH]; cbn; intros H; [constructor|].
  apply NoDup_cons in H. destruct H as [Hn Hd].
  destruct (p a); cbn; [|auto].
  apply NoDup_cons. split; [|auto].
  intros Hin. apply Hn.
  apply list_elem_of_In in Hin. apply list_elem_of_In.
  apply in_map_iff in Hin. destruct Hin as (b & Hb & Hin).
  apply in_map_iff. exists b. split; [exact Hb|].
  apply filter_In in Hin. tauto.
Qed.

(** X10.  Creating an image keeps the records and the nodes in step: if
    every record points at a node that is on the canvas and no two records
    share a node, this still holds after [createSpriteFromTexture], and so
    after a drop, whether or not its URL resolves. *)
Theorem creation_keeps_images_in_sync (assets : Assets)
    (seen : option DraggableImage.t) (texture : Texture) (x y : Q)
    (imageUrl now : string) (canvas : Point) (s : State) :
  images_in_sync s ->
  images_in_sync (createSpriteFromTexture seen texture x y imageUrl now s)
  /\ images_in_sync (handleDrop assets imageUrl canvas now s)
  /\ length (images (createSpriteFromTexture seen texture x y imageUrl now s))
     = S (length (images s)).
Proof.
  intros [Halive Hnd].
  assert (Hcreate : forall seen texture x y,
            images_in_sync (createSpriteFromTexture seen texture x y imageUrl now s)).
  { intros seen0 texture0 x0 y0. unfold createSpriteFromTexture, images_in_sync.
    cbn. split.
    - apply Forall_app. split.
      + eapply Forall_impl; [exact Halive|].
        intros img Himg. apply image_alive_app. exact Himg.
      + constructor; [|constructor].
        eexists. cbn. split; [apply list_lookup_middle; reflexivity|reflexivity].
    - rewrite map_app. cbn.
      apply NoDup_app. split; [exact Hnd|]. split.
      + intros n Hn Hin. apply list_elem_of_In in Hn.
        apply list_elem_of_In in Hin. cbn in Hin.
        destruct Hin as [<-|[]].
        apply in_map_iff in Hn. destruct Hn as (img & Himg & Hin).
        rewrite Forall_forall in Halive.
        apply list_elem_of_In in Hin.
        specialize (Halive img Hin). apply image_alive_in_range in Halive. lia.
      + apply NoDup_singleton. }
  split; [apply Hcreate|]. split.
  - unfold handleDrop, addImageAtPosition.
    destruct (resolve assets imageUrl); [apply Hcreate|].
    split; assumption.
  - unfold createSpriteFromTexture. cbn. rewrite length_app. cbn. lia.
Qed.

Lemma find_some_first (imageId : string) (l : list DraggableImage.t) img0 :
  find (fun img => String.eqb (DraggableImage.id img) imageId) l = Some img0 ->
  In img0 l /\ DraggableImage.id img0 = imageId.
Proof.
  intros H. apply find_some in H. destruct H as [Hin Heq].
  split; [exact Hin|]. apply String.eqb_eq. exact Heq.
Qed.

Lemma NoDup_map_inj {A B} (f : A -> B) (l : list A) (a b : A) :
  NoDup (map f l) -> In a l -> In b l -> f a = f b -> a = b.
Proof.
  induction l as [|c l IH]; cbn; intros Hnd Ha Hb Hf; [tauto|].
  apply NoDup_cons in Hnd. destruct Hnd as [Hn Hd].
  destruct Ha as [->|Ha], Hb as [->|Hb]; auto.
  - exfalso. apply Hn. apply list_elem_of_In. rewrite Hf.
    apply in_map. exact Hb.
  - exfalso. apply Hn. apply list_elem_of_In. rewrite <- Hf.
    apply in_map. exact Ha.
Qed.

(** X11.  Deleting an image removes every record with that id and keeps
    the others in their order; the records and the nodes stay in step;
    texts are untouched; the selection is cleared exactly when it holds that
    id.  When ids are distinct, the node of the deleted image is destroyed.
    An id that no record has leaves records and nodes as they are. *)
Theorem deletion_keeps_images_in_sync (imageId : string) (w : World) :
  images_in_sync (state w) ->
  let s := state w in
  let s' := state (handleDeleteImage imageId w) in
  images_in_sync s'
  /\ images s'
     = List.filter (fun img => negb (String.eqb (DraggableImage.id img) imageId))
         (images s)
  /\ Forall (fun img => DraggableImage.id img <> imageId) (images s')
  /\ texts s' = texts s
  /\ textNodes s' = textNodes s
  /\ selectedText s' = selectedText s
  /\ container s' = container s
  /\ (forall si, selectedImage s = Some si ->
        DraggableImage.id si = imageId -> selectedImage s' = None)
  /\ (forall si, selectedImage s = Some si ->
        DraggableImage.id si <> imageId -> selectedImage s' = Some si)
  /\ (NoDup (map DraggableImage.id (images s)) ->
      forall img, In img (images s) -> DraggableImage.id img = imageId ->
        exists c, imageNodes s' !! DraggableImage.node img = Some c
                  /\ image_destroyed c = true)
  /\ (Forall (fun img => DraggableImage.id img <> imageId) (images s) ->
      images s' = images s /\ imageNodes s' = imageNodes s).
Proof.
  intros [Halive Hnd] s s'.
  change (Forall (image_alive (imageNodes s)) (images s)) in Halive.
  change (NoDup (map DraggableImage.node (images s))) in Hnd.
  set (heap' :=
         match find (fun img => String.eqb (DraggableImage.id img) imageId)
                 (images s) with
         | Some imageToDelete =>
             alter destroy_image (DraggableImage.node imageToDelete) (imageNodes s)
         | None => imageNodes s
         end).
  set (kept := List.filter
                 (fun img => negb (String.eqb (DraggableImage.id img) imageId))
                 (images s)).
  assert (Hs' : images s' = kept /\ imageNodes s' = heap'
                /\ texts s' = texts s /\ textNodes s' = textNodes s
                /\ selectedText s' = selectedText s
                /\ container s' = container s
                /\ selectedImage s'
                   = match selectedImage s with
                     | Some si =>
                         if String.eqb (DraggableImage.id si) imageId
                         then None else Some si
                     | None => None
                     end).
  { unfold s', handleDeleteImage. rewrite afterCommit_state.
    unfold update. cbn [state set_state].
    destruct (debouncedAutoSave_frame w) as (-> & _).
    fold s. destruct (selectedImage s) as [si|] eqn:Hsel.
    - destruct (String.eqb (DraggableImage.id si) imageId); cbn;
        rewrite ?Hsel; repeat split; reflexivity.
    - cbn. rewrite ?Hsel. repeat split; reflexivity. }
  destruct Hs' as (Hi & Hn & Ht & Htn & Hst & Hc & Hsi).
  assert (Hkept : Forall (fun img => DraggableImage.id img <> imageId) kept).
  { apply Forall_forall. intros img Hin. apply list_elem_of_In in Hin.
    apply filter_In in Hin. destruct Hin as [_ Hne].
    apply negb_true_iff, String.eqb_neq in Hne. exact Hne. }
  split; [|split; [exact Hi|]]; [|split; [rewrite Hi; exact Hkept|]].
  - (* still in step *)
    split.
    + rewrite Hi, Hn. apply Forall_forall. intros img Hin.
      apply list_elem_of_In in Hin.
      apply filter_In in Hin. destruct Hin as [Hin Hne].
      apply negb_true_iff, String.eqb_neq in Hne.
      rewrite Forall_forall in Halive.
      pose proof (Halive img (proj2 (list_elem_of_In _ _) Hin)) as (c & Hlk & Hd).
      unfold heap'.
      destruct (find _ (images s)) as [img0|] eqn:Hfind.
      * apply find_some_first in Hfind. destruct Hfind as [Hin0 Hid0].
        assert (Hnode : DraggableImage.node img0 <> DraggableImage.node img).
        { intros Heq. apply Hne.
          rewrite <- (NoDup_map_inj DraggableImage.node (images s) img0 img);
            auto. }
        exists c. split; [|exact Hd].
        rewrite list_lookup_alter_ne by exact Hnode. exact Hlk.
      * exists c. split; assumption.
    + rewrite Hi. apply NoDup_map_filter. exact Hnd.
  - split; [exact Ht|]. split; [exact Htn|]. split; [exact Hst|].
    split; [exact Hc|]. split; [|split; [|split]].
    + intros si Hsel Hid. rewrite Hsi, Hsel.
      apply String.eqb_eq in Hid. rewrite Hid. reflexivity.
    + intros si Hsel Hid. rewrite Hsi, Hsel.
      apply String.eqb_neq in Hid. rewrite Hid. reflexivity.
    + intros Hids img Hin Hid. rewrite Hn. unfold heap'.
      destruct (find _ (images s)) as [img0|] eqn:Hfind.
      * apply find_some_first in Hfind. destruct Hfind as [Hin0 Hid0].
        assert (img0 = img) as ->.
        { apply (NoDup_map_inj DraggableImage.id (images s)); auto.
          congruence. }
        rewrite Forall_forall in Halive.
        pose proof (Halive img (proj2 (list_elem_of_In _ _) Hin)) as (c & Hlk & Hd).
        rewrite list_lookup_alter_eq, Hlk. cbn. eexists. split; reflexivity.
      * exfalso. apply (find_none _ _ Hfind) in Hin.
        apply String.eqb_neq in Hin. contradiction.
    + intros Hnone.
      assert (Hfind : find (fun img => String.eqb (DraggableImage.id img) imageId)
                        (images s) = None).
      { destruct (find _ (images s)) as [img0|] eqn:Hfind; [|reflexivity].
        apply find_some_first in Hfind. destruct Hfind as [Hin0 Hid0].
        rewrite Forall_forall in Hnone.
        exfalso. apply (Hnone img0); [apply list_elem_of_In; exact Hin0|exact Hid0]. }
      split.
      * rewrite Hi. unfold kept.
        clear - Hnone. induction (images s) as [|a l IH]; [reflexivity|].
        apply Forall_cons in Hnone. destruct Hnone as [Ha Hl].
        cbn. apply String.eqb_neq in Ha. rewrite Ha. cbn. f_equal. auto.
      * rewrite Hn. unfold heap'. rewrite Hfind. reflexivity.
Qed.

(** ** Loading: what is cleared and which texts come back *)

Lemma destroyImages_destroys (l : list DraggableImage.t) :
  forall (heap : list ImageCell) (i : nat) (c : ImageCell),
    heap !! i = Some c ->
    exists c', destroyImages l heap !! i = Some c'
               /\ (image_destroyed c = true -> image_destroyed c' = true)
               /\ (In i (map DraggableImage.node l) -> image_destroyed c' = true).
Proof.
  induction l as [|img l IH]; intros heap i c Hc.
  - exists c. cbn. split; [exact Hc|]. split; [auto|tauto].
  - unfold destroyImages. cbn [fold_left].
    fold (destroyImages l (alter destroy_image (DraggableImage.node img) heap)).
    destruct (decide (DraggableImage.node img = i)) as [Heq|Hne].
    + assert (Hc1 : alter destroy_image (DraggableImage.node img) heap !! i
                    = Some (destroy_image c)).
      { rewrite Heq, list_lookup_alter_eq, Hc. reflexivity. }
      destruct (IH _ _ _ Hc1) as (c' & Hc' & Hkeep & _).
      exists c'. split; [exact Hc'|]. split; intros _; apply Hkeep; reflexivity.
    + assert (Hc1 : alter destroy_image (DraggableImage.node img) heap !! i
                    = Some c).
      { rewrite list_lookup_alter_ne by exact Hne. exact Hc. }
      destruct (IH _ _ _ Hc1) as (c' & Hc' & Hkeep & Hin).
      exists c'. split; [exact Hc'|]. split; [exact Hkeep|].
      cbn. intros [Heq|Hl]; [contradiction|auto].
Qed.

(** X12.  A document without an image list: the file import has cleared the
    canvas before it fails, so it shows its alert and leaves no image and no
    text, nothing selected, the nodes of all former images destroyed and
    the pan already set from the document; the load from the server rejects
    the document before it touches anything. *)
Theorem import_without_images_empties_canvas (textures assets : Assets)
    (d : CanvasData.t) (s : State) :
  CanvasData.images d = None ->
  let r := importFromJSON textures d s in
  snd r = true
  /\ images (fst r) = []
  /\ texts (fst r) = []
  /\ selectedImage (fst r) = None
  /\ selectedText (fst r) = None
  /\ container (fst r) = default (container s) (CanvasData.canvasPosition d)
  /\ (forall img c, In img (images s) ->
        imageNodes s !! DraggableImage.node img = Some c ->
        exists c', imageNodes (fst r) !! DraggableImage.node img = Some c'
                   /\ image_destroyed c' = true)
  /\ loadFromAPI assets (Some d) s = s.
Proof.
  intros Hd r.
  assert (Hr : r = (restorePosition d
                      (setSelectedText None
                         (setTexts []
                            (set_textNodes
                               (destroyTexts (texts s) (textNodes s))
                               (setSelectedImage None
                                  (setImages []
                                     (set_imageNodes
                                        (destroyImages (images s) (imageNodes s))
                                        s)))))), true)).
  { unfold r, importFromJSON, loadCanvasData. rewrite Hd. reflexivity. }
  rewrite Hr. cbn [fst snd].
  unfold restorePosition.
  split; [reflexivity|].
  destruct (CanvasData.canvasPosition d) as [p|]; cbn;
    (repeat (split; [reflexivity|])); (split;
      [ intros img c Hin Hc;
        destruct (destroyImages_destroys (images s) _ _ _ Hc) as (c' & Hc' & _ & Hdes);
        exists c'; split; [exact Hc'|]; apply Hdes, in_map, Hin
      | unfold loadFromAPI, Route.GET; rewrite Hd; reflexivity ]).
Qed.

Lemma new_text_setScale (v : Q) (id0 : string) (x0 y0 : Q) :
  DraggableResizableText.setScale v
    (DraggableResizableText.with_position (DraggableResizableText.new id0) x0 y0)
  = None.
Proof. reflexivity. Qed.

Lemma loadTexts_closed seenImage seenText stored : forall heap loaded,
  loadTexts seenImage seenText stored heap loaded
  = (heap ++ loadedTextCells seenImage seenText stored,
     loaded ++ loadedTextRecords (length heap) stored).
Proof.
  induction stored as [|st rest IH]; intros heap loaded.
  - cbn. rewrite !app_nil_r. reflexivity.
  - cbn [loadTexts loadedTextCells loadedTextRecords]. unfold text_restorable.
    destruct (Js.nonempty (StoredTextData.text st)); cbn [negb andb]; [|apply IH].
    destruct (Js.truthy (StoredTextData.scale st)); cbn [negb].
    + rewrite new_text_setScale. apply IH.
    + rewrite IH. rewrite length_app. cbn [length].
      rewrite <- !app_assoc. cbn [app].
      replace (length heap + 1)%nat with (S (length heap)) by lia.
      reflexivity.
Qed.

Lemma liveTexts_loaded seenImage seenText stored : forall heap,
  omap (liveText (heap ++ loadedTextCells seenImage seenText stored))
       (loadedTextRecords (length heap) stored)
  = map restoredText (List.filter text_restorable stored).
Proof.
  induction stored as [|st rest IH]; intros heap; simpl; [reflexivity|].
  destruct (text_restorable st); [|apply IH].
  simpl. unfold liveText at 1. simpl.
  rewrite list_lookup_middle by reflexivity. simpl.
  f_equal.
  match goal with
  | |- context [heap ++ ?c :: _] => specialize (IH (heap ++ [c]))
  end.
  rewrite length_app, Nat.add_1_r, <- app_assoc in IH. exact IH.
Qed.

Lemma loadedTextRecords_ids stored : forall base,
  map DraggableText.id (loadedTextRecords base stored)
  = map StoredTextData.id (List.filter text_restorable stored).
Proof.
  induction stored as [|st rest IH]; intros base; [reflexivity|].
  cbn. destruct (text_restorable st); cbn; [f_equal|]; apply IH.
Qed.

Lemma destroyTexts_length l : forall heap,
  length (destroyTexts l heap) = length heap.
Proof.
  induction l as [|t l IH]; intros heap; [reflexivity|].
  unfold destroyTexts. cbn [fold_left].
  fold (destroyTexts l (alter destroy_text (DraggableText.node t) heap)).
  rewrite IH. apply length_alter.
Qed.

Lemma loadedTextCells_unready seenImage seenText stored : forall heap,
  Forall (fun t =>
            exists c,
              (heap ++ loadedTextCells seenImage seenText stored)
                !! DraggableText.node t = Some c
              /\ DraggableResizableText.text (text_node c) = None
              /\ text_destroyed c = false)
    (loadedTextRecords (length heap) stored).
Proof.
  induction stored as [|st rest IH]; intros heap; simpl; [constructor|].
  destruct (text_restorable st); [|apply IH].
  match goal with
  | |- context [heap ++ ?c :: _] => specialize (IH (heap ++ [c]))
  end.
  rewrite length_app, Nat.add_1_r, <- app_assoc in IH.
  constructor; [|exact IH].
  eexists. simpl. rewrite list_lookup_middle by reflexivity.
  split; [reflexivity|]. split; reflexivity.
Qed.

(** What [loadCanvasData] makes of the texts of a document. *)
Lemma loadCanvasData_texts textures d stored s :
  CanvasData.images d = Some stored ->
  exists s',
    loadCanvasData textures d s = Returned s'
    /\ texts s' = loadedTextRecords (length (textNodes s))
                    (default [] (CanvasData.texts d))
    /\ liveTexts s'
       = map restoredText
           (List.filter text_restorable (default [] (CanvasData.texts d)))
    /\ Forall (fun t =>
                 exists c, textNodes s' !! DraggableText.node t = Some c
                           /\ DraggableResizableText.text (text_node c) = None
                           /\ text_destroyed c = false)
         (texts s').
Proof.
  intros Hd. unfold loadCanvasData. rewrite Hd.
  rewrite loadImages_closed. rewrite loadTexts_closed.
  eexists. split; [reflexivity|].
  unfold liveTexts, restorePosition.
  destruct (CanvasData.canvasPosition d); simpl;
    rewrite destroyTexts_length;
    (split; [reflexivity|]);
    (split; [rewrite <- (destroyTexts_length (texts s) (textNodes s));
             apply liveTexts_loaded|]);
    rewrite <- (destroyTexts_length (texts s) (textNodes s));
    apply loadedTextCells_unready.
Qed.

Lemma or_else_truthy v : Js.truthy (Js.or_else v 1) = true.
Proof.
  unfold Js.or_else. destruct (Js.truthy v) eqn:H; [exact H|reflexivity].
Qed.

Lemma store_text_scaled heap t st :
  store_text heap t = Some st -> Js.truthy (StoredTextData.scale st) = true.
Proof.
  unfold store_text.
  destruct (text_node <$> heap !! DraggableText.node t) as [n|].
  - destruct (DraggableResizableText.getScale n) as [sc|]; [|discriminate].
    intros [= <-]. simpl. apply or_else_truthy.
  - intros [= <-]. reflexivity.
Qed.

Lemma store_texts_scaled heap l : forall sts,
  store_texts heap l = Some sts ->
  Forall (fun st => Js.truthy (StoredTextData.scale st) = true) sts.
Proof.
  induction l as [|t l IH]; simpl; intros sts H.
  - injection H as <-. constructor.
  - destruct (store_text heap t) as [st|] eqn:Hst; [|discriminate].
    destruct (store_texts heap l) as [sts'|]; [|discriminate].
    injection H as <-. constructor; [|apply IH; reflexivity].
    eapply store_text_scaled, Hst.
Qed.

Lemma store_texts_length heap l : forall sts,
  store_texts heap l = Some sts -> length sts = length l.
Proof.
  induction l as [|t l IH]; simpl; intros sts H.
  - injection H as <-. reflexivity.
  - destruct (store_text heap t) as [st|]; [|discriminate].
    destruct (store_texts heap l) as [sts'|]; [|discriminate].
    injection H as <-. simpl. f_equal. apply IH. reflexivity.
Qed.

Lemma filter_restorable_scaled sts :
  Forall (fun st => Js.truthy (StoredTextData.scale st) = true) sts ->
  List.filter text_restorable sts = [].
Proof.
  induction 1 as [|st sts Hst _ IH]; [reflexivity|].
  simpl. unfold text_restorable at 1. rewrite Hst, andb_false_r. exact IH.
Qed.

(** X13.  Of the texts of an imported document exactly those come back that
    have content and no scale (a missing or zero [scale]), in order, with
    their id, content, position, colour and font; an entry with a scale is
    skipped, because the scale is set on a node whose sprite does not exist
    yet.  The texts that come back have no sprite yet either. *)
Theorem import_restores_only_unscaled_texts (textures : Assets)
    (d : CanvasData.t) (stored : list StoredImageData.t) (s : State) :
  CanvasData.images d = Some stored ->
  exists s',
    importFromJSON textures d s = (s', false)
    /\ liveTexts s'
       = map restoredText
           (List.filter text_restorable (default [] (CanvasData.texts d)))
    /\ map DraggableText.id (texts s')
       = map StoredTextData.id
           (List.filter text_restorable (default [] (CanvasData.texts d)))
    /\ Forall (fun t =>
                 exists c, textNodes s' !! DraggableText.node t = Some c
                           /\ DraggableResizableText.text (text_node c) = None
                           /\ text_destroyed c = false)
         (texts s').
Proof.
  intros Hd.
  destruct (loadCanvasData_texts textures d stored s Hd)
    as (s' & Hret & Htexts & Hlive & Hnodes).
  exists s'. unfold importFromJSON. rewrite Hret.
  split; [reflexivity|]. split; [exact Hlive|]. split; [|exact Hnodes].
  rewrite Htexts. apply loadedTextRecords_ids.
Qed.

(** X14.  No text survives a save followed by an import: [saveToAPI] writes
    every text with a scale (the scale of its sprite, or 1), and the import
    skips every text entry that has one.  The document itself holds one
    entry for each text of the canvas. *)
Theorem saved_texts_are_lost_on_import (textures : Assets) (s s0 : State)
    (cd : CanvasData.t) :
  saveToAPI s = Some cd ->
  exists sts s',
    CanvasData.texts cd = Some sts
    /\ length sts = length (texts s)
    /\ importFromJSON textures cd s0 = (s', false)
    /\ texts s' = []
    /\ liveTexts s' = [].
Proof.
  intros Hsave. unfold saveToAPI in Hsave.
  destruct (store_texts (textNodes s) (texts s)) as [sts|] eqn:Hsts; [|discriminate].
  injection Hsave as <-.
  pose proof (store_texts_scaled _ _ _ Hsts) as Hscaled.
  pose proof (filter_restorable_scaled _ Hscaled) as Hnone.
  destruct (loadCanvasData_texts textures
               {| CanvasData.images :=
                    Some (omap (store_image (imageNodes s)) (images s));
                  CanvasData.texts := Some sts;
                  CanvasData.canvasPosition := Some (container s) |}
               (omap (store_image (imageNodes s)) (images s)) s0 eq_refl)
    as (s' & Hret & Htexts & Hlive & _).
  exists sts, s'. split; [reflexivity|].
  split; [eapply store_texts_length, Hsts|].
  unfold importFromJSON. rewrite Hret. split; [reflexivity|].
  simpl in Htexts, Hlive. rewrite Hnone in Hlive.
  split; [|exact Hlive].
  apply (f_equal (map DraggableText.id)) in Htexts.
  rewrite loadedTextRecords_ids, Hnone in Htexts.
  destruct (texts s'); [reflexivity|discriminate].
Qed.

(** ** Saving texts *)

Lemma store_texts_app heap l1 l2 :
  store_texts heap (l1 ++ l2)
  = match store_texts heap l1, store_texts heap l2 with
    | Some a, Some b => Some (a ++ b)
    | _, _ => None
    end.
Proof.
  induction l1 as [|t l1 IH]; simpl.
  - destruct (store_texts heap l2); reflexivity.
  - destruct (store_text heap t); [|reflexivity].
    rewrite IH.
    destruct (store_texts heap l1), (store_texts heap l2); reflexivity.
Qed.

Lemma store_texts_ext heap heap' l :
  Forall (fun t => heap' !! DraggableText.node t = heap !! DraggableText.node t) l ->
  store_texts heap' l = store_texts heap l.
Proof.
  induction 1 as [|t l Ht _ IH]; [reflexivity|].
  simpl. rewrite IH.
  replace (store_text heap' t) with (store_text heap t); [reflexivity|].
  unfold store_text. rewrite Ht. reflexivity.
Qed.

Lemma or_else_zero v : Js.or_else v 0 == v.
Proof.
  unfold Js.or_else, Js.truthy.
  destruct (Qeq_bool v 0) eqn:Hz; simpl; [|reflexivity].
  apply Qeq_bool_iff in Hz. rewrite Hz. reflexivity.
Qed.

(** X15.  A text that has just been created blocks the save of a canvas
    that could be saved before: until its font has loaded the node has no
    sprite, reading its scale throws, and [saveToAPI] makes no request at
    all.  Once the font has loaded, the canvas is saved with one more text
    entry, which holds the id, the content, the position, the colour and the
    font of the new text and the scale 1; the image entries and the pan are
    as before. *)
Theorem text_is_saved_once_its_font_has_loaded (editorState : EditorState.t)
    (content : string) (x y : Q) (now : string) (s : State)
    (cd : CanvasData.t) :
  saveToAPI s = Some cd ->
  texts_in_range s ->
  let s1 := createTextElement_state editorState content x y now s in
  let s2 := textFontLoaded (length (textNodes s)) s1 in
  saveToAPI s1 = None
  /\ exists sts entry,
       CanvasData.texts cd = Some sts
       /\ saveToAPI s2
          = Some {| CanvasData.images := CanvasData.images cd;
                    CanvasData.texts := Some (sts ++ [entry]);
                    CanvasData.canvasPosition := CanvasData.canvasPosition cd |}
       /\ StoredTextData.id entry = now
       /\ StoredTextData.text entry = content
       /\ StoredTextData.x entry == x
       /\ StoredTextData.y entry == y
       /\ StoredTextData.color entry = EditorState.color editorState
       /\ StoredTextData.fontFamily entry = EditorState.fontFamily editorState
       /\ StoredTextData.scale entry = 1.
Proof.
  intros Hsave Hrange s1 s2.
  unfold saveToAPI in Hsave.
  destruct (store_texts (textNodes s) (texts s)) as [sts|] eqn:Hsts; [|discriminate].
  injection Hsave as <-.
  set (ref := length (textNodes s)).
  set (node0 := DraggableResizableText.with_position
                  (DraggableResizableText.new now) x y).
  set (cell := {| text_node := node0; text_destroyed := false;
                  text_seen_selectedImage := selectedImage s;
                  text_seen_selectedText := selectedText s;
                  text_seen_text := content;
                  text_seen_color := EditorState.color editorState;
                  text_seen_fontFamily := EditorState.fontFamily editorState |}).
  set (newText := {| DraggableText.id := now; DraggableText.node := ref;
                     DraggableText.x := x; DraggableText.y := y;
                     DraggableText.text := content;
                     DraggableText.color := EditorState.color editorState;
                     DraggableText.fontFamily := EditorState.fontFamily editorState |}).
  assert (Hold : forall heap',
            (forall i, (i < ref)%nat -> heap' !! i = textNodes s !! i) ->
            store_texts heap' (texts s) = Some sts).
  { intros heap' Hsame. rewrite <- Hsts. apply store_texts_ext.
    eapply Forall_impl; [exact Hrange|]. intros t Ht. apply Hsame, Ht. }
  assert (H1 : textNodes s1 = textNodes s ++ [cell]
               /\ texts s1 = texts s ++ [newText]
               /\ imageNodes s1 = imageNodes s /\ images s1 = images s
               /\ container s1 = container s) by (repeat split; reflexivity).
  destruct H1 as (H1n & H1t & H1in & H1i & H1c).
  assert (H2 : textNodes s2
               = alter (map_text_node DraggableResizableText.fontLoaded) ref
                   (textNodes s ++ [cell])
               /\ texts s2 = texts s ++ [newText]
               /\ imageNodes s2 = imageNodes s /\ images s2 = images s
               /\ container s2 = container s) by (repeat split; reflexivity).
  destruct H2 as (H2n & H2t & H2in & H2i & H2c).
  split.
  - unfold saveToAPI. rewrite H1n, H1t, store_texts_app.
    rewrite (Hold (textNodes s ++ [cell])).
    + assert (Hnew : store_text (textNodes s ++ [cell]) newText = None).
      { unfold store_text. cbn [DraggableText.node newText].
        unfold ref. rewrite list_lookup_middle by reflexivity. reflexivity. }
      cbn [store_texts]. rewrite Hnew. reflexivity.
    + intros i Hi. apply lookup_app_l. exact Hi.
  - exists sts.
    unfold saveToAPI. rewrite H2n, H2t, H2in, H2i, H2c, store_texts_app.
    rewrite (Hold (alter (map_text_node DraggableResizableText.fontLoaded) ref
                     (textNodes s ++ [cell]))).
    + assert (Hnew : exists entry,
                store_text (alter (map_text_node DraggableResizableText.fontLoaded)
                              ref (textNodes s ++ [cell])) newText = Some entry
                /\ StoredTextData.id entry = now
                /\ StoredTextData.text entry = content
                /\ StoredTextData.x entry == x
                /\ StoredTextData.y entry == y
                /\ StoredTextData.color entry = EditorState.color editorState
                /\ StoredTextData.fontFamily entry
                   = EditorState.fontFamily editorState
                /\ StoredTextData.scale entry = 1).
      { unfold store_text. cbn [DraggableText.node newText].
        rewrite list_lookup_alter_eq.
        unfold ref. rewrite list_lookup_middle by reflexivity.
        eexists. split; [reflexivity|]. cbn.
        split; [reflexivity|]. split; [reflexivity|].
        split; [apply or_else_zero|]. split; [apply or_else_zero|].
        split; [reflexivity|]. split; reflexivity. }
      destruct Hnew as (entry & Hentry & Hrest).
      exists entry. split; [reflexivity|].
      cbn [store_texts]. rewrite Hentry. split; [reflexivity|exact Hrest].
    + intros i Hi. rewrite list_lookup_alter_ne by lia.
      apply lookup_app_l. exact Hi.
Qed.

(** X16.  The first text on an empty canvas is not saved automatically.
    [createTextElement] schedules the save before React commits the new
    text, so the callback of the timer tests the lengths of the render in
    which the canvas was still empty: when the timer fires no save is
    called, however long one waits, as long as nothing else schedules a
    save. *)
Theorem first_text_is_not_autosaved (editorState : EditorState.t)
    (content : string) (x y : Q) (now : string) (w : World)
    (rest : list QuietStep) :
  settled w ->
  images (state w) = [] ->
  texts (state w) = [] ->
  let w' := createTextElement editorState content x y now w in
  length (texts (state w')) = 1%nat
  /\ armed w' (clock w + 2000)%N 0 0
  /\ saveCalls (quiet rest w') = saveCalls w
  /\ file (wait 2000 w') = file w.
Proof.
  intros Hset Hi Ht w'.
  pose proof (debouncedAutoSave_arms w Hset) as Harm.
  rewrite Hi, Ht in Harm. simpl in Harm.
  assert (Harm' : armed w' (clock w + 2000)%N 0 0).
  { unfold w', createTextElement. apply update_armed. exact Harm. }
  split; [|split; [exact Harm'|split]].
  - unfold w', createTextElement, update, createTextElement_state. simpl.
    rewrite Ht. reflexivity.
  - rewrite quiet_unseen; [|right; eexists; exact Harm'].
    reflexivity.
  - destruct Harm' as (id & Htimers & _).
    unfold wait. rewrite Htimers. simpl.
    destruct (due _ _); reflexivity.
Qed.

(** ** The document on its way to the server and back *)

Lemma store_image_some heap img :
  match store_image heap img with
  | Some st =>
      Js.nonempty (DraggableImage.imageUrl img) = true
      /\ StoredImageData.id st = DraggableImage.id img
      /\ StoredImageData.imageUrl st = DraggableImage.imageUrl img
  | None => Js.nonempty (DraggableImage.imageUrl img) = false
  end.
Proof.
  unfold store_image.
  destruct (Js.nonempty (DraggableImage.imageUrl img)); simpl; auto.
Qed.

Lemma store_image_ids heap imgs :
  map StoredImageData.id (omap (store_image heap) imgs)
  = map DraggableImage.id
      (List.filter (fun img => Js.nonempty (DraggableImage.imageUrl img)) imgs)
  /\ map StoredImageData.imageUrl (omap (store_image heap) imgs)
     = map DraggableImage.imageUrl
         (List.filter (fun img => Js.nonempty (DraggableImage.imageUrl img)) imgs).
Proof.
  induction imgs as [|img imgs [IH1 IH2]]; [split; reflexivity|].
  change (omap (store_image heap) (img :: imgs))
    with (match store_image heap img with
          | Some y => y :: omap (store_image heap) imgs
          | None => omap (store_image heap) imgs
          end).
  cbn [List.filter].
  pose proof (store_image_some heap img) as Hst.
  destruct (store_image heap img) as [st|].
  - destruct Hst as (Hurl & Hid & Hu). rewrite Hurl, !map_cons, Hid, Hu.
    split; f_equal; assumption.
  - rewrite Hst. split; assumption.
Qed.

(** X17.  Whatever [saveToAPI] sends holds an image entry for each record
    with a URL, in order, and the pan; it always has an image list, so the
    route accepts it, writes it, and the next GET returns it unchanged.  A
    body without an image list is refused and leaves the stored document as
    it is; without a stored document GET answers with an empty image list
    and the pan (0, 0). *)
Theorem saved_document_reaches_the_route (s : State) (cd : CanvasData.t)
    (f : option CanvasData.t) :
  saveToAPI s = Some cd ->
  (exists stored,
     CanvasData.images cd = Some stored
     /\ map StoredImageData.id stored
        = map DraggableImage.id
            (List.filter (fun img => Js.nonempty (DraggableImage.imageUrl img))
               (images s))
     /\ map StoredImageData.imageUrl stored
        = map DraggableImage.imageUrl
            (List.filter (fun img => Js.nonempty (DraggableImage.imageUrl img))
               (images s)))
  /\ CanvasData.canvasPosition cd = Some (container s)
  /\ Route.POST cd f = (Some cd, true)
  /\ Route.GET (fst (Route.POST cd f)) = cd
  /\ (forall body, CanvasData.images body = None -> Route.POST body f = (f, false))
  /\ CanvasData.images (Route.GET None) = Some []
  /\ CanvasData.canvasPosition (Route.GET None) = Some {| px := 0; py := 0 |}.
Proof.
  intros Hsave. unfold saveToAPI in Hsave.
  destruct (store_texts (textNodes s) (texts s)) as [sts|]; [|discriminate].
  injection Hsave as <-.
  destruct (store_image_ids (imageNodes s) (images s)) as [Hids Hurls].
  split; [eexists; split; [reflexivity|split; assumption]|].
  split; [reflexivity|]. split; [reflexivity|]. split; [reflexivity|].
  split; [|split; reflexivity].
  intros body Hb. unfold Route.POST. rewrite Hb. reflexivity.
Qed.

(** ** The end of a gesture, seen from the component *)

Lemma update_settled f w : settled w -> settled (update f w).
Proof.
  intros [Hpos [Hnone | (T & ci & ct & Harm)]]; split; try exact Hpos.
  - left. exact Hnone.
  - right. exists T, ci, ct. apply update_armed. exact Harm.
Qed.

Lemma rescale_ids (f : DraggableImage.t -> DraggableImage.t)
    (l : list DraggableImage.t) :
  (forall img, DraggableImage.id (f img) = DraggableImage.id img) ->
  map DraggableImage.id (f <$> l) = map DraggableImage.id l.
Proof.
  intros Hf. induction l as [|a l IH]; [reflexivity|].
  rewrite fmap_cons, !map_cons, Hf, IH. reflexivity.
Qed.

(** X18.  For an image whose ['resized'] and ['moved'] listeners are
    attached (a dropped or generated image, or one loaded from the server),
    the release that ends a resize writes the scale of the node into every
    record with its id and into the selection if it holds that id, and the
    release that ends a drag writes the position of the node; either
    schedules a save 2000 ms later, calls none by itself, and neither adds
    nor removes a record. *)
Theorem gesture_end_is_mirrored_and_scheduled (ref : nat)
    (e : FederatedPointerEvent) (w : World) (c : ImageCell) :
  settled w ->
  imageNodes (state w) !! ref = Some c ->
  image_persists c = true ->
  let n := image_node c in
  (DraggableResizable.resizePointerId n = Some (pointerId e) ->
   let w' := imageResizeEnd ref e w in
   armed w' (clock w + 2000)%N
     (length (images (state w))) (length (texts (state w)))
   /\ saveCalls w' = saveCalls w
   /\ map DraggableImage.id (images (state w'))
      = map DraggableImage.id (images (state w))
   /\ Forall (fun img =>
                DraggableImage.id img = DraggableResizable.id n ->
                DraggableImage.scale img = DraggableResizable.scale n)
        (images (state w'))
   /\ (forall si, selectedImage (state w) = Some si ->
         DraggableImage.id si = DraggableResizable.id n ->
         exists si', selectedImage (state w') = Some si'
                     /\ DraggableImage.scale si' = DraggableResizable.scale n))
  /\ (DraggableResizable.dragPointerId n = Some (pointerId e) ->
      let w' := imageDragEnd ref e w in
      armed w' (clock w + 2000)%N
        (length (images (state w))) (length (texts (state w)))
      /\ saveCalls w' = saveCalls w
      /\ map DraggableImage.id (images (state w'))
         = map DraggableImage.id (images (state w))
      /\ Forall (fun img =>
                   DraggableImage.id img = DraggableResizable.id n ->
                   DraggableImage.x img = DraggableResizable.x n
                   /\ DraggableImage.y img = DraggableResizable.y n)
           (images (state w'))
      /\ (forall si, selectedImage (state w) = Some si ->
            DraggableImage.id si = DraggableResizable.id n ->
            exists si', selectedImage (state w') = Some si'
                        /\ DraggableImage.x si' = DraggableResizable.x n
                        /\ DraggableImage.y si' = DraggableResizable.y n)).
Proof.
  intros Hset Hc Hp n. split.
  - intros Hptr w'.
    set (n' := DraggableResizable.with_resize n false None
                 (DraggableResizable.startProj n) (DraggableResizable.startScale n)).
    set (w1 := update (fun s => set_imageNodes
                         (alter (map_image_node (fun _ => n')) ref (imageNodes s)) s) w).
    assert (Hw' : w' = resizedListener (DraggableResizable.id n)
                         (DraggableResizable.scale n) w1).
    { unfold w', imageResizeEnd. rewrite Hc.
      unfold DraggableResizable.onResizeEnd. fold n.
      rewrite Hptr, same_pointer_refl. cbn [negb fold_left].
      unfold notify. rewrite Hp. reflexivity. }
    assert (Hset1 : settled w1) by (apply update_settled; exact Hset).
    pose proof (debouncedAutoSave_arms w1 Hset1) as Harm.
    rewrite Hw'. unfold resizedListener.
    split; [apply update_armed; exact Harm|].
    split; [reflexivity|].
    cbn [state update set_state images setImages setSelectedImage selectedImage].
    destruct (debouncedAutoSave_frame w1) as (Hst & _). rewrite Hst.
    cbn [w1 state update set_state images set_imageNodes selectedImage].
    split; [|split].
    + apply rescale_ids. intros img.
      destruct (String.eqb _ _); reflexivity.
    + apply Forall_forall. intros img Hin.
      apply list_elem_of_fmap in Hin. destruct Hin as (img0 & -> & _).
      intros Hid.
      destruct (String.eqb (DraggableImage.id img0) (DraggableResizable.id n)) eqn:Heq;
        [reflexivity|].
      apply String.eqb_neq in Heq. cbn in Hid. contradiction.
    + intros si Hsel Hid. rewrite Hsel. cbn.
      apply String.eqb_eq in Hid. rewrite Hid. eexists. split; reflexivity.
  - intros Hptr w'.
    set (n' := DraggableResizable.with_drag n false None
                 (DraggableResizable.dragOffset n)).
    set (w1 := update (fun s => set_imageNodes
                         (alter (map_image_node (fun _ => n')) ref (imageNodes s)) s) w).
    assert (Hw' : w' = movedListener (DraggableResizable.id n)
                         (DraggableResizable.x n) (DraggableResizable.y n) w1).
    { unfold w', imageDragEnd. rewrite Hc.
      unfold DraggableResizable.onDragEnd. fold n.
      rewrite Hptr, same_pointer_refl. cbn [negb fold_left].
      unfold notify. rewrite Hp. reflexivity. }
    assert (Hset1 : settled w1) by (apply update_settled; exact Hset).
    pose proof (debouncedAutoSave_arms w1 Hset1) as Harm.
    rewrite Hw'. unfold movedListener.
    split; [apply update_armed; exact Harm|].
    split; [reflexivity|].
    cbn [state update set_state images setImages setSelectedImage selectedImage].
    destruct (debouncedAutoSave_frame w1) as (Hst & _). rewrite Hst.
    cbn [w1 state update set_state images set_imageNodes selectedImage].
    split; [|split].
    + apply rescale_ids. intros img.
      destruct (String.eqb _ _); reflexivity.
    + apply Forall_forall. intros img Hin.
      apply list_elem_of_fmap in Hin. destruct Hin as (img0 & -> & _).
      intros Hid.
      destruct (String.eqb (DraggableImage.id img0) (DraggableResizable.id n)) eqn:Heq;
        [split; reflexivity|].
      apply String.eqb_neq in Heq. cbn in Hid. contradiction.
    + intros si Hsel Hid. rewrite Hsel. cbn.
      apply String.eqb_eq in Hid. rewrite Hid. eexists. split; [reflexivity|].
      split; reflexivity.
Qed.

Lemma loadedCells_cells assets seen persists stored : forall heap,
  Forall (fun img =>
            exists c,
              (heap ++ loadedCells assets seen persists stored)
                !! DraggableImage.node img = Some c
              /\ image_persists c = persists
              /\ image_destroyed c = false
              /\ (length heap <= DraggableImage.node img)%nat)
    (loadedRecords assets (length heap) stored).
Proof.
  induction stored as [|st rest IH]; intros heap; simpl; [constructor|].
  destruct (loadable assets st) as [texture|]; [|apply IH].
  match goal with
  | |- context [heap ++ ?c :: _] => specialize (IH (heap ++ [c]))
  end.
  rewrite length_app, Nat.add_1_r, <- app_assoc in IH.
  constructor.
  - eexists. simpl. rewrite list_lookup_middle by reflexivity.
    split; [reflexivity|]. split; [reflexivity|]. split; [reflexivity|]. lia.
  - eapply Forall_impl; [exact IH|].
    intros img (c & Hc & Hp & Hd & Hle). exists c. simpl in Hc.
    split; [exact Hc|]. split; [exact Hp|]. split; [exact Hd|]. lia.
Qed.

Lemma loadedRecords_NoDup assets stored : forall base,
  NoDup (map DraggableImage.node (loadedRecords assets base stored))
  /\ Forall (fun img => (base <= DraggableImage.node img)%nat)
       (loadedRecords assets base stored).
Proof.
  induction stored as [|st rest IH]; intros base; simpl.
  - split; constructor.
  - destruct (loadable assets st) as [texture|]; [|apply IH].
    destruct (IH (S base)) as [Hnd Hge]. simpl. split.
    + apply NoDup_cons. split; [|exact Hnd].
      intros Hin. apply list_elem_of_In, in_map_iff in Hin.
      destruct Hin as (img & Hnode & Hin).
      rewrite Forall_forall in Hge.
      apply list_elem_of_In in Hin. specialize (Hge img Hin). lia.
    + constructor; [simpl; lia|].
      eapply Forall_impl; [exact Hge|]. intros img H. simpl in H. lia.
Qed.

(** X19.  An image loaded by a file import has no ['resized'] and no
    ['moved'] listener: every record the import makes points at a node
    without them, and for such a node the end of a resize or of a drag
    leaves the records, the selection, the timers and the save calls as they
    are, so the edit is neither mirrored into the state nor saved; the node
    stays without listeners. *)
Theorem imported_images_are_not_mirrored (textures : Assets)
    (d : CanvasData.t) (s s' : State) :
  loadCanvasData textures d s = Returned s' ->
  Forall (fun img =>
            exists c, imageNodes s' !! DraggableImage.node img = Some c
                      /\ image_persists c = false)
    (images s')
  /\ (forall (w : World) (ref : nat) (c : ImageCell) (e : FederatedPointerEvent)
             (w' : World),
        imageNodes (state w) !! ref = Some c ->
        image_persists c = false ->
        w' = imageResizeEnd ref e w \/ w' = imageDragEnd ref e w ->
        timers w' = timers w
        /\ saveDebounceRef w' = saveDebounceRef w
        /\ saveCalls w' = saveCalls w
        /\ images (state w') = images (state w)
        /\ selectedImage (state w') = selectedImage (state w)
        /\ exists c', imageNodes (state w') !! ref = Some c'
                      /\ image_persists c' = false).
Proof.
  intros Hload. split.
  - unfold loadCanvasData in Hload.
    destruct (CanvasData.images d) as [stored|] eqn:Hd; [|discriminate].
    rewrite loadImages_closed in Hload.
    match type of Hload with
    | context [loadTexts ?a ?b ?c ?h ?l] =>
        destruct (loadTexts a b c h l) as [theap loadedTexts]
    end.
    injection Hload as <-. simpl.
    eapply Forall_impl; [apply loadedCells_cells|].
    intros img (c & Hc & Hp & _). exists c. split; [exact Hc|exact Hp].
  - intros w ref c e w' Hc Hp [-> | ->].
    + unfold imageResizeEnd. rewrite Hc.
      destruct (DraggableResizable.onResizeEnd e (image_node c)) as [n evs].
      assert (Hfold : forall evs w0,
                fold_left (fun w ev => notify c ev w) evs w0 = w0).
      { intros evs0. induction evs0 as [|ev evs0 IH]; intros w0; [reflexivity|].
        simpl. unfold notify at 2. rewrite Hp. apply IH. }
      rewrite Hfold. simpl.
      repeat (split; [reflexivity|]).
      rewrite list_lookup_alter_eq, Hc. simpl. eexists. split; [reflexivity|exact Hp].
    + unfold imageDragEnd. rewrite Hc.
      destruct (DraggableResizable.onDragEnd e (image_node c)) as [n evs].
      assert (Hfold : forall evs w0,
                fold_left (fun w ev => notify c ev w) evs w0 = w0).
      { intros evs0. induction evs0 as [|ev evs0 IH]; intros w0; [reflexivity|].
        simpl. unfold notify at 2. rewrite Hp. apply IH. }
      rewrite Hfold. simpl.
      repeat (split; [reflexivity|]).
      rewrite list_lookup_alter_eq, Hc. simpl. eexists. split; [reflexivity|exact Hp].
Qed.

(** X20.  Whatever the canvas held before, both loaders leave the records
    and the nodes in step: every image record they make points at a node of
    its own that is on the canvas.  The load from the server attaches the
    listeners that mirror and save later edits to every node it makes. *)
Theorem loaders_leave_images_in_sync (textures assets : Assets)
    (d : CanvasData.t) (stored : list StoredImageData.t) (s : State) :
  CanvasData.images d = Some stored ->
  images_in_sync (final (loadCanvasData textures d s))
  /\ images_in_sync (loadFromAPI assets (Some d) s)
  /\ Forall (fun img =>
               exists c, imageNodes (loadFromAPI assets (Some d) s)
                           !! DraggableImage.node img = Some c
                         /\ image_persists c = true)
       (images (loadFromAPI assets (Some d) s)).
Proof.
  intros Hd.
  assert (Hsync : forall (assets0 : Assets) seen persists heap,
            Forall (image_alive (heap ++ loadedCells assets0 seen persists stored))
              (loadedRecords assets0 (length heap) stored)).
  { intros assets0 seen persists heap.
    eapply Forall_impl; [apply loadedCells_cells|].
    intros img (c & Hc & _ & Hdes & _). exists c. split; eassumption. }
  split; [|split].
  - unfold loadCanvasData. rewrite Hd, loadImages_closed.
    match goal with
    | |- context [loadTexts ?a ?b ?c ?h ?l] =>
        destruct (loadTexts a b c h l) as [theap loadedTexts]
    end.
    simpl. split; simpl.
    + apply Hsync.
    + apply loadedRecords_NoDup.
  - unfold loadFromAPI. simpl Route.GET. rewrite Hd, loadImages_closed.
    split; simpl.
    + apply Hsync.
    + apply loadedRecords_NoDup.
  - unfold loadFromAPI. simpl Route.GET. rewrite Hd, loadImages_closed. simpl.
    eapply Forall_impl; [apply loadedCells_cells|].
    intros img (c & Hc & Hp & _). exists c. split; [exact Hc|exact Hp].
Qed.

(** ** An image updated by the generation panel *)

Lemma find_fmap_retarget (imageId url : string) (l : list DraggableImage.t) :
  find (fun img => String.eqb (DraggableImage.id img) imageId)
    ((fun img => if String.eqb (DraggableImage.id img) imageId
                 then with_imageUrl img url else img) <$> l)
  = (fun img => with_imageUrl img url)
      <$> find (fun img => String.eqb (DraggableImage.id img) imageId) l.
Proof.
  induction l as [|a l IH]; [reflexivity|].
  rewrite fmap_cons. cbn [find].
  destruct (String.eqb (DraggableImage.id a) imageId) eqn:Ha.
  - cbn. rewrite Ha. reflexivity.
  - rewrite Ha. exact IH.
Qed.

(** X21.  After the generation panel has replaced the picture of an image,
    every record with that id holds the new URL, the other records are as
    they were, and the selection holds the new URL if it holds that id.  But
    the click listener of the node still holds the URL the image was created
    with: a later click on the image selects it with the old URL, while a
    double click, which looks the record up, selects it with the new one. *)
Theorem updated_image_is_reselected_with_old_url (texture : option Texture)
    (imageId newImageUrl : string) (w : World) (ref : nat) (c : ImageCell) :
  imageNodes (state w) !! ref = Some c ->
  let w' := handleGeminiImageUpdated texture imageId newImageUrl w in
  map DraggableImage.id (images (state w'))
  = map DraggableImage.id (images (state w))
  /\ Forall (fun img => DraggableImage.id img = imageId ->
                        DraggableImage.imageUrl img = newImageUrl)
       (images (state w'))
  /\ Forall2 (fun a b => DraggableImage.id a <> imageId -> b = a)
       (images (state w)) (images (state w'))
  /\ (forall si, selectedImage (state w) = Some si ->
        DraggableImage.id si = imageId ->
        DraggableImage.imageUrl <$> selectedImage (state w') = Some newImageUrl)
  /\ DraggableImage.imageUrl <$> selectedImage (imageClicked ref (state w'))
     = Some (image_seen_imageUrl c)
  /\ (forall img0,
        find (fun img => String.eqb (DraggableImage.id img) imageId)
          (images (state w)) = Some img0 ->
        DraggableImage.imageUrl
          <$> selectedImage
                (state (world (handleImageDoubleClick imageId (startUi w'))))
        = Some newImageUrl)
  /\ saveCalls w' = saveCalls w.
Proof.
  intros Hc w'.
  set (retarget := fun img : DraggableImage.t =>
                     if String.eqb (DraggableImage.id img) imageId
                     then with_imageUrl img newImageUrl else img).
  set (heap' :=
         match find (fun img => String.eqb (DraggableImage.id img) imageId)
                 (images (state w)), texture with
         | Some imageToUpdate, Some tex =>
             alter (map_image_node (fun n => with_texture n tex))
               (DraggableImage.node imageToUpdate) (imageNodes (state w))
         | _, _ => imageNodes (state w)
         end).
  assert (Hst : images (state w') = retarget <$> images (state w)
                /\ imageNodes (state w') = heap'
                /\ selectedImage (state w')
                   = match selectedImage (state w) with
                     | Some si =>
                         if String.eqb (DraggableImage.id si) imageId
                         then Some (with_imageUrl si newImageUrl) else Some si
                     | None => None
                     end
                /\ saveCalls w' = saveCalls w).
  { unfold w', handleGeminiImageUpdated, update. cbn [state set_state saveCalls].
    destruct (debouncedAutoSave_frame w) as (-> & _ & -> & _).
    destruct (selectedImage (state w)) as [si|] eqn:Hsel.
    - destruct (String.eqb (DraggableImage.id si) imageId); cbn;
        rewrite ?Hsel; repeat split; reflexivity.
    - cbn. rewrite ?Hsel. repeat split; reflexivity. }
  destruct Hst as (Hi & Hn & Hsi & Hsc).
  assert (Hcell : exists c', imageNodes (state w') !! ref = Some c'
                             /\ image_seen_imageUrl c' = image_seen_imageUrl c).
  { rewrite Hn. unfold heap'.
    destruct (find _ _) as [img0|]; [|eauto].
    destruct texture as [tex|]; [|eauto].
    destruct (decide (DraggableImage.node img0 = ref)) as [->|Hne].
    - rewrite list_lookup_alter_eq, Hc. cbn. eauto.
    - rewrite list_lookup_alter_ne by exact Hne. eauto. }
  split; [|split; [|split; [|split; [|split; [|split]]]]].
  - rewrite Hi. apply rescale_ids. intros img. unfold retarget.
    destruct (String.eqb _ _); reflexivity.
  - rewrite Hi. apply Forall_forall. intros img Hin.
    apply list_elem_of_fmap in Hin. destruct Hin as (img0 & -> & _).
    unfold retarget.
    destruct (String.eqb (DraggableImage.id img0) imageId) eqn:Heq;
      [reflexivity|].
    apply String.eqb_neq in Heq. intros Hid. contradiction.
  - rewrite Hi. clear. induction (images (state w)) as [|a l IH]; [constructor|].
    rewrite fmap_cons. constructor; [|exact IH].
    intros Hne. unfold retarget. apply String.eqb_neq in Hne. rewrite Hne.
    reflexivity.
  - intros si Hsel Hid. rewrite Hsi, Hsel.
    apply String.eqb_eq in Hid. rewrite Hid. reflexivity.
  - destruct Hcell as (c' & Hc' & Hurl).
    unfold imageClicked. rewrite Hc'. cbn. rewrite Hurl. reflexivity.
  - intros img0 Hfind.
    change (DraggableImage.imageUrl
              <$> find (fun img => String.eqb (DraggableImage.id img) imageId)
                    (images (state w')) = Some newImageUrl).
    rewrite Hi. unfold retarget. rewrite find_fmap_retarget, Hfind. reflexivity.
  - exact Hsc.
Qed.

(** ** Records without a usable URL *)

Lemma filter_same_length {A} (p : A -> bool) (l : list A) :
  length (List.filter p l) = length l -> List.filter p l = l.
Proof.
  induction l as [|a l IH]; [reflexivity|].
  cbn. destruct (p a); cbn; intros H.
  - f_equal. apply IH. lia.
  - pose proof (filter_length_le p l). lia.
Qed.

Lemma filter_idem {A} (p : A -> bool) (l : list A) :
  List.filter p (List.filter p l) = List.filter p l.
Proof.
  induction l as [|a l IH]; [reflexivity|].
  cbn. destruct (p a) eqn:Ha; cbn; rewrite ?Ha, IH; reflexivity.
Qed.

Lemma store_image_all heap l :
  Forall (fun img => Js.nonempty (DraggableImage.imageUrl img) = true) l ->
  length (omap (store_image heap) l) = length l.
Proof.
  induction 1 as [|img l Himg _ IH]; [reflexivity|].
  change (omap (store_image heap) (img :: l))
    with (match store_image heap img with
          | Some y => y :: omap (store_image heap) l
          | None => omap (store_image heap) l
          end).
  pose proof (store_image_some heap img) as Hst.
  destruct (store_image heap img).
  - cbn [length]. rewrite IH. reflexivity.
  - rewrite Hst in Himg. discriminate.
Qed.

(** X22.  [cleanupInvalidImages] keeps exactly the records whose URL is not
    blank, in order, and touches nothing else: the nodes of the records it
    drops stay on the canvas.  It changes nothing when applied again, and
    after it [saveToAPI] has an entry for every record.  On an empty list,
    as on mount (the only place the component calls it), it changes
    nothing. *)
Theorem cleanup_keeps_records_with_url (s : State) :
  let usable := fun img =>
    Js.nonempty (DraggableImage.imageUrl img)
    && negb (String.eqb (JsString.trim (DraggableImage.imageUrl img)) EmptyString) in
  let s' := cleanupInvalidImages s in
  images s' = List.filter usable (images s)
  /\ imageNodes s' = imageNodes s
  /\ texts s' = texts s
  /\ selectedImage s' = selectedImage s
  /\ cleanupInvalidImages s' = s'
  /\ length (omap (store_image (imageNodes s')) (images s')) = length (images s')
  /\ (images s = [] -> s' = s).
Proof.
  intros usable s'.
  assert (Hi : images s' = List.filter usable (images s)).
  { unfold s', cleanupInvalidImages. fold usable.
    destruct (Nat.eqb (length (List.filter usable (images s))) (length (images s)))
      eqn:Hlen; cbn [negb].
    - apply Nat.eqb_eq in Hlen. symmetry. apply filter_same_length. exact Hlen.
    - reflexivity. }
  assert (Hrest : imageNodes s' = imageNodes s /\ texts s' = texts s
                  /\ selectedImage s' = selectedImage s).
  { unfold s', cleanupInvalidImages.
    destruct (negb _); repeat split; reflexivity. }
  destruct Hrest as (Hn & Ht & Hsel).
  split; [exact Hi|]. split; [exact Hn|]. split; [exact Ht|].
  split; [exact Hsel|]. split; [|split].
  - unfold cleanupInvalidImages at 1. fold usable.
    rewrite Hi, filter_idem, Nat.eqb_refl. reflexivity.
  - rewrite Hi. apply store_image_all.
    apply Forall_forall. intros img Hin. apply list_elem_of_In in Hin.
    apply filter_In in Hin. destruct Hin as [_ Hu].
    unfold usable in Hu. apply andb_true_iff in Hu. tauto.
  - intros Hnil. unfold s', cleanupInvalidImages. rewrite Hnil. reflexivity.
Qed.

(** ** Typing mode *)

Lemma append_assoc (a b c : string) :
  ((a ++ b) ++ c)%string = (a ++ (b ++ c))%string.
Proof.
  induction a as [|x a IH]; [reflexivity|]. cbn. rewrite IH. reflexivity.
Qed.

Lemma append_empty_r (a : string) : (a ++ EmptyString)%string = a.
Proof.
  induction a as [|x a IH]; [reflexivity|]. cbn. rewrite IH. reflexivity.
Qed.

(** A key that types a character is none of the named keys. *)
Lemma printable_key (e : KeyboardEvent.t) :
  printable e ->
  String.eqb (KeyboardEvent.key e) "Escape" = false
  /\ String.eqb (KeyboardEvent.key e) "Delete" = false
  /\ String.eqb (KeyboardEvent.key e) "Backspace" = false
  /\ String.eqb (KeyboardEvent.key e) "Enter" = false
  /\ Nat.eqb (String.length (KeyboardEvent.key e)) 1 = true.
Proof.
  intros (Hlen & _ & _).
  destruct (KeyboardEvent.key e) as [|a [|b r]]; try discriminate.
  cbn. repeat split; destruct (Ascii.eqb a _); reflexivity.
Qed.

Lemma keyDown_printable editorState window now e ui :
  isTyping ui = true ->
  printable e ->
  keyDown editorState window now e ui
  = setCurrentText (currentText ui ++ KeyboardEvent.key e) ui.
Proof.
  intros Ht Hp.
  destruct (printable_key e Hp) as (Hesc & Hdel & Hbs & Hent & Hlen).
  destruct Hp as (_ & Hctrl & Hmeta).
  unfold keyDown, handleKeyDown.
  rewrite Hesc, Hdel, Hbs, Hent, Hlen, Hctrl, Hmeta, Ht.
  cbn [andb orb negb]. rewrite !andb_false_r. reflexivity.
Qed.

Lemma keysDown_printable editorState window now events : forall ui,
  isTyping ui = true ->
  Forall printable events ->
  keysDown editorState window now events ui
  = setCurrentText (currentText ui ++ typed events) ui.
Proof.
  induction events as [|e events IH]; intros ui Ht Hall.
  - cbn. rewrite append_empty_r. destruct ui; reflexivity.
  - apply Forall_cons in Hall. destruct Hall as [He Hall].
    unfold keysDown. cbn [fold_left].
    fold (keysDown editorState window now events
            (keyDown editorState window now e ui)).
    rewrite (keyDown_printable _ _ _ _ _ Ht He).
    rewrite IH; [|exact Ht|exact Hall].
    cbn. rewrite append_assoc. reflexivity.
Qed.

(** X23.  In typing mode every key that types a character (a key of one
    code unit, without ctrl or meta) appends it to the text being typed and
    changes nothing else, whatever is selected and whether or not the panel
    is shown.  Enter then creates one text object with the typed text,
    trimmed, at the typing position, schedules its save and leaves typing
    mode with an empty text. *)
Theorem typing_then_enter_creates_trimmed_text (editorState : EditorState.t)
    (window : Window.t) (now : string) (events : list KeyboardEvent.t)
    (ui : Ui) :
  isTyping ui = true ->
  Forall printable events ->
  Js.nonempty (JsString.trim (currentText ui ++ typed events)) = true ->
  let ui1 := keysDown editorState window now events ui in
  let ui2 := keyDown editorState window now (pressed "Enter") ui1 in
  currentText ui1 = (currentText ui ++ typed events)%string
  /\ isTyping ui1 = true
  /\ world ui1 = world ui
  /\ typingPosition ui1 = typingPosition ui
  /\ world ui2
     = createTextElement editorState
         (JsString.trim (currentText ui ++ typed events))
         (px (typingPosition ui)) (py (typingPosition ui)) now (world ui)
  /\ isTyping ui2 = false
  /\ currentText ui2 = EmptyString
  /\ length (texts (state (world ui2))) = S (length (texts (state (world ui)))).
Proof.
  intros Ht Hall Hne ui1 ui2.
  assert (H1 : ui1 = setCurrentText (currentText ui ++ typed events) ui).
  { apply keysDown_printable; assumption. }
  assert (H2 : ui2
               = setCurrentText EmptyString
                   (setIsTyping false
                      (set_world
                         (createTextElement editorState
                            (JsString.trim (currentText ui ++ typed events))
                            (px (typingPosition ui)) (py (typingPosition ui))
                            now (world ui)) ui1))).
  { unfold ui2, keyDown, handleKeyDown. rewrite H1.
    cbn [pressed KeyboardEvent.key String.eqb Ascii.eqb Bool.eqb andb orb negb
         isTyping setCurrentText currentText typingPosition world
         showGeminiPrompt].
    rewrite Ht, Hne. reflexivity. }
  rewrite H2, H1. cbn.
  repeat (split; [first [reflexivity | assumption]|]).
  rewrite length_app. cbn. lia.
Qed.

Lemma handleDeleteImage_state (imageId : string) (w : World) :
  let s := state w in
  let s' := state (handleDeleteImage imageId w) in
  images s'
  = List.filter (fun img => negb (String.eqb (DraggableImage.id img) imageId))
      (images s)
  /\ selectedImage s'
     = match selectedImage s with
       | Some si =>
           if String.eqb (DraggableImage.id si) imageId then None else Some si
       | None => None
       end
  /\ texts s' = texts s.
Proof.
  intros s s'. unfold s', handleDeleteImage. rewrite afterCommit_state.
  unfold update. cbn [state set_state].
  destruct (debouncedAutoSave_frame w) as (-> & _).
  fold s. destruct (selectedImage s) as [si|] eqn:Hsel.
  - destruct (String.eqb (DraggableImage.id si) imageId); cbn;
      rewrite ?Hsel; repeat split; reflexivity.
  - cbn. rewrite ?Hsel. repeat split; reflexivity.
Qed.

(** X24.  Backspace in typing mode, while an image is selected and the
    panel is closed, does two things at once: it removes the last character
    of the text being typed, and it deletes the selected image, every record
    with its id, and clears the selection.  Typing mode goes on. *)
Theorem backspace_while_typing_deletes_selection (editorState : EditorState.t)
    (window : Window.t) (now : string) (ui : Ui) (si : DraggableImage.t) :
  isTyping ui = true ->
  showGeminiPrompt ui = false ->
  selectedImage (state (world ui)) = Some si ->
  let ui' := keyDown editorState window now (pressed "Backspace") ui in
  currentText ui' = JsString.dropLast (currentText ui)
  /\ isTyping ui' = true
  /\ world ui' = handleDeleteImage (DraggableImage.id si) (world ui)
  /\ Forall (fun img => DraggableImage.id img <> DraggableImage.id si)
       (images (state (world ui')))
  /\ selectedImage (state (world ui')) = None
  /\ texts (state (world ui')) = texts (state (world ui)).
Proof.
  intros Ht Hp Hsel ui'.
  assert (H : ui' = setCurrentText (JsString.dropLast (currentText ui))
                      (set_world
                         (handleDeleteImage (DraggableImage.id si) (world ui)) ui)).
  { unfold ui', keyDown, handleKeyDown.
    cbn [pressed KeyboardEvent.key String.eqb Ascii.eqb Bool.eqb andb orb negb].
    rewrite Hp, Ht, Hsel. reflexivity. }
  rewrite H. cbn [currentText setCurrentText isTyping set_world world].
  split; [reflexivity|]. split; [exact Ht|]. split; [reflexivity|].
  destruct (handleDeleteImage_state (DraggableImage.id si) (world ui))
    as (Hi & Hs & Htx).
  split; [|split].
  - rewrite Hi. apply Forall_forall. intros img Hin.
    apply list_elem_of_In, filter_In in Hin. destruct Hin as [_ Hne].
    apply negb_true_iff, String.eqb_neq in Hne. exact Hne.
  - rewrite Hs, Hsel, String.eqb_refl. reflexivity.
  - exact Htx.
Qed.


(** X26.  In the keyboard handler of the canvas, Escape and an Enter on a
    blank text never touch the canvas.
    Escape with the panel shown only closes the panel, typing goes on with
    its text; with the panel closed it leaves typing mode and drops the
    text.  Enter in typing mode on a text that trims to nothing leaves
    typing mode and creates nothing; outside typing mode Enter does
    nothing. *)
Theorem escape_and_blank_enter_create_nothing (editorState : EditorState.t)
    (window : Window.t) (now : string) (ui : Ui) :
  (let ui' := keyDown editorState window now (pressed "Escape") ui in
   world ui' = world ui
   /\ (showGeminiPrompt ui = true ->
       showGeminiPrompt ui' = false
       /\ isTyping ui' = isTyping ui
       /\ currentText ui' = currentText ui)
   /\ (showGeminiPrompt ui = false ->
       isTyping ui' = false
       /\ (isTyping ui = true -> currentText ui' = EmptyString)))
  /\ (let ui' := keyDown editorState window now (pressed "Enter") ui in
      (isTyping ui = true ->
       JsString.trim (currentText ui) = EmptyString ->
       world ui' = world ui
       /\ isTyping ui' = false
       /\ currentText ui' = EmptyString)
      /\ (isTyping ui = false -> ui' = ui)).
Proof.
  split.
  - cbn zeta. unfold keyDown, handleKeyDown.
    cbn [pressed KeyboardEvent.key String.eqb Ascii.eqb Bool.eqb andb orb negb].
    destruct (showGeminiPrompt ui) eqn:Hp, (isTyping ui) eqn:Ht; cbn;
      repeat split; try reflexivity; try discriminate; auto.
  - cbn zeta. unfold keyDown, handleKeyDown.
    cbn [pressed KeyboardEvent.key String.eqb Ascii.eqb Bool.eqb andb orb negb].
    split.
    + intros Ht Hblank. rewrite Ht, Hblank. cbn. repeat split; reflexivity.
    + intros Ht. rewrite Ht. destruct ui; reflexivity.
Qed.


(** ** The generation panel *)

Section Panel.

Import GeminiImagePrompt.

Lemma toLowerCase_app (a b : string) :
  JsString.toLowerCase (a ++ b) = (JsString.toLowerCase a ++ JsString.toLowerCase b)%string.
Proof.
  induction a as [|x a IH]; [reflexivity|]. cbn. rewrite IH. reflexivity.
Qed.

Lemma startsWith_app (k s : string) : JsString.startsWith k (k ++ s) = true.
Proof.
  induction k as [|x k IH]; [reflexivity|].
  cbn. rewrite Ascii.eqb_refl, IH. reflexivity.
Qed.

Lemma includes_app (k a b : string) : JsString.includes k (a ++ k ++ b) = true.
Proof.
  induction a as [|x a IH].
  - cbn [String.append]. destruct (k ++ b)%string eqn:Hkb.
    + cbn. rewrite <- Hkb, startsWith_app. reflexivity.
    + cbn [JsString.includes]. rewrite <- Hkb, startsWith_app. reflexivity.
  - cbn [String.append JsString.includes]. rewrite IH. apply orb_true_r.
Qed.

(** X28.  A create keyword anywhere in the prompt makes the intent
    [create]: in any letter case, with anything before and after it, also
    inside a longer word.  The empty prompt has the intent [update]. *)
Theorem create_keyword_anywhere_means_create (before keyword after : string) :
  In (JsString.toLowerCase keyword) createKeywords ->
  analyzePromptIntent (before ++ keyword ++ after) = create
  /\ analyzePromptIntent EmptyString = update.
Proof.
  intros Hin. split; [|reflexivity].
  unfold analyzePromptIntent.
  rewrite !toLowerCase_app.
  set (k := JsString.toLowerCase keyword) in *.
  set (a := JsString.toLowerCase before). set (b := JsString.toLowerCase after).
  assert (Hex : existsb (fun keyword0 => JsString.includes keyword0 (a ++ k ++ b))
                  createKeywords = true).
  { apply existsb_exists. exists k. split; [exact Hin|apply includes_app]. }
  cbv zeta. rewrite Hex. reflexivity.
Qed.

(** X29.  What the panel does with a successful answer.  A prompt that
    trims to nothing is refused before any request.  With the intent
    [create] the image is handed to the canvas as a new image, at a point
    with both coordinates from 100 up to (not including) 500.  With the
    intent [update] it replaces the selected image; when no image is
    selected the answer is dropped: the panel closes and the canvas gets
    nothing. *)
Theorem submit_hands_over_or_drops_the_image (prompt imageUrl : string)
    (selectedImageId : option string) (random1 random2 : Q) :
  Js.nonempty (JsString.trim prompt) = true ->
  Js.nonempty imageUrl = true ->
  0 <= random1 /\ random1 < 1 ->
  0 <= random2 /\ random2 < 1 ->
  let outcome := handleSubmit prompt selectedImageId (Ok true imageUrl)
                   random1 random2 in
  (analyzePromptIntent prompt = create ->
   exists x y, outcome = Generated imageUrl x y
               /\ 100 <= x /\ x < 500 /\ 100 <= y /\ y < 500)
  /\ (analyzePromptIntent prompt = update ->
      (forall imageId, selectedImageId = Some imageId ->
         Js.nonempty imageId = true -> outcome = Updated imageId imageUrl)
      /\ (selectedImageId = None -> outcome = Closed))
  /\ (forall p id reply r1 r2,
        JsString.trim p = EmptyString ->
        handleSubmit p id reply r1 r2 = Refused "Please enter a prompt").
Proof.
  intros Hp Hu [H1 H1'] [H2 H2'] outcome.
  unfold outcome, handleSubmit. rewrite Hp, Hu. cbn [negb andb].
  split; [|split].
  - intros ->. eexists. eexists. split; [reflexivity|].
    repeat split; lra.
  - intros ->. split.
    + intros imageId -> Hid. rewrite Hid. reflexivity.
    + intros ->. reflexivity.
  - intros p id reply r1 r2 Hblank. rewrite Hblank. reflexivity.
Qed.

End Panel.

(** ** Deleting a text *)

(** X30.  Deleting the only text of a canvas without images: the deletion
    schedules the save before React commits the removal, so the callback of
    the timer still sees one text.  Two seconds later a save is called on
    the emptied canvas: the request holds no image and no text, and the
    route writes it over the stored document. *)
Theorem deleting_last_text_saves_emptied_document (w : World)
    (t : DraggableText.t) :
  settled w ->
  images (state w) = [] ->
  texts (state w) = [t] ->
  let w' := wait 2000 (handleDeleteText (DraggableText.id t) w) in
  let emptied :=
    {| CanvasData.images := Some [];
       CanvasData.texts := Some [];
       CanvasData.canvasPosition := Some (container (state w)) |} in
  texts (state w') = []
  /\ images (state w') = []
  /\ saveCalls w'
     = saveCalls w ++ [{| called_at := (clock w + 2000)%N; body := Some emptied |}]
  /\ file w' = Some emptied.
Proof.
  intros Hs Himg Htxt w' emptied.
  pose proof (debouncedAutoSave_arms w Hs) as Harm.
  destruct (debouncedAutoSave_frame w) as (Hst & Hclock & Hcalls & Hfile).
  rewrite Himg, Htxt in Harm. simpl length in Harm.
  subst w'. unfold handleDeleteText.
  match goal with
  | |- context [update ?f (debouncedAutoSave w)] => set (remove := f)
  end.
  assert (Hgone : texts (remove (state w)) = []
                  /\ images (remove (state w)) = []
                  /\ container (remove (state w)) = container (state w)).
  { subst remove. cbv beta. rewrite Htxt. simpl.
    rewrite String.eqb_refl. simpl.
    destruct (selectedText (state w)) as [st|]; [|auto].
    destruct (String.eqb (DraggableText.id st) (DraggableText.id t)); auto. }
  destruct Hgone as (Hgt & Hgi & Hgc).
  pose proof (update_armed remove _ _ _ _ Harm) as Harm2.
  assert (Hstate2 : state (update remove (debouncedAutoSave w)) = remove (state w))
    by (rewrite <- Hst; reflexivity).
  assert (Hsave : saveToAPI (remove (state w)) = Some emptied).
  { unfold saveToAPI. rewrite Hgt, Hgi, Hgc. reflexivity. }
  destruct (wait_due 2000 _ _ _ _ Harm2) as (_ & _ & K3 & _ & K5).
  { simpl. lia. }
  split; [rewrite K3, Hstate2; exact Hgt|].
  split; [rewrite K3, Hstate2; exact Hgi|].
  split.
  - rewrite K5, Hstate2, Hsave. cbn [Nat.ltb Nat.leb orb].
    change (saveCalls (update remove (debouncedAutoSave w)))
      with (saveCalls (debouncedAutoSave w)).
    rewrite Hcalls. reflexivity.
  - destruct Harm2 as (id & Htimers & _).
    unfold wait. rewrite Htimers.
    assert (Hdue : due (clock (update remove (debouncedAutoSave w)) + 2000)%N
                     {| timer_id := S id; fire_at := (clock w + 2000)%N;
                        seen_images := 0; seen_texts := 1 |} = true).
    { unfold due. cbn [fire_at]. apply N.leb_le.
      change (clock (update remove (debouncedAutoSave w)))
        with (clock (debouncedAutoSave w)).
      rewrite Hclock. lia. }
    cbn [List.filter]. rewrite Hdue. cbn [negb fold_left].
    unfold fire. cbn [seen_images seen_texts Nat.ltb Nat.leb orb state file].
    change (state (update remove (debouncedAutoSave w)))
      with (remove (state (debouncedAutoSave w))).
    rewrite Hst, Hsave. reflexivity.
Qed.

(** ** The further statements at concrete inputs *)

(** The drag of the 100 x 100 image from (100, 100), grabbed at (150, 160)
    and released at (250, 260), with a second pointer about. *)
Lemma drag_end_scenario :
  let n1 := dragMoves [Scenario.pointer 1 250 260]
              (DraggableResizable.onDragStart (Scenario.pointer 1 150 160)
                 Gesture.squareAt100) in
  pointerId (Scenario.pointer 1 250 260) = pointerId (Scenario.pointer 1 150 160)
  /\ pointerId (Scenario.pointer 2 0 0) <> pointerId (Scenario.pointer 1 150 160)
  /\ snd (DraggableResizable.onDragEnd (Scenario.pointer 1 250 260) n1)
     = [Moved (DraggableResizable.x n1) (DraggableResizable.y n1)]
  /\ DraggableResizable.x n1 == 200
  /\ DraggableResizable.y n1 == 200.
Proof.
  intros n1.
  assert (Hne : pointerId (Scenario.pointer 2 0 0)
                <> pointerId (Scenario.pointer 1 150 160))
    by (intros H; discriminate H).
  split; [reflexivity|]. split; [exact Hne|].
  pose proof (drag_end_reports_final_position Gesture.squareAt100
                (Scenario.pointer 1 150 160) (Scenario.pointer 1 250 260)
                (Scenario.pointer 2 0 0) [Scenario.pointer 1 250 260]
                eq_refl Hne) as H.
  cbv zeta in H. destruct H as (_ & _ & H3 & _).
  split; [exact H3|]. split; vm_compute; reflexivity.
Defined.

(** The resize of the 100 x 100 image from distance 50 to distance 100. *)
Lemma resize_end_scenario :
  let n1 := resizeMoves Js.QMath (Some Gesture.origin) [Scenario.pointer 1 60 80]
              (DraggableResizable.onResizeStart Js.QMath (Some Gesture.origin)
                 (Scenario.pointer 1 30 40) Gesture.squareNode) in
  pointerId (Scenario.pointer 1 60 80) = pointerId (Scenario.pointer 1 30 40)
  /\ pointerId (Scenario.pointer 2 0 0) <> pointerId (Scenario.pointer 1 30 40)
  /\ snd (DraggableResizable.onResizeEnd (Scenario.pointer 1 60 80) n1)
     = [Resized (DraggableResizable.scale n1)]
  /\ DraggableResizable.scale n1 == 2.
Proof.
  intros n1.
  assert (Hne : pointerId (Scenario.pointer 2 0 0)
                <> pointerId (Scenario.pointer 1 30 40))
    by (intros H; discriminate H).
  split; [reflexivity|]. split; [exact Hne|].
  pose proof (resize_end_reports_final_scale Js.QMath (Some Gesture.origin)
                Gesture.squareNode (Scenario.pointer 1 30 40)
                (Scenario.pointer 1 60 80) (Scenario.pointer 2 0 0)
                [Scenario.pointer 1 60 80] eq_refl Hne) as H.
  cbv zeta in H. destruct H as (_ & _ & H3 & _).
  split; [exact H3|]. vm_compute. reflexivity.
Defined.


(** The 77 x 77 image at the double nearest to 20 / 77: the scale is below
    the exact lower bound, the image is drawn a little under 20 pixels wide,
    and the handle is within the frame. *)
Lemma frame_scenario :
  0 < width (DraggableResizable.texture Tour.atLowerBound)
  /\ 0 < height (DraggableResizable.texture Tour.atLowerBound)
  /\ (1 - scaleSlack) * DraggableResizable.min (DraggableResizable.getScaleConstraints Tour.atLowerBound)
     <= DraggableResizable.scale Tour.atLowerBound
  /\ DraggableResizable.scale Tour.atLowerBound
     < DraggableResizable.min (DraggableResizable.getScaleConstraints Tour.atLowerBound)
  /\ rect_width (ImageFrame.frame (ImageFrame._redrawFrame Tour.atLowerBound)) < 20
  /\ 20 * (1 - sizeSlack)
     <= rect_width (ImageFrame.frame (ImageFrame._redrawFrame Tour.atLowerBound))
  /\ inside (ImageFrame.handle (ImageFrame._redrawFrame Tour.atLowerBound))
       (ImageFrame.frame (ImageFrame._redrawFrame Tour.atLowerBound)).
Proof.
  assert (H1 : 0 < width (DraggableResizable.texture Tour.atLowerBound))
    by (vm_compute; reflexivity).
  assert (H2 : 0 < height (DraggableResizable.texture Tour.atLowerBound))
    by (vm_compute; reflexivity).
  assert (H3 : (1 - scaleSlack)
               * DraggableResizable.min (DraggableResizable.getScaleConstraints Tour.atLowerBound)
               <= DraggableResizable.scale Tour.atLowerBound)
    by (vm_compute; discriminate).
  split; [exact H1|]. split; [exact H2|]. split; [exact H3|].
  split; [vm_compute; reflexivity|]. split; [vm_compute; reflexivity|].
  pose proof (handle_fits_inside_frame Tour.atLowerBound H1 H2 H3) as H.
  cbv zeta in H. destruct H as (Hwide & _ & Hin & _).
  split; [exact Hwide | exact Hin].
Defined.

(** A photo of 800 x 400 pixels is created at scale 1/4, 200 pixels wide. *)
Lemma new_photo_scenario :
  0 < width Scenario.photo
  /\ 0 < height Scenario.photo
  /\ 200 <= Qmax (width Scenario.photo) (height Scenario.photo)
  /\ DraggableResizable.scale (DraggableResizable.new Scenario.photo "1") == 1 # 4
  /\ rect_width (ImageFrame.frame
                   (ImageFrame._redrawFrame
                      (DraggableResizable.new Scenario.photo "1"))) == 200
  /\ 200 * (1 - sizeSlack)
     <= Qmax (rect_width (ImageFrame.frame
                            (ImageFrame._redrawFrame
                               (DraggableResizable.new Scenario.photo "1"))))
             (rect_height (ImageFrame.frame
                             (ImageFrame._redrawFrame
                                (DraggableResizable.new Scenario.photo "1"))))
  /\ Qmax (rect_width (ImageFrame.frame
                         (ImageFrame._redrawFrame
                            (DraggableResizable.new Scenario.photo "1"))))
          (rect_height (ImageFrame.frame
                          (ImageFrame._redrawFrame
                             (DraggableResizable.new Scenario.photo "1"))))
     <= 200 * (1 + sizeSlack).
Proof.
  assert (H1 : 0 < width Scenario.photo) by (vm_compute; reflexivity).
  assert (H2 : 0 < height Scenario.photo) by (vm_compute; reflexivity).
  assert (H3 : 200 <= Qmax (width Scenario.photo) (height Scenario.photo))
    by (vm_compute; discriminate).
  split; [exact H1|]. split; [exact H2|]. split; [exact H3|].
  split; [vm_compute; reflexivity|]. split; [vm_compute; reflexivity|].
  pose proof (new_image_fits_200 Scenario.photo "1" H1 H2) as H.
  cbv zeta in H. destruct H as (_ & _ & _ & _ & _ & Hbig).
  exact (proj2 (Hbig H3)).
Defined.



(** The text, then the background; the image, then the background. *)
Lemma background_click_scenario :
  exists tc ic sc,
    textNodes Scenario.textAndImage !! 0%nat = Some tc
    /\ DraggableResizableText.text (text_node tc) = Some sc
    /\ imageNodes Scenario.textAndImage !! 0%nat = Some ic
    /\ selectedCount
         (backgroundPointerDown (Scenario.pointer 1 5 5)
            (textClicked 0 Scenario.textAndImage)) = 0%nat
    /\ framesShown
         (backgroundPointerDown (Scenario.pointer 1 5 5)
            (textClicked 0 Scenario.textAndImage)) = 1%nat
    /\ framesShown
         (backgroundPointerDown (Scenario.pointer 1 5 5)
            (imageClicked 0 Scenario.textAndImage)) = 0%nat.
Proof.
  eexists. eexists. eexists.
  split; [reflexivity|]. split; [reflexivity|]. split; [reflexivity|].
  split; [|split; vm_compute; reflexivity].
  exact (proj1 (proj1 (background_click_leaves_text_frame
                         (Scenario.pointer 1 5 5) Scenario.textAndImage 0 0
                         _ _ _ eq_refl eq_refl eq_refl))).
Defined.

Lemma onePhoto_in_sync : images_in_sync Scenario.onePhoto.
Proof.
  split.
  - repeat constructor. eexists. split; reflexivity.
  - apply NoDup_singleton.
Qed.

(** A second image is dropped beside the photo. *)
Lemma creation_scenario :
  images_in_sync Scenario.onePhoto
  /\ images_in_sync
       (handleDrop Scenario.assets "square.png" (Scenario.at_ 5 5) "2"
          Scenario.onePhoto)
  /\ length (images (handleDrop Scenario.assets "square.png" (Scenario.at_ 5 5)
                       "2" Scenario.onePhoto)) = 2%nat.
Proof.
  split; [exact onePhoto_in_sync|].
  pose proof (creation_keeps_images_in_sync Scenario.assets None Scenario.square
                5 5 "square.png" "2" (Scenario.at_ 5 5) Scenario.onePhoto
                onePhoto_in_sync) as (_ & H & _).
  split; [exact H|reflexivity].
Defined.

(** The selected photo is deleted. *)
Lemma deletion_scenario :
  images_in_sync (state (start Scenario.selectedPhoto None))
  /\ images (state (handleDeleteImage "1" (start Scenario.selectedPhoto None))) = []
  /\ selectedImage (state (handleDeleteImage "1" (start Scenario.selectedPhoto None)))
     = None.
Proof.
  assert (H0 : images_in_sync (state (start Scenario.selectedPhoto None))).
  { split.
    - repeat constructor. eexists. split; reflexivity.
    - apply NoDup_singleton. }
  split; [exact H0|].
  pose proof (deletion_keeps_images_in_sync "1"
                (start Scenario.selectedPhoto None) H0) as H.
  cbv zeta in H. destruct H as (_ & Hi & _ & _ & _ & _ & _ & Hsel & _).
  split; [rewrite Hi; reflexivity|].
  eapply Hsel; reflexivity.
Defined.

(** A document without an image list is imported over a text and a photo. *)
Lemma import_without_images_scenario :
  CanvasData.images Tour.noImages = None
  /\ length (images Scenario.textAndImage) = 1%nat
  /\ snd (importFromJSON Scenario.assets Tour.noImages Scenario.textAndImage)
     = true
  /\ images (fst (importFromJSON Scenario.assets Tour.noImages
                    Scenario.textAndImage)) = []
  /\ container (fst (importFromJSON Scenario.assets Tour.noImages
                       Scenario.textAndImage)) = Scenario.at_ 3 4.
Proof.
  pose proof (import_without_images_empties_canvas Scenario.assets
                Scenario.assets Tour.noImages Scenario.textAndImage eq_refl) as H.
  cbv zeta in H. destruct H as (Halert & Hi & _ & _ & _ & Hc & _).
  split; [reflexivity|]. split; [reflexivity|].
  split; [exact Halert|]. split; [exact Hi|exact Hc].
Defined.

(** The document with one text without scale. *)
Lemma import_texts_scenario :
  CanvasData.images Scenario.oneText = Some []
  /\ exists s',
       importFromJSON Scenario.assets Scenario.oneText initial = (s', false)
       /\ map live_text_content (liveTexts s') = ["Hi"%string].
Proof.
  split; [reflexivity|].
  destruct (import_restores_only_unscaled_texts Scenario.assets Scenario.oneText
              [] initial eq_refl) as (s' & Himp & Hlive & _).
  exists s'. split; [exact Himp|]. rewrite Hlive. reflexivity.
Defined.

(** The canvas with a text and a photo is saved and imported again. *)
Lemma save_then_import_texts_scenario :
  exists cd,
    saveToAPI Scenario.textAndImage = Some cd
    /\ length (texts Scenario.textAndImage) = 1%nat
    /\ exists s',
         importFromJSON Scenario.assets cd initial = (s', false)
         /\ texts s' = [].
Proof.
  eexists.
  assert (Hsave : saveToAPI Scenario.textAndImage = Some _)
    by (vm_compute; reflexivity).
  split; [exact Hsave|]. split; [reflexivity|].
  destruct (saved_texts_are_lost_on_import Scenario.assets Scenario.textAndImage
              initial _ Hsave) as (sts & s' & _ & _ & Himp & Ht & _).
  exists s'. split; [exact Himp|exact Ht].
Defined.

(** A text is typed on the canvas with one photo. *)
Lemma text_save_scenario :
  exists cd,
    saveToAPI Scenario.onePhoto = Some cd
    /\ texts_in_range Scenario.onePhoto
    /\ saveToAPI (createTextElement_state Scenario.editor "Hi" 10 20 "2"
                    Scenario.onePhoto) = None
    /\ exists cd',
         saveToAPI (textFontLoaded 0
                      (createTextElement_state Scenario.editor "Hi" 10 20 "2"
                         Scenario.onePhoto)) = Some cd'
         /\ (length <$> CanvasData.texts cd') = Some 1%nat.
Proof.
  eexists.
  assert (Hsave : saveToAPI Scenario.onePhoto = Some _)
    by (vm_compute; reflexivity).
  assert (Hrange : texts_in_range Scenario.onePhoto) by constructor.
  split; [exact Hsave|]. split; [exact Hrange|].
  pose proof (text_is_saved_once_its_font_has_loaded Scenario.editor "Hi" 10 20
                "2" Scenario.onePhoto _ Hsave Hrange) as H.
  cbv zeta in H. destruct H as (Hnone & sts & entry & Hsts & Hsaved & _).
  split; [exact Hnone|].
  eexists. split; [exact Hsaved|].
  injection Hsts as <-. reflexivity.
Defined.

(** A text is typed on the empty canvas and ten seconds pass. *)
Lemma first_text_scenario :
  settled (start initial None)
  /\ images (state (start initial None)) = []
  /\ texts (state (start initial None)) = []
  /\ length (texts (state (createTextElement Scenario.editor "Hi" 10 20 "1"
                             (start initial None)))) = 1%nat
  /\ saveCalls (quiet [Wait 10000]
                  (createTextElement Scenario.editor "Hi" 10 20 "1"
                     (start initial None))) = [].
Proof.
  assert (H0 : settled (start initial None))
    by (split; [simpl; lia | left; reflexivity]).
  split; [exact H0|]. split; [reflexivity|]. split; [reflexivity|].
  pose proof (first_text_is_not_autosaved Scenario.editor "Hi" 10 20 "1"
                (start initial None) [Wait 10000] H0 eq_refl eq_refl) as H.
  cbv zeta in H. destruct H as (Hlen & _ & Hcalls & _).
  split; [exact Hlen|exact Hcalls].
Defined.

(** The canvas with one photo is saved to an empty server. *)
Lemma route_scenario :
  exists cd,
    saveToAPI Scenario.onePhoto = Some cd
    /\ Route.POST cd None = (Some cd, true)
    /\ Route.GET (fst (Route.POST cd None)) = cd.
Proof.
  eexists.
  assert (Hsave : saveToAPI Scenario.onePhoto = Some _)
    by (vm_compute; reflexivity).
  split; [exact Hsave|].
  pose proof (saved_document_reaches_the_route Scenario.onePhoto _ None Hsave)
    as (_ & _ & Hpost & Hget & _).
  split; [exact Hpost|exact Hget].
Defined.

(** The dropped photo at the end of a drag and at the end of a resize. *)
Lemma gesture_end_scenario :
  exists c,
    settled Tour.draggingPhoto
    /\ imageNodes (state Tour.draggingPhoto) !! 0%nat = Some c
    /\ image_persists c = true
    /\ DraggableResizable.dragPointerId (image_node c) = Some 1%Z
    /\ length (timers (imageDragEnd 0 (Scenario.pointer 1 250 260)
                         Tour.draggingPhoto)) = 1%nat
    /\ map DraggableImage.id
         (images (state (imageDragEnd 0 (Scenario.pointer 1 250 260)
                           Tour.draggingPhoto))) = ["1"%string].
Proof.
  eexists.
  assert (H0 : settled Tour.draggingPhoto)
    by (split; [simpl; lia | left; reflexivity]).
  split; [exact H0|]. split; [reflexivity|]. split; [reflexivity|].
  split; [reflexivity|].
  pose proof (gesture_end_is_mirrored_and_scheduled 0
                (Scenario.pointer 1 250 260) Tour.draggingPhoto _ H0
                eq_refl eq_refl) as H.
  cbv zeta in H. destruct H as (_ & Hdrag).
  destruct (Hdrag eq_refl) as ((id & Ht & _) & _ & Hids & _).
  split; [rewrite Ht; reflexivity|exact Hids].
Defined.

(** The document with one image is imported; its image is then resized. *)
Lemma imported_image_scenario :
  exists s',
    loadCanvasData Scenario.assets Scenario.oneImage initial = Returned s'
    /\ length (images s') = 1%nat
    /\ Forall (fun img =>
                 exists c, imageNodes s' !! DraggableImage.node img = Some c
                           /\ image_persists c = false)
         (images s').
Proof.
  eexists.
  assert (Hload : loadCanvasData Scenario.assets Scenario.oneImage initial
                  = Returned _) by reflexivity.
  split; [exact Hload|]. split; [reflexivity|].
  exact (proj1 (imported_images_are_not_mirrored Scenario.assets
                  Scenario.oneImage initial _ Hload)).
Defined.

(** The document with three image entries is loaded from the server. *)
Lemma loaders_sync_scenario :
  CanvasData.images Scenario.threeImages
  = Some [Scenario.storedPhoto "a" "photo.png";
          Scenario.storedPhoto "b" "missing.png";
          Scenario.storedPhoto "c" "square.png"]
  /\ images_in_sync
       (loadFromAPI Scenario.assets (Some Scenario.threeImages) Scenario.onePhoto)
  /\ images_in_sync
       (final (loadCanvasData Scenario.assets Scenario.threeImages
                 Scenario.onePhoto)).
Proof.
  split; [reflexivity|].
  pose proof (loaders_leave_images_in_sync Scenario.assets Scenario.assets
                Scenario.threeImages _ Scenario.onePhoto eq_refl)
    as (Himp & Hapi & _).
  split; [exact Hapi|exact Himp].
Defined.

(** The selected photo gets a new picture and is clicked again. *)
Lemma updated_image_scenario :
  exists c,
    imageNodes (state (start Scenario.selectedPhoto None)) !! 0%nat = Some c
    /\ map DraggableImage.imageUrl
         (images (state (handleGeminiImageUpdated None "1" "new.png"
                           (start Scenario.selectedPhoto None))))
       = ["new.png"%string]
    /\ DraggableImage.imageUrl
         <$> selectedImage
               (imageClicked 0
                  (state (handleGeminiImageUpdated None "1" "new.png"
                            (start Scenario.selectedPhoto None))))
       = Some "photo.png"%string.
Proof.
  eexists. split; [reflexivity|]. split; [reflexivity|].
  pose proof (updated_image_is_reselected_with_old_url None "1" "new.png"
                (start Scenario.selectedPhoto None) 0 _ eq_refl) as H.
  cbv zeta in H. destruct H as (_ & _ & _ & _ & Hclick & _).
  exact Hclick.
Defined.

(** H, i and a space are typed on the empty canvas, then Enter. *)
Lemma typing_scenario :
  let ui := Tour.typing (start initial None) EmptyString in
  let keys := [pressed "H"; pressed "i"; pressed " "] in
  isTyping ui = true
  /\ Forall printable keys
  /\ Js.nonempty (JsString.trim (currentText ui ++ typed keys)) = true
  /\ map DraggableText.text
       (texts (state (world (keyDown Scenario.editor Tour.window "1"
                               (pressed "Enter")
                               (keysDown Scenario.editor Tour.window "1" keys ui)))))
     = ["Hi"%string].
Proof.
  intros ui keys.
  assert (H1 : Forall printable keys)
    by (repeat constructor).
  assert (H2 : Js.nonempty (JsString.trim (currentText ui ++ typed keys)) = true)
    by reflexivity.
  split; [reflexivity|]. split; [exact H1|]. split; [exact H2|].
  pose proof (typing_then_enter_creates_trimmed_text Scenario.editor Tour.window
                "1" keys ui eq_refl H1 H2) as H.
  cbv zeta in H. destruct H as (_ & _ & _ & _ & Hw & _).
  rewrite Hw. reflexivity.
Defined.

(** Backspace while [ab] is being typed and the photo is selected. *)
Lemma backspace_scenario :
  let ui := Tour.typing (start Scenario.selectedPhoto None) "ab" in
  exists si,
    isTyping ui = true
    /\ showGeminiPrompt ui = false
    /\ selectedImage (state (world ui)) = Some si
    /\ currentText (keyDown Scenario.editor Tour.window "2"
                      (pressed "Backspace") ui) = "a"%string
    /\ images (state (world (keyDown Scenario.editor Tour.window "2"
                               (pressed "Backspace") ui))) = [].
Proof.
  intros ui. eexists.
  split; [reflexivity|]. split; [reflexivity|]. split; [reflexivity|].
  pose proof (backspace_while_typing_deletes_selection Scenario.editor
                Tour.window "2" ui _ eq_refl eq_refl eq_refl) as H.
  cbv zeta in H. destruct H as (Htext & _ & Hw & _).
  split; [rewrite Htext; reflexivity|].
  rewrite Hw. reflexivity.
Defined.


(** [Please reMAKE it blue]. *)
Lemma keyword_scenario :
  In (JsString.toLowerCase "MAKE") GeminiImagePrompt.createKeywords
  /\ GeminiImagePrompt.analyzePromptIntent "Please reMAKE it blue"
     = GeminiImagePrompt.create
  /\ GeminiImagePrompt.analyzePromptIntent "a red cat on a sofa"
     = GeminiImagePrompt.update.
Proof.
  assert (Hin : In (JsString.toLowerCase "MAKE") GeminiImagePrompt.createKeywords)
    by (right; right; left; reflexivity).
  split; [exact Hin|]. split; [|reflexivity].
  exact (proj1 (create_keyword_anywhere_means_create "Please re" "MAKE"
                  " it blue" Hin)).
Defined.

(** [a red cat on a sofa], with nothing selected: the picture is dropped. *)
Lemma submit_scenario :
  Js.nonempty (JsString.trim "a red cat on a sofa") = true
  /\ Js.nonempty "data:image/png;base64,AAAA" = true
  /\ GeminiImagePrompt.handleSubmit "a red cat on a sofa" None
       (GeminiImagePrompt.Ok true "data:image/png;base64,AAAA") (1 # 2) (1 # 4)
     = GeminiImagePrompt.Closed
  /\ GeminiImagePrompt.handleSubmit "another red cat" None
       (GeminiImagePrompt.Ok true "data:image/png;base64,AAAA") (1 # 2) (1 # 4)
     = GeminiImagePrompt.Generated "data:image/png;base64,AAAA"
         ((1 # 2) * 400 + 100) ((1 # 4) * 400 + 100).
Proof.
  split; [reflexivity|]. split; [reflexivity|].
  assert (Hr1 : 0 <= (1 # 2) /\ (1 # 2) < 1)
    by (split; [intros H; discriminate H | reflexivity]).
  assert (Hr2 : 0 <= (1 # 4) /\ (1 # 4) < 1)
    by (split; [intros H; discriminate H | reflexivity]).
  pose proof (submit_hands_over_or_drops_the_image "a red cat on a sofa"
                "data:image/png;base64,AAAA" None (1 # 2) (1 # 4)
                eq_refl eq_refl Hr1 Hr2) as H.
  cbv zeta in H. destruct H as (_ & Hupd & _).
  split; [|reflexivity].
  exact (proj2 (Hupd eq_refl) eq_refl).
Defined.

(** The only text of the canvas is deleted and two seconds pass. *)
Lemma last_text_scenario :
  exists t,
    settled Tour.oneTextOnly
    /\ images (state Tour.oneTextOnly) = []
    /\ texts (state Tour.oneTextOnly) = [t]
    /\ DraggableText.id t = "1"%string
    /\ length (saveCalls (wait 2000 (handleDeleteText "1" Tour.oneTextOnly)))
       = 1%nat
    /\ (CanvasData.texts <$> file (wait 2000 (handleDeleteText "1" Tour.oneTextOnly)))
       = Some (Some []).
Proof.
  eexists.
  assert (H0 : settled Tour.oneTextOnly)
    by (split; [simpl; lia | left; reflexivity]).
  split; [exact H0|]. split; [reflexivity|]. split; [reflexivity|].
  split; [reflexivity|].
  pose proof (deleting_last_text_saves_emptied_document Tour.oneTextOnly _ H0
                eq_refl eq_refl) as H.
  cbv zeta in H. destruct H as (_ & _ & Hcalls & Hfile).
  cbn [DraggableText.id] in Hcalls, Hfile.
  split; [rewrite Hcalls; reflexivity|rewrite Hfile; reflexivity].
Defined.
